(** * Macaroons (iron-io/macaroon): packet codec, signature chain, marshalling

    A shallow embedding of macaroon.go, the packet codec and the binary and
    JSON marshalling code, with Go's run-time panics made explicit, and the
    properties of the design document checked against it. *)

From Stdlib Require Import List NArith ZArith Lia Bool.
From Stdlib Require Import Init.Byte Strings.Byte.
From Stdlib Require Strings.String.
Import ListNotations.

Set Implicit Arguments.

(** A Go [[]byte] value seen as the sequence of its elements; a Go [string]
    is the same thing (strings are byte sequences, [[]byte(s)] copies them). *)
Definition bytes := list byte.

Definition byte_of_N (n : N) : byte :=
  match Byte.of_N (n mod 256) with
  | Some b => b
  | None => x00
  end.

Definition byte_xor (a b : byte) : byte :=
  byte_of_N (N.lxor (Byte.to_N a) (Byte.to_N b)).

(** ** crypto/sha256 and crypto/hmac (Go standard library) *)

Module Sha256.
Local Open Scope N_scope.

Definition w32 (x : N) : N := x mod 4294967296.
Definition add32 (x y : N) : N := w32 (x + y).
Definition rotr (n x : N) : N :=
  N.lor (N.shiftr x n) (w32 (N.shiftl x (32 - n))).
Definition not32 (x : N) : N := N.lxor x 0xffffffff.

Definition Ch (x y z : N) := N.lxor (N.land x y) (N.land (not32 x) z).
Definition Maj (x y z : N) :=
  N.lxor (N.lxor (N.land x y) (N.land x z)) (N.land y z).
Definition bsig0 x := N.lxor (N.lxor (rotr 2 x) (rotr 13 x)) (rotr 22 x).
Definition bsig1 x := N.lxor (N.lxor (rotr 6 x) (rotr 11 x)) (rotr 25 x).
Definition ssig0 x := N.lxor (N.lxor (rotr 7 x) (rotr 18 x)) (N.shiftr x 3).
Definition ssig1 x := N.lxor (N.lxor (rotr 17 x) (rotr 19 x)) (N.shiftr x 10).

(** The round constants are the first 32 bits of the fractional parts of
    the cube roots of the first 64 primes, and the initial chaining values
    those of the square roots of the first 8. *)
Definition is_prime (n : N) : bool :=
  forallb (fun d => negb (n mod d =? 0)) (map N.of_nat (seq 2 (N.to_nat n - 2))).

Definition primes : list N :=
  Eval vm_compute in filter is_prime (map N.of_nat (seq 2 310)).

Fixpoint root_search (k : nat) (below : N -> bool) (r : N) : N :=
  match k with
  | O => r
  | S k' =>
      let c := r + N.shiftl 1 (N.of_nat k') in
      root_search k' below (if below c then c else r)
  end.

Definition frac_cbrt (p : N) : N :=
  w32 (root_search 40 (fun c => c * c * c <=? N.shiftl p 96) 0).

Definition frac_sqrt (p : N) : N := w32 (N.sqrt (N.shiftl p 64)).

Definition K : list N := Eval vm_compute in map frac_cbrt primes.

(** The eight working variables / chaining values. *)
Record state := mkState { sa : N; sb : N; sc : N; sd : N;
                          se : N; sf : N; sg : N; sh : N }.

Definition init : state :=
  Eval vm_compute in
    mkState (frac_sqrt 2) (frac_sqrt 3) (frac_sqrt 5) (frac_sqrt 7)
            (frac_sqrt 11) (frac_sqrt 13) (frac_sqrt 17) (frac_sqrt 19).

Definition be32 (b0 b1 b2 b3 : byte) : N :=
  N.lor (N.shiftl (Byte.to_N b0) 24)
    (N.lor (N.shiftl (Byte.to_N b1) 16)
       (N.lor (N.shiftl (Byte.to_N b2) 8) (Byte.to_N b3))).

Fixpoint words (l : bytes) : list N :=
  match l with
  | b0 :: b1 :: b2 :: b3 :: r => be32 b0 b1 b2 b3 :: words r
  | _ => []
  end.

(** Message schedule, most recent word first. *)
Fixpoint schedule (n : nat) (rev_w : list N) : list N :=
  match n with
  | O => rev_w
  | S n' =>
      let w := add32 (add32 (ssig1 (nth 1 rev_w 0)) (nth 6 rev_w 0))
                     (add32 (ssig0 (nth 14 rev_w 0)) (nth 15 rev_w 0)) in
      schedule n' (w :: rev_w)
  end.

Definition round (s : state) (kw : N * N) : state :=
  let (k, w) := kw in
  let t1 := add32 (add32 (add32 (sh s) (bsig1 (se s)))
                         (add32 (Ch (se s) (sf s) (sg s)) k)) w in
  let t2 := add32 (bsig0 (sa s)) (Maj (sa s) (sb s) (sc s)) in
  mkState (add32 t1 t2) (sa s) (sb s) (sc s)
          (add32 (sd s) t1) (se s) (sf s) (sg s).

Definition block (s : state) (chunk : bytes) : state :=
  let w := rev (schedule 48 (rev (words chunk))) in
  let r := fold_left round (combine K w) s in
  mkState (add32 (sa s) (sa r)) (add32 (sb s) (sb r))
          (add32 (sc s) (sc r)) (add32 (sd s) (sd r))
          (add32 (se s) (se r)) (add32 (sf s) (sf r))
          (add32 (sg s) (sg r)) (add32 (sh s) (sh r)).

Fixpoint blocks (fuel : nat) (s : state) (l : bytes) : state :=
  match fuel, l with
  | S fuel', _ :: _ => blocks fuel' (block s (firstn 64 l)) (skipn 64 l)
  | _, _ => s
  end.

Definition be_bytes4 (x : N) : bytes :=
  [ byte_of_N (N.shiftr x 24); byte_of_N (N.shiftr x 16);
    byte_of_N (N.shiftr x 8); byte_of_N x ].

Definition be_bytes8 (x : N) : bytes :=
  be_bytes4 (N.shiftr x 32) ++ be_bytes4 (w32 x).

Definition pad (msg : bytes) : bytes :=
  let n := N.of_nat (length msg) in
  let k := (64 + 55 - n mod 64) mod 64 in
  msg ++ x80 :: repeat x00 (N.to_nat k) ++ be_bytes8 (8 * n).

Definition digest (s : state) : bytes :=
  be_bytes4 (sa s) ++ be_bytes4 (sb s) ++ be_bytes4 (sc s) ++
  be_bytes4 (sd s) ++ be_bytes4 (se s) ++ be_bytes4 (sf s) ++
  be_bytes4 (sg s) ++ be_bytes4 (sh s).

Definition sum256 (msg : bytes) : bytes :=
  let p := pad msg in digest (blocks (length p) init p).

Definition Size : nat := 32.
Definition BlockSize : nat := 64.
End Sha256.

Module Hmac.
(** [hmac.New(sha256.New, key)] followed by writes whose concatenation is
    [msg] and [Sum(nil)]. *)
Definition block_key (key : bytes) : bytes :=
  let k := if Nat.ltb Sha256.BlockSize (length key)
           then Sha256.sum256 key else key in
  k ++ repeat x00 (Sha256.BlockSize - length k).

Definition sum (key msg : bytes) : bytes :=
  let k := block_key key in
  let ipad := map (byte_xor x36) k in
  let opad := map (byte_xor x5c) k in
  Sha256.sum256 (opad ++ Sha256.sum256 (ipad ++ msg)).
End Hmac.

(** [hex.EncodeToString]: two lower-case digits per byte. *)
Definition hex_digit (n : N) : byte :=
  byte_of_N (if N.ltb n 10 then 48 + n else 87 + n).

Definition hex_EncodeToString (l : bytes) : bytes :=
  flat_map (fun b => [hex_digit (N.shiftr (Byte.to_N b) 4);
                      hex_digit (N.land (Byte.to_N b) 15)]) l.

(** ** Go values: results, integer conversions, byte slices with capacity *)

(** Error values, one constructor per message the code builds. *)
Inductive error : Type :=
| ErrLocationTooBig        (* macaroon location too big *)
| ErrIdentifierTooBig      (* macaroon identifier too big *)
| ErrCaveatTooBig          (* caveat identifier too big *)
| ErrSignatureMismatch     (* signature mismatch after caveat verification *)
| ErrPacketTooShort        (* packet too short *)
| ErrPacketSizeTooBig      (* packet size too big *)
| ErrUnexpectedField (got want : byte)   (* unexpected field %v; expected %s *)
| ErrAppendSignature       (* failed to append signature to macaroon, ... *)
| ErrMarshalMacaroon (id : bytes) (e : error) (* failed to marshal macaroon %q: %v *)
| ErrCannotUnmarshal (e : error)         (* cannot unmarshal macaroon: %v *)
| ErrHexInvalidByte (b : byte)           (* encoding/hex: invalid byte *)
| ErrHexLength                           (* encoding/hex: odd length hex string *)
| ErrDecodeSignature (e : error)         (* cannot decode macaroon signature *)
| ErrDecodeCaveats (e : error)           (* cannot decode macaroon caveats %q: %v *)
| ErrDecodeCaveatsTooBig                 (* cannot decode macaroon caveats *)
| ErrRepeatedField (f : byte)            (* repeated field %v in caveat *)
| ErrUnexpectedFieldNumber (f : byte).   (* unexpected field %x *)

(** The outcome of a call: a value, a returned error, or a run-time panic
    (index or slice bounds out of range, explicit [panic]). *)
Inductive result (A : Type) : Type :=
| Ok (a : A)
| Err (e : error)
| Panic.
Arguments Ok {A} a.
Arguments Err {A} e.
Arguments Panic {A}.

Definition rbind {A B} (r : result A) (k : A -> result B) : result B :=
  match r with
  | Ok a => k a
  | Err e => Err e
  | Panic => Panic
  end.

Notation "x <- r ;; k" := (rbind r (fun x => k))
  (at level 61, r at next level, right associativity).

Local Open Scope Z_scope.

Definition int32 (z : Z) : Z := (z + 2147483648) mod 4294967296 - 2147483648.
Definition uint16 (z : Z) : Z := z mod 65536.
Definition byte_of_Z (z : Z) : byte := byte_of_N (Z.to_N (z mod 256)).
Definition byte_to_Z (b : byte) : Z := Z.of_N (Byte.to_N b).

Definition len {A} (l : list A) : Z := Z.of_nat (length l).

(** [l[lo:hi]] on a sequence, for indices already checked. *)
Definition sub {A} (l : list A) (lo hi : Z) : list A :=
  firstn (Z.to_nat (hi - lo)) (skipn (Z.to_nat lo) l).

(** A byte slice together with the rest of its backing array: [elems] are
    the [len] visible elements, [spare] the elements between [len] and
    [cap]. *)
Record buffer : Type := mkBuffer { elems : bytes; spare : bytes }.

Definition blen (b : buffer) : Z := len (elems b).
Definition bcap (b : buffer) : Z := len (elems b) + len (spare b).
Definition backing (b : buffer) : bytes := elems b ++ spare b.
Definition nil_buffer : buffer := mkBuffer [] [].

(** [make([]byte, 0, n)] *)
Definition make0 (n : Z) : buffer := mkBuffer [] (repeat x00 (Z.to_nat n)).

(** [b[lo:]] *)
Definition slice_from (b : buffer) (lo : Z) : result buffer :=
  if (0 <=? lo) && (lo <=? blen b)
  then Ok (mkBuffer (skipn (Z.to_nat lo) (elems b)) (spare b))
  else Panic.

(** [b[lo:hi]]: the upper bound of a slice of a slice is its capacity. *)
Definition slice2 (b : buffer) (lo hi : Z) : result buffer :=
  if (0 <=? lo) && (lo <=? hi) && (hi <=? bcap b)
  then Ok (mkBuffer (sub (backing b) lo hi) (skipn (Z.to_nat hi) (backing b)))
  else Panic.

(** [b[lo:hi:max]] *)
Definition slice3 (b : buffer) (lo hi max : Z) : result buffer :=
  if (0 <=? lo) && (lo <=? hi) && (hi <=? max) && (max <=? bcap b)
  then Ok (mkBuffer (sub (backing b) lo hi) (sub (backing b) hi max))
  else Panic.

(** [b[i]] *)
Definition index (b : buffer) (i : Z) : result byte :=
  if (0 <=? i) && (i <? blen b)
  then Ok (nth (Z.to_nat i) (elems b) x00)
  else Panic.

(** Go's [hash.Hash] as used here: the bytes written so far and the
    function that [Sum] applies to them. *)
Record Hash : Type := mkHash { hfun : bytes -> bytes; written : bytes }.

Definition Write (h : Hash) (p : bytes) : Hash :=
  mkHash (hfun h) (written h ++ p).
Definition Sum (h : Hash) (b : bytes) : bytes := b ++ hfun h (written h).

Definition sha256_New : Hash := mkHash Sha256.sum256 [].
Definition hmac_New_sha256 (key : bytes) : Hash := mkHash (Hmac.sum key) [].

(** [bytes.Equal] *)
Fixpoint bytes_Equal (a b : bytes) : bool :=
  match a, b with
  | [], [] => true
  | x :: a', y :: b' => Byte.eqb x y && bytes_Equal a' b'
  | _, _ => false
  end.

(** [subtle.ConstantTimeCompare]: the bytes are combined with xor and or
    in one pass that does not stop at the first difference. *)
Definition byte_or (a b : byte) : byte :=
  byte_of_N (N.lor (Byte.to_N a) (Byte.to_N b)).

Fixpoint ct_fold (v : byte) (x y : bytes) : byte :=
  match x, y with
  | a :: x', b :: y' => ct_fold (byte_or v (byte_xor a b)) x' y'
  | _, _ => v
  end.

Definition ConstantTimeCompare (x y : bytes) : Z :=
  if negb (len x =? len y) then 0
  else if Byte.eqb (ct_fold x00 x y) x00 then 1 else 0.

(** [hmac.Equal] *)
Definition hmac_Equal (mac1 mac2 : bytes) : bool :=
  ConstantTimeCompare mac1 mac2 =? 1.

(** ** The packet codec *)

(** [type field byte] and its constants. *)
Definition field := byte.
Definition fieldInvalid : field := x00.
Definition fieldLocation : field := x01.
Definition fieldIdentifier : field := x02.
Definition fieldSignature : field := x03.
Definition fieldCaveat : field := x04.
Definition fieldVerificationId : field := x05.

(** A packet is a reference into [Macaroon.data]: [start] is an [int32],
    [totalLen] and [headerLen] are [uint16]; the field [headerLen] is never
    assigned and is written [headerLen_] here, apart from the constant. *)
Record packet : Type :=
  mkPacket { start : Z; totalLen : Z; headerLen_ : Z }.

Definition zero_packet : packet := mkPacket 0 0 0.
Definition packet_len (p : packet) : Z := totalLen p.

Definition headerLen : Z := 3.
Definition maxPacketLen : Z := 65535.

(** [binary.LittleEndian.PutUint16] into a 2-byte array. *)
Definition PutUint16 (v : Z) : bytes :=
  [byte_of_Z v; byte_of_Z (Z.shiftr v 8)].

(** [binary.LittleEndian.Uint16]; indexing [b[1]] panics on a shorter slice. *)
Definition Uint16 (b : bytes) : result Z :=
  match b with
  | b0 :: b1 :: _ => Ok (Z.lor (byte_to_Z b0) (Z.shiftl (byte_to_Z b1) 8))
  | _ => Panic
  end.

Definition parseSize (data : bytes) : result Z := Uint16 data.

(** Modelled from the spec: [packetSize] is called by [marshalBinaryLen] but
    its declaration is not among the source files; the total length of a
    packet includes the 3-byte header. *)
Definition packetSize (data : bytes) : Z := headerLen + len data.

(** The packet bytes [appendPacket] writes for a field and its payload. *)
Definition packet_bytes (f : field) (payload : bytes) : bytes :=
  PutUint16 (3 + len payload) ++ [f] ++ payload.

Section GoRuntime.

(** How much room beyond the required length a reallocating [append] leaves
    ([growslice old_cap required]): the language leaves it to the run time,
    and nothing below depends on it. *)
Variable growslice : Z -> Z -> nat.

(** [append(b, xs...)]: in place while the capacity allows, into a fresh
    array otherwise. *)
Definition append (b : buffer) (xs : bytes) : buffer :=
  if (length xs <=? length (spare b))%nat
  then mkBuffer (elems b ++ xs) (skipn (length xs) (spare b))
  else mkBuffer (elems b ++ xs)
                (repeat x00 (growslice (bcap b) (blen b + len xs))).

Definition appendSize (data : buffer) (size : Z) : buffer :=
  append data (PutUint16 (uint16 size)).

Definition rawAppendPacket (buf : buffer) (f : field) (data : bytes)
  : buffer * packet * bool :=
  let plen := 2 + 1 + len data in
  if maxPacketLen <? plen then (nil_buffer, zero_packet, false)
  else
    let s := mkPacket (int32 (blen buf)) (uint16 plen) 0 in
    let buf := appendSize buf plen in
    let buf := append buf [f] in
    let buf := append buf data in
    (buf, s, true).

(** ** Macaroons *)

Record Macaroon : Type :=
  mkMacaroon { data : buffer;
               location : packet;
               id : packet;
               caveats : packet;
               sig : bytes }.

(** [var m Macaroon] *)
Definition zero_Macaroon : Macaroon :=
  mkMacaroon nil_buffer zero_packet zero_packet zero_packet [].

Definition set_data (m : Macaroon) (d : buffer) : Macaroon :=
  mkMacaroon d (location m) (id m) (caveats m) (sig m).
Definition set_location (m : Macaroon) (p : packet) : Macaroon :=
  mkMacaroon (data m) p (id m) (caveats m) (sig m).
Definition set_id (m : Macaroon) (p : packet) : Macaroon :=
  mkMacaroon (data m) (location m) p (caveats m) (sig m).
Definition set_caveats (m : Macaroon) (p : packet) : Macaroon :=
  mkMacaroon (data m) (location m) (id m) p (sig m).
Definition set_sig (m : Macaroon) (s : bytes) : Macaroon :=
  mkMacaroon (data m) (location m) (id m) (caveats m) s.

(** [m.data[p.start+headerLen : p.start+int32(p.totalLen)]], in [int32]
    arithmetic. *)
Definition dataBytes (m : Macaroon) (p : packet) : result bytes :=
  if totalLen p =? 0 then Ok []
  else
    b <- slice2 (data m) (int32 (start p + headerLen))
                         (int32 (start p + int32 (totalLen p))) ;;
    Ok (elems b).

Definition dataStr (m : Macaroon) (p : packet) : result bytes := dataBytes m p.

Definition packetBytes (m : Macaroon) (p : packet) : result bytes :=
  b <- slice2 (data m) (start p) (int32 (start p + int32 (totalLen p))) ;;
  Ok (elems b).

Definition fieldNum (m : Macaroon) (p : packet) : result field :=
  if totalLen p =? 0 then Ok fieldInvalid
  else index (data m) (int32 (start p + 2)).

Definition parsePacket (m : Macaroon) (start : Z) : result packet :=
  data <- slice_from (data m) start ;;
  if blen data <? 6 then Err ErrPacketTooShort
  else
    plen <- parseSize (elems data) ;;
    if blen data <? plen then Err ErrPacketSizeTooBig
    else
      _ <- slice2 data 2 plen ;;
      Ok (mkPacket (int32 start) (uint16 plen) 0).

Definition appendPacket (m : Macaroon) (f : field) (data' : bytes)
  : Macaroon * packet * bool :=
  let '(mdata, p, ok) := rawAppendPacket (data m) f data' in
  if negb ok then (m, p, false)
  else (set_data m mdata, p, true).

Definition expectPacket (m : Macaroon) (start : Z) (kind : field)
  : result (Z * packet) :=
  p <- parsePacket m start ;;
  f <- fieldNum m p ;;
  if negb (Byte.eqb f kind) then Err (ErrUnexpectedField f kind)
  else Ok (start + packet_len p, p).

(** Modelled from the spec: [keyedHasher] and [keyedHash] are called by
    macaroon.go but declared in a file that is not among the sources; the
    keyed hash is HMAC-SHA-256, and the hasher is its streaming form, fed
    in chunks before it is finalised. *)
Definition keyedHasher (key : bytes) : Hash := hmac_New_sha256 key.

Definition keyedHash (key text : bytes) : bytes :=
  Sum (Write (keyedHasher key) text) [].

(** The signature [verify] recomputes: the keyed hash of the identifier,
    chained once over the payload of the caveats packet. *)
Definition chain (rootKey idb cav : bytes) : bytes :=
  Hmac.sum (Hmac.sum rootKey idb) cav.

(** *** The caveat payload serialiser (reflection over a struct of pointers) *)

Inductive govalue : Type :=
| VInt (z : Z) | VUint (z : Z)
| VByteSlice (b : bytes) | VOtherSlice
| VString (s : bytes)
| VInt8 (z : Z) | VInt16 (z : Z) | VInt32 (z : Z) | VInt64 (z : Z)
| VUint8 (z : Z) | VUint16 (z : Z) | VUint32 (z : Z) | VUint64 (z : Z)
| VBool (b : bool)
| VOther.

Inductive gofield : Type :=
| FieldNilPtr
| FieldPtr (v : govalue)
| FieldNonPtr.

Definition gostruct := list gofield.

(** [binary.Write(buf, binary.LittleEndian, x)] for an integer of [n] bytes. *)
Fixpoint le_bytes (n : nat) (z : Z) : bytes :=
  match n with
  | O => []
  | S n' => byte_of_Z z :: le_bytes n' (Z.shiftr z 8)
  end.

Definition valToBytes (val : govalue) : result bytes :=
  match val with
  | VInt _ | VUint _ => Panic
  | VByteSlice b => Ok b
  | VOtherSlice => Panic
  | VString s => Ok s
  | VInt8 z | VUint8 z => Ok (le_bytes 1 z)
  | VInt16 z | VUint16 z => Ok (le_bytes 2 z)
  | VInt32 z | VUint32 z => Ok (le_bytes 4 z)
  | VInt64 z | VUint64 z => Ok (le_bytes 8 z)
  | VBool true => Ok [x01]
  | VBool false => Ok [x00]
  | VOther => Panic
  end.

Fixpoint MarshalCaveats_from (i : Z) (fields : gostruct) (out : bytes)
  : result bytes :=
  match fields with
  | [] => Ok out
  | FieldNilPtr :: rest => MarshalCaveats_from (i + 1) rest out
  | FieldPtr val :: rest =>
      data <- valToBytes val ;;
      MarshalCaveats_from (i + 1) rest
        (out ++ [byte_of_Z i] ++ [byte_of_Z (len data)] ++ data)
  | FieldNonPtr :: _ => Panic
  end.

Definition MarshalCaveats (v : gostruct) : result bytes :=
  MarshalCaveats_from 0 v [].

(** *** macaroon.go *)

Definition init (m : Macaroon) (id' loc : bytes) : Macaroon * option error :=
  let '(m, p, ok) := appendPacket m fieldLocation loc in
  let m := set_location m p in
  if negb ok then (m, Some ErrLocationTooBig)
  else
    let '(m, p, ok) := appendPacket m fieldIdentifier id' in
    let m := set_id m p in
    if negb ok then (m, Some ErrIdentifierTooBig)
    else (m, None).

Definition New (rootKey id' loc : bytes) : result Macaroon :=
  let '(m, err) := init zero_Macaroon id' loc in
  match err with
  | Some e => Err e
  | None =>
      idb <- dataBytes m (id m) ;;
      Ok (set_sig m (keyedHash rootKey idb))
  end.

Definition Location (m : Macaroon) : result bytes := dataStr m (location m).
Definition Id (m : Macaroon) : result bytes := dataStr m (id m).
Definition caveatsRaw (m : Macaroon) : result bytes := dataBytes m (caveats m).
Definition Signature (m : Macaroon) : bytes := [] ++ sig m.

(** The receiver after the call, and what the call returned. *)
Definition SetCaveats (m : Macaroon) (v : gostruct) : Macaroon * result unit :=
  match MarshalCaveats v with
  | Ok cavData =>
      let '(m, p, ok) := appendPacket m fieldCaveat cavData in
      let m := set_caveats m p in
      if ok then
        let h := keyedHasher (sig m) in
        let h := Write h cavData in
        (set_sig m (Sum h (firstn 0 (sig m))), Ok tt)
      else (m, Err ErrCaveatTooBig)
  | Err e => (m, Err e)
  | Panic => (m, Panic)
  end.

Definition bindForRequest (rootSig dischargeSig : bytes) : bytes :=
  if bytes_Equal rootSig dischargeSig then rootSig
  else
    let h := sha256_New in
    let h := Write h rootSig in
    let h := Write h dischargeSig in
    Sum h [].

Definition Bind (m : Macaroon) (sig' : bytes) : Macaroon :=
  set_sig m (bindForRequest sig' (sig m)).

Definition verify (m : Macaroon) (rootSig rootKey : bytes) : result unit :=
  let rootSig := if len rootSig =? 0 then sig m else rootSig in
  idb <- dataBytes m (id m) ;;
  let caveatSig := keyedHash rootKey idb in
  let h := keyedHasher caveatSig in
  cav <- dataBytes m (caveats m) ;;
  let h := Write h cav in
  let caveatSig := Sum h (firstn 0 caveatSig) in
  let boundSig := bindForRequest rootSig caveatSig in
  if negb (hmac_Equal boundSig (sig m)) then Err ErrSignatureMismatch
  else Ok tt.

Definition Verify (m : Macaroon) (rootKey : bytes) : result unit :=
  match verify m (sig m) rootKey with
  | Ok _ => Ok tt
  | Err e => Err e
  | Panic => Panic
  end.

(** *** Binary marshalling *)

Definition marshalBinaryLen (m : Macaroon) : Z :=
  blen (data m) + packetSize (sig m).

Definition appendBinary (m : Macaroon) (d : buffer) : result buffer :=
  let d := append d (elems (data m)) in
  let '(d, _, ok) := rawAppendPacket d fieldSignature (sig m) in
  if negb ok then Err ErrAppendSignature else Ok d.

Definition MarshalBinary (m : Macaroon) : result bytes :=
  d <- appendBinary m (make0 (marshalBinaryLen m)) ;;
  Ok (elems d).

Definition unmarshalBinaryNoCopy (m : Macaroon) (d : buffer)
  : Macaroon * result unit :=
  let m := set_data m d in
  match expectPacket m 0 fieldLocation with
  | Panic => (m, Panic)
  | Err e => (set_location m zero_packet, Err e)
  | Ok (start, p) =>
      let m := set_location m p in
      match expectPacket m start fieldIdentifier with
      | Panic => (m, Panic)
      | Err e => (set_id m zero_packet, Err e)
      | Ok (start, p) =>
          let m := set_id m p in
          match expectPacket m start fieldCaveat with
          | Panic => (m, Panic)
          | Err e => (set_caveats m zero_packet, Err e)
          | Ok (start, p) => (set_caveats m p, Ok tt)
          end
      end
  end.

Definition UnmarshalBinary (m : Macaroon) (d : bytes) : Macaroon * result unit :=
  unmarshalBinaryNoCopy m (append nil_buffer d).

Definition Slice := list Macaroon.

Fixpoint Slice_appendAll (s : Slice) (d : buffer) : result buffer :=
  match s with
  | [] => Ok d
  | m :: rest =>
      match appendBinary m d with
      | Ok d => Slice_appendAll rest d
      | Err e => i <- Id m ;; Err (ErrMarshalMacaroon i e)
      | Panic => Panic
      end
  end.

Definition Slice_MarshalBinary (s : Slice) : result bytes :=
  let size := fold_left (fun n m => n + marshalBinaryLen m) s 0 in
  d <- Slice_appendAll s (make0 size) ;;
  Ok (elems d).

(** The loop [for len(data) > 0]; a round that continues consumes at least
    three bytes, so [fuel] above the length of the input is never used up. *)
Fixpoint Slice_UnmarshalBinary_loop (fuel : nat) (s : Slice) (d : buffer)
  : result Slice :=
  if 0 <? blen d then
    match fuel with
    | O => Ok s
    | S fuel' =>
        match unmarshalBinaryNoCopy zero_Macaroon d with
        | (_, Panic) => Panic
        | (_, Err e) => Err (ErrCannotUnmarshal e)
        | (m, Ok _) =>
            md <- slice3 (data m) 0 (blen (data m)) (marshalBinaryLen m) ;;
            let m := set_data m md in
            d <- slice_from d (marshalBinaryLen m) ;;
            Slice_UnmarshalBinary_loop fuel' (s ++ [m]) d
        end
    end
  else Ok s.

Definition Slice_UnmarshalBinary (s : Slice) (d : bytes) : result Slice :=
  let d := append nil_buffer d in
  Slice_UnmarshalBinary_loop (S (length (elems d))) (firstn 0 s) d.

(** *** JSON marshalling, from the decoded [macaroonJSON] on: [MarshalJSON]
    returns the record it hands to [json.Marshal], [UnmarshalJSON] takes
    the record [json.Unmarshal] filled.  What the text in between does to
    the strings is [json_transport] below. *)

Record macaroonJSON : Type :=
  mkJSON { Caveats : bytes; JLocation : bytes;
           Identifier : bytes; JSignature : bytes }.

Definition fromHexChar (c : byte) : option N :=
  let n := Byte.to_N c in
  if (48 <=? n)%N && (n <=? 57)%N then Some (n - 48)%N
  else if (97 <=? n)%N && (n <=? 102)%N then Some (n - 97 + 10)%N
  else if (65 <=? n)%N && (n <=? 70)%N then Some (n - 65 + 10)%N
  else None.

(** [hex.DecodeString]: the bytes decoded so far come back with the error. *)
Fixpoint hex_Decode (src acc : bytes) : bytes * option error :=
  match src with
  | [] => (acc, None)
  | [p] =>
      match fromHexChar p with
      | None => (acc, Some (ErrHexInvalidByte p))
      | Some _ => (acc, Some ErrHexLength)
      end
  | p :: q :: rest =>
      match fromHexChar p, fromHexChar q with
      | None, _ => (acc, Some (ErrHexInvalidByte p))
      | Some _, None => (acc, Some (ErrHexInvalidByte q))
      | Some a, Some b =>
          hex_Decode rest (acc ++ [byte_of_N (N.lor (N.shiftl a 4) b)])
      end
  end.

Definition hex_DecodeString (s : bytes) : bytes * option error := hex_Decode s [].

Definition MarshalJSON (m : Macaroon) : result macaroonJSON :=
  loc <- Location m ;;
  i <- dataStr m (id m) ;;
  cav <- caveatsRaw m ;;
  Ok (mkJSON (hex_EncodeToString cav) loc i (hex_EncodeToString (sig m))).

Definition UnmarshalJSON (m : Macaroon) (mjson : macaroonJSON)
  : Macaroon * result unit :=
  let '(m, err) := init m (Identifier mjson) (JLocation mjson) in
  match err with
  | Some e => (m, Err e)
  | None =>
      let '(s, err) := hex_DecodeString (JSignature mjson) in
      let m := set_sig m s in
      match err with
      | Some e => (m, Err (ErrDecodeSignature e))
      | None =>
          let '(cavData, err) := hex_DecodeString (Caveats mjson) in
          match err with
          | Some e => (m, Err (ErrDecodeCaveats e))
          | None =>
              let '(m, p, ok) := appendPacket m fieldCaveat cavData in
              let m := set_caveats m p in
              if negb ok then (m, Err ErrDecodeCaveatsTooBig)
              else (m, Ok tt)
          end
      end
  end.

(** *** Reachable states *)

(** The states a macaroon goes through under [New], [SetCaveats] (whatever
    it returns) and [Bind]. *)
Inductive reachable : Macaroon -> Prop :=
| reach_New (rootKey id' loc : bytes) (m : Macaroon) :
    New rootKey id' loc = Ok m -> reachable m
| reach_SetCaveats (m m' : Macaroon) (v : gostruct) (r : result unit) :
    reachable m -> SetCaveats m v = (m', r) -> reachable m'
| reach_Bind (m : Macaroon) (s : bytes) :
    reachable m -> reachable (Bind m s).

End GoRuntime.

(** ** The sibling unmarshalling code (marshal.go)

    marshal.go holds another version of the binary unmarshalling, for a
    macaroon whose caveats are a list of packet triples; it runs over the
    same packet codec, which reads [m.data] only. *)

Definition codec_view (d : buffer) : Macaroon :=
  mkMacaroon d zero_packet zero_packet zero_packet [].

Module Legacy.

Definition fieldCaveatId : field := x04.
Definition fieldVerificationId : field := x05.
Definition fieldCaveatLocation : field := x06.

Record caveat : Type :=
  mkCaveat { cav_location : packet; caveatId : packet; verificationId : packet }.

Definition zero_caveat : caveat := mkCaveat zero_packet zero_packet zero_packet.

Record Macaroon : Type :=
  mkMacaroon { data : buffer;
               location : packet;
               id : packet;
               caveats : list caveat;
               sig : bytes }.

Definition zero_Macaroon : Macaroon :=
  mkMacaroon nil_buffer zero_packet zero_packet [] [].

Definition set_data (m : Macaroon) (d : buffer) : Macaroon :=
  mkMacaroon d (location m) (id m) (caveats m) (sig m).
Definition set_location (m : Macaroon) (p : packet) : Macaroon :=
  mkMacaroon (data m) p (id m) (caveats m) (sig m).
Definition set_id (m : Macaroon) (p : packet) : Macaroon :=
  mkMacaroon (data m) (location m) p (caveats m) (sig m).
Definition add_caveat (m : Macaroon) (c : caveat) : Macaroon :=
  mkMacaroon (data m) (location m) (id m) (caveats m ++ [c]) (sig m).
Definition set_sig (m : Macaroon) (s : bytes) : Macaroon :=
  mkMacaroon (data m) (location m) (id m) (caveats m) s.

(** The loop [for { ... }] over the packets after the identifier; [None]
    when [fuel] rounds were not enough. *)
Fixpoint unmarshal_packets (fuel : nat) (m : Macaroon) (pos : Z) (cav : caveat)
  : option (Macaroon * result unit) :=
  match fuel with
  | O => None
  | S fuel' =>
      match parsePacket (codec_view (data m)) pos with
      | Panic => Some (m, Panic)
      | Err e => Some (m, Err e)
      | Ok p =>
          let pos := pos + packet_len p in
          match fieldNum (codec_view (data m)) p with
          | Panic => Some (m, Panic)
          | Err e => Some (m, Err e)
          | Ok f =>
              if Byte.eqb f fieldSignature then
                let m := if negb (packet_len (caveatId cav) =? 0)
                         then add_caveat m cav else m in
                match slice2 (data m) 0 (start p) with
                | Ok d =>
                    let m := set_data m d in
                    match dataBytes (codec_view (data m)) p with
                    | Ok s => Some (set_sig m ([] ++ s), Ok tt)
                    | Err e => Some (m, Err e)
                    | Panic => Some (m, Panic)
                    end
                | Err e => Some (m, Err e)
                | Panic => Some (m, Panic)
                end
              else if Byte.eqb f fieldCaveatId then
                let m := if negb (packet_len (caveatId cav) =? 0)
                         then add_caveat m cav else m in
                unmarshal_packets fuel' m pos
                  (mkCaveat (cav_location cav) p (verificationId cav))
              else if Byte.eqb f fieldVerificationId then
                if negb (packet_len (verificationId cav) =? 0)
                then Some (m, Err (ErrRepeatedField fieldVerificationId))
                else unmarshal_packets fuel' m pos
                       (mkCaveat (cav_location cav) (caveatId cav) p)
              else if Byte.eqb f fieldCaveatLocation then
                if negb (packet_len (cav_location cav) =? 0)
                then Some (m, Err (ErrRepeatedField fieldLocation))
                else unmarshal_packets fuel' m pos
                       (mkCaveat p (caveatId cav) (verificationId cav))
              else Some (m, Err (ErrUnexpectedFieldNumber f))
          end
      end
  end.

Definition unmarshalBinaryNoCopy (m : Macaroon) (d : buffer)
  : option (Macaroon * result unit) :=
  let m := set_data m d in
  match expectPacket (codec_view (data m)) 0 fieldLocation with
  | Panic => Some (m, Panic)
  | Err e => Some (set_location m zero_packet, Err e)
  | Ok (start, p) =>
      let m := set_location m p in
      match expectPacket (codec_view (data m)) start fieldIdentifier with
      | Panic => Some (m, Panic)
      | Err e => Some (set_id m zero_packet, Err e)
      | Ok (start, p) =>
          unmarshal_packets (S (length (elems d))) (set_id m p) start zero_caveat
      end
  end.

Definition marshalBinaryLen (m : Macaroon) : Z :=
  blen (data m) + packetSize (sig m).

(** The loop of [Slice.UnmarshalBinary], over a copy [d] of the input. *)
Fixpoint Slice_UnmarshalBinary_loop (fuel : nat) (s : list Macaroon) (d : buffer)
  : option (result (list Macaroon)) :=
  if 0 <? blen d then
    match fuel with
    | O => None
    | S fuel' =>
        match unmarshalBinaryNoCopy zero_Macaroon d with
        | None => None
        | Some (_, Panic) => Some Panic
        | Some (_, Err e) => Some (Err (ErrCannotUnmarshal e))
        | Some (m, Ok _) =>
            match slice3 (data m) 0 (blen (data m)) (marshalBinaryLen m) with
            | Ok md =>
                let m := set_data m md in
                match slice_from d (marshalBinaryLen m) with
                | Ok d => Slice_UnmarshalBinary_loop fuel' (s ++ [m]) d
                | Err e => Some (Err e)
                | Panic => Some Panic
                end
            | Err e => Some (Err e)
            | Panic => Some Panic
            end
        end
    end
  else Some (Ok s).

Definition UnmarshalBinary (growslice : Z -> Z -> nat) (m : Macaroon) (d : bytes)
  : option (Macaroon * result unit) :=
  unmarshalBinaryNoCopy m (append growslice nil_buffer d).

Definition Slice_UnmarshalBinary
  (growslice : Z -> Z -> nat) (s : list Macaroon) (d : bytes)
  : option (result (list Macaroon)) :=
  let d := append growslice nil_buffer d in
  Slice_UnmarshalBinary_loop (S (length (elems d))) (firstn 0 s) d.

End Legacy.

(** The least capacity a reallocating [append] may give. *)
Definition exact_fit (_ _ : Z) : nat := 0%nat.

(** * The verifier with discharges

    Modelled from the spec: the tests of the package call
    [Verify(rootKey, check, discharges)] and construct third-party caveats,
    but the verifier that takes a condition checker and discharge macaroons
    is not among the source files ([Verify] of macaroon.go takes the root
    key only).  What follows is section 4.5 of the design document, step by
    step, over the macaroon of its section 3: an identifier, an ordered
    list of caveats and a signature.  The condition checker, the
    authenticated decryption and the fixed context constant are parameters;
    the keyed hash, its incremental form and [bind_for_request] are the ones
    used for the code. *)
Module SpecVerifier.

Record Caveat : Type :=
  mkCaveat { caveatId : bytes; verificationId : bytes; cav_location : bytes }.

Record SpecMacaroon : Type :=
  mkSpecMacaroon { location : bytes;
                   id : bytes;
                   caveats : list Caveat;
                   signature : bytes }.

(** The errors of section 4.5; the checker's error is passed on as it is. *)
Inductive verror (E : Type) : Type :=
| CheckerFailed (e : E)
| CannotFindDischarge (caveat_id : bytes)
| UsedMoreThanOnce (discharge_id : bytes)
| NotUsed (discharge_id : bytes)
| DecryptionFailed
| SignatureMismatch.
Arguments CheckerFailed {E} e.
Arguments CannotFindDischarge {E} caveat_id.
Arguments UsedMoreThanOnce {E} discharge_id.
Arguments NotUsed {E} discharge_id.
Arguments DecryptionFailed {E}.
Arguments SignatureMismatch {E}.

Inductive vresult (E A : Type) : Type :=
| VOk (a : A)
| VErr (e : verror E).
Arguments VOk {E A} a.
Arguments VErr {E A} e.

(** [keyed_hash_incremental(caveatSig, verificationId, caveatId)]: two
    writes to the incremental hasher, one chaining step. *)
Definition keyed_hash_incremental (caveatSig vid cid : bytes) : bytes :=
  Sum (Write (Write (keyedHasher caveatSig) vid) cid) [].

(** The first entry of [discharges] whose [id] equals the caveat's
    [caveatId], whether used or not, with its position (counted from [i]). *)
Fixpoint find_discharge (cid : bytes) (discharges : list SpecMacaroon) (i : nat)
  : option (nat * SpecMacaroon) :=
  match discharges with
  | [] => None
  | d :: rest =>
      if bytes_Equal (id d) cid then Some (i, d)
      else find_discharge cid rest (S i)
  end.

(** Marking the entry at a position used. *)
Fixpoint mark (i : nat) (used : list bool) : list bool :=
  match used, i with
  | [], _ => []
  | _ :: rest, O => true :: rest
  | u :: rest, S i' => u :: mark i' rest
  end.

(** Step 3: the first entry never marked used. *)
Fixpoint first_unused (discharges : list SpecMacaroon) (used : list bool)
  : option SpecMacaroon :=
  match discharges, used with
  | d :: ds, u :: us => if u then first_unused ds us else Some d
  | _, _ => None
  end.


Section Verifier.

Variable E : Type.
Variable conditionChecker : bytes -> option E.
Variable authenticated_decrypt : bytes -> bytes -> option bytes.
Variable fixed_context_constant : bytes.
Variable discharges : list SpecMacaroon.

(** The treatment of one caveat in step 2; [verify_discharge] is the
    recursive call [verify_node(dischargeMacaroon, boundRootSignature,
    dischargeKey)], and [None] is its running out of rounds. *)
Definition verify_caveat
  (verify_discharge : SpecMacaroon -> bytes -> list bool
                      -> option (vresult E (list bool)))
  (c : Caveat) (caveatSig : bytes) (used : list bool)
  : option (vresult E (bytes * list bool)) :=
  let next :=
    keyed_hash_incremental caveatSig (verificationId c) (caveatId c) in
  match verificationId c with
  | [] =>
      match conditionChecker (caveatId c) with
      | Some e => Some (VErr (CheckerFailed e))
      | None => Some (VOk (next, used))
      end
  | _ :: _ =>
      match find_discharge (caveatId c) discharges 0 with
      | None => Some (VErr (CannotFindDischarge (caveatId c)))
      | Some (i, d) =>
          if nth i used false then Some (VErr (UsedMoreThanOnce (id d)))
          else
            let used := mark i used in
            match authenticated_decrypt
                    (keyedHash caveatSig fixed_context_constant)
                    (verificationId c) with
            | None => Some (VErr DecryptionFailed)
            | Some dischargeKey =>
                match verify_discharge d dischargeKey used with
                | None => None
                | Some (VErr e) => Some (VErr e)
                | Some (VOk used) => Some (VOk (next, used))
                end
            end
      end
  end.

(** "For each caveat in append order". *)
Fixpoint verify_caveats
  (verify_discharge : SpecMacaroon -> bytes -> list bool
                      -> option (vresult E (list bool)))
  (cs : list Caveat) (caveatSig : bytes) (used : list bool)
  : option (vresult E (bytes * list bool)) :=
  match cs with
  | [] => Some (VOk (caveatSig, used))
  | c :: rest =>
      match verify_caveat verify_discharge c caveatSig used with
      | None => None
      | Some (VErr e) => Some (VErr e)
      | Some (VOk (caveatSig, used)) =>
          verify_caveats verify_discharge rest caveatSig used
      end
  end.

(** [verify_node(macaroon, boundRootSignature, key)], with the markers
    threaded through; [fuel] bounds the depth of the recursion. *)
Fixpoint verify_node
  (fuel : nat) (m : SpecMacaroon) (boundRootSignature key : bytes)
  (used : list bool) : option (vresult E (list bool)) :=
  match fuel with
  | O => None
  | S fuel' =>
      match verify_caveats
              (fun d dischargeKey used =>
                 verify_node fuel' d boundRootSignature dischargeKey used)
              (caveats m) (keyedHash key (id m)) used with
      | None => None
      | Some (VErr e) => Some (VErr e)
      | Some (VOk (caveatSig, used)) =>
          if hmac_Equal (bindForRequest boundRootSignature caveatSig)
                        (signature m)
          then Some (VOk used)
          else Some (VErr SignatureMismatch)
      end
  end.

(** The top-level call of step 2: all markers false, the primary's own
    signature as the root signature.  Every nested call consumes a
    discharge, so one round more than there are discharges is enough. *)
Definition verify_top (primary : SpecMacaroon) (rootKey : bytes)
  : option (vresult E (list bool)) :=
  verify_node (S (length discharges)) primary (signature primary) rootKey
    (repeat false (length discharges)).

(** [verify(primary, rootKey, conditionChecker, discharges)]. *)
Definition verify (primary : SpecMacaroon) (rootKey : bytes)
  : option (vresult E unit) :=
  match verify_top primary rootKey with
  | None => None
  | Some (VErr e) => Some (VErr e)
  | Some (VOk used) =>
      match first_unused discharges used with
      | Some d => Some (VErr (NotUsed (id d)))
      | None => Some (VOk tt)
      end
  end.

End Verifier.






End SpecVerifier.

(** * Worked inputs *)

(** The macaroons of the package's tests: root key "secret", identifier
    "some id", location "a location", and a caveat record holding the text
    "a caveat". *)
Module Example.
Import Strings.String.

Definition text (s : string) : bytes := list_byte_of_string s.

Definition rootKey : bytes := text "secret".
Definition ident : bytes := text "some id".
Definition loc : bytes := text "a location".
Definition record : gostruct := [FieldPtr (VString (text "a caveat"))].
Definition cavData : bytes :=
  Eval vm_compute in [x00; x08] ++ text "a caveat".

(** [New(rootKey, ident, loc)] *)
Definition fresh : Macaroon :=
  Eval vm_compute in
    match New exact_fit rootKey ident loc with
    | Ok m => m
    | _ => zero_Macaroon
    end.

(** [fresh] after [SetCaveats(record)] *)
Definition attenuated : Macaroon :=
  Eval vm_compute in fst (SetCaveats exact_fit fresh record).

Definition other_id : bytes := text "some other id".

(** A second macaroon, for slices. *)
Definition other : Macaroon :=
  Eval vm_compute in
    match New exact_fit rootKey other_id
                        (text "another location") with
    | Ok m => fst (SetCaveats exact_fit m record)
    | _ => zero_Macaroon
    end.

(** Known answers: FIPS 180-2 ("abc") and RFC 4231, test case 2. *)
Definition abc : bytes := text "abc".
Definition abc_sha256 : bytes :=
  text "ba7816bf8f01cfea414140de5dae2223b00361a396177a9cb410ff61f20015ad".
Definition jefe : bytes := text "Jefe".
Definition jefe_msg : bytes := text "what do ya want for nothing?".
Definition jefe_hmac : bytes :=
  text "5bdcc146bf60754e6a042426089575c75a003f089d2739839dec58b964ec3843".

(** [attenuated] after a second [SetCaveats(record)] *)
Definition twice : Macaroon :=
  Eval vm_compute in fst (SetCaveats exact_fit attenuated record).

(** A buffer of six bytes whose first two declare a packet of length 0. *)
Definition short_length : bytes := [x00; x00; x01; x00; x00; x00].

Definition json : macaroonJSON := mkJSON [] loc ident (text "00").
End Example.

(** * Further code of the package *)

(** [Clone]: a copy of the struct whose buffer is capped at its length and
    whose signature is copied. *)
Definition Clone (m : Macaroon) : result Macaroon :=
  md <- slice3 (data m) 0 (blen (data m)) (blen (data m)) ;;
  Ok (mkMacaroon md (location m) (id m) (caveats m) ([] ++ sig m)).

(** A packet whose payload range, as [dataBytes] computes it, lies in the
    visible part of the buffer [b] (or which is the absent packet). *)
Definition within (b : buffer) (p : packet) : Prop :=
  totalLen p = 0
  \/ (0 <= int32 (start p + headerLen)
      /\ int32 (start p + headerLen) <= int32 (start p + int32 (totalLen p))
      /\ int32 (start p + int32 (totalLen p)) <= blen b).

(** A packet that is absent, or that lies with its 3-byte header inside the
    visible part of the buffer [b]. *)
Definition inside (b : buffer) (p : packet) : Prop :=
  totalLen p = 0
  \/ (0 <= start p /\ 3 <= totalLen p <= 65535
      /\ start p + totalLen p <= blen b).

(** ** The caveat payload parser (reflection over a pointer to a struct) *)

(** The kinds [bytesToVal] switches on. [[]byte] and the other slice types
    share the kind [reflect.Slice]; they are kept apart because [Set] and
    [Bytes] tell them apart. *)
Inductive gokind : Type :=
| KInt | KUint | KByteSlice | KOtherSlice | KString
| KInt8 | KInt16 | KInt32 | KInt64 | KUint8 | KUint16 | KUint32 | KUint64
| KBool | KOther.

(** The static type of a struct field, as far as [reflect] distinguishes
    here: a pointer to [[]byte], to a predeclared type or to a type of
    another kind; a pointer to a defined type of some kind; an array, chan,
    map or slice (the other types on which [Type.Elem] is defined); any
    other type. *)
Inductive gotype : Type :=
| PtrTo (k : gokind)
| PtrToDefined (k : gokind)
| ContainerOf (k : gokind)
| Plain.

(** A field of the struct [v] points to: its type, whether its name is
    exported, and its current value. *)
Record gofielddecl : Type :=
  mkField { ftype : gotype; exported : bool; fvalue : gofield }.

Definition gostructptr := list gofielddecl.

(** The struct as [MarshalCaveats] sees it. *)
Definition fields_of (v : gostructptr) : gostruct := map fvalue v.

(** [errors.New("can not decode input data")],
    [errors.New("unknown field type")], and the [io.EOF] and
    [io.ErrUnexpectedEOF] that [binary.Read] passes on. *)
Inductive decode_error : Type :=
| ErrCannotDecodeInput | ErrUnknownFieldType | EOF | ErrUnexpectedEOF.

Inductive decoded (A : Type) : Type :=
| Decoded (a : A)
| DecodeErr (e : decode_error)
| DecodePanic.
Arguments Decoded {A} a.
Arguments DecodeErr {A} e.
Arguments DecodePanic {A}.

(** The unsigned little-endian value of a byte sequence, and its reading as
    a two's complement number of [bits] bits. *)
Fixpoint le_uint (b : bytes) : Z :=
  match b with
  | [] => 0
  | x :: rest => byte_to_Z x + 256 * le_uint rest
  end.

Definition to_signed (bits z : Z) : Z :=
  if z <? 2 ^ (bits - 1) then z else z - 2 ^ bits.

(** [binary.Read(bytes.NewReader(data), binary.LittleEndian, &n)] for an
    integer [n] of [size] bytes: [io.ReadFull] of [size] bytes, then the
    little-endian value; bytes after the first [size] are not looked at. *)
Definition binary_Read (size : nat) (data : bytes) : decoded Z :=
  if len data =? 0 then DecodeErr EOF
  else if len data <? Z.of_nat size then DecodeErr ErrUnexpectedEOF
  else Decoded (le_uint (firstn size data)).

(** [val.Elem().Kind()] on a [reflect.Type]; [Elem] panics on a type that
    is not an array, chan, map, pointer or slice. *)
Definition elem_kind (t : gotype) : option gokind :=
  match t with
  | PtrTo k | PtrToDefined k | ContainerOf k => Some k
  | Plain => None
  end.

Definition read_int (size : nat) (mk : Z -> govalue) (data : bytes)
  : decoded govalue :=
  match binary_Read size data with
  | Decoded n => Decoded (mk n)
  | DecodeErr e => DecodeErr e
  | DecodePanic => DecodePanic
  end.

(** The value is the one the returned pointer points to. *)
Definition bytesToVal (val : gotype) (data : bytes) : decoded govalue :=
  match elem_kind val with
  | None => DecodePanic
  | Some k =>
      match k with
      | KInt | KUint => DecodePanic
      | KByteSlice | KOtherSlice => Decoded (VByteSlice data)
      | KString => Decoded (VString data)
      | KBool =>
          match data with
          | [] => DecodePanic
          | b :: _ =>
              if byte_to_Z b =? 1 then Decoded (VBool true)
              else if byte_to_Z b =? 0 then Decoded (VBool false)
              else DecodeErr ErrCannotDecodeInput
          end
      | KInt8 => read_int 1 (fun n => VInt8 (to_signed 8 n)) data
      | KInt16 => read_int 2 (fun n => VInt16 (to_signed 16 n)) data
      | KInt32 => read_int 4 (fun n => VInt32 (to_signed 32 n)) data
      | KInt64 => read_int 8 (fun n => VInt64 (to_signed 64 n)) data
      | KUint8 => read_int 1 VUint8 data
      | KUint16 => read_int 2 VUint16 data
      | KUint32 => read_int 4 VUint32 data
      | KUint64 => read_int 8 VUint64 data
      | KOther => DecodeErr ErrUnknownFieldType
      end
  end.

(** Whether the [*T] that [bytesToVal] returns for the element kind of the
    field type is assignable to the field type: only to the very pointer
    type [*[]byte], [*string], [*bool], [*int8], ... *)
Definition assignable (t : gotype) : bool :=
  match t with
  | PtrTo (KByteSlice | KString | KBool
           | KInt8 | KInt16 | KInt32 | KInt64
           | KUint8 | KUint16 | KUint32 | KUint64) => true
  | _ => false
  end.

Fixpoint set_nth {A} (n : nat) (x : A) (l : list A) : list A :=
  match l, n with
  | [], _ => []
  | _ :: rest, O => x :: rest
  | y :: rest, S n' => y :: set_nth n' x rest
  end.

(** [obj.Field(i).Set(value)]: [Set] panics on a field that is not exported
    and on a value that is not assignable to the field's type. *)
Definition Field_Set (obj : gostructptr) (i : nat) (value : govalue)
  : option gostructptr :=
  match nth_error obj i with
  | Some f =>
      if exported f && assignable (ftype f)
      then Some (set_nth i (mkField (ftype f) (exported f) (FieldPtr value))
                   obj)
      else None
  | None => None
  end.

(** The loop of [UnMarshalCaveats] from [cursor] on; the struct is the one
    the caller's pointer refers to, so it is returned with the fields set
    so far also when the call fails. *)
Fixpoint UnMarshalCaveats_from
  (fuel : nat) (obj : gostructptr) (data : buffer) (cursor : Z)
  : option (gostructptr * decoded unit) :=
  match fuel with
  | O => None
  | S fuel' =>
      if cursor <? blen data then
        match index data cursor, index data (cursor + 1) with
        | Ok fieldNum, Ok dataSize =>
            match slice2 data (cursor + 2)
                    (cursor + 2 + byte_to_Z dataSize) with
            | Ok fieldData =>
                match nth_error obj (Z.to_nat (byte_to_Z fieldNum)) with
                | Some f =>
                    match bytesToVal (ftype f) (elems fieldData) with
                    | Decoded value =>
                        match Field_Set obj (Z.to_nat (byte_to_Z fieldNum))
                                value with
                        | Some obj' =>
                            UnMarshalCaveats_from fuel' obj' data
                              (cursor + 2 + byte_to_Z dataSize)
                        | None => Some (obj, DecodePanic)
                        end
                    | DecodeErr e => Some (obj, DecodeErr e)
                    | DecodePanic => Some (obj, DecodePanic)
                    end
                | None => Some (obj, DecodePanic)
                end
            | _ => Some (obj, DecodePanic)
            end
        | _, _ => Some (obj, DecodePanic)
        end
      else Some (obj, Decoded tt)
  end.

(** Every round moves the cursor on by two bytes at least, so one round more
    than the payload has bytes is enough. *)
Definition UnMarshalCaveats (v : gostructptr) (data : buffer)
  : option (gostructptr * decoded unit) :=
  UnMarshalCaveats_from (S (length (elems data))) v data 0.

(** The slice [dataBytes] returns, with the capacity it has: the slice
    expressions of [UnMarshalCaveats] are bounded by the capacity. *)
Definition dataBytes_slice (m : Macaroon) (p : packet) : result buffer :=
  if totalLen p =? 0 then Ok nil_buffer
  else slice2 (data m) (int32 (start p + headerLen))
                       (int32 (start p + int32 (totalLen p))).

Definition GetCaveats (m : Macaroon) (v : gostructptr)
  : option (gostructptr * decoded unit) :=
  match dataBytes_slice m (caveats m) with
  | Ok raw => UnMarshalCaveats v raw
  | _ => Some (v, DecodePanic)
  end.

(** *** Records that survive the round trip through the caveat payload *)

(** The value [v] is one a pointer to the kind [k] can point to; a byte
    slice or string has a length that the one length byte can hold. *)
Definition in_range (v : govalue) (k : gokind) : bool :=
  match v, k with
  | VByteSlice b, KByteSlice => len b <=? 255
  | VString s, KString => len s <=? 255
  | VBool _, KBool => true
  | VInt8 z, KInt8 => (- 2 ^ 7 <=? z) && (z <? 2 ^ 7)
  | VInt16 z, KInt16 => (- 2 ^ 15 <=? z) && (z <? 2 ^ 15)
  | VInt32 z, KInt32 => (- 2 ^ 31 <=? z) && (z <? 2 ^ 31)
  | VInt64 z, KInt64 => (- 2 ^ 63 <=? z) && (z <? 2 ^ 63)
  | VUint8 z, KUint8 => (0 <=? z) && (z <? 2 ^ 8)
  | VUint16 z, KUint16 => (0 <=? z) && (z <? 2 ^ 16)
  | VUint32 z, KUint32 => (0 <=? z) && (z <? 2 ^ 32)
  | VUint64 z, KUint64 => (0 <=? z) && (z <? 2 ^ 64)
  | _, _ => false
  end.

(** The field value [x] of the marshalled struct can be stored in the
    field [f] of the struct decoded into. *)
Definition fits (x : gofield) (f : gofielddecl) : bool :=
  match x with
  | FieldNilPtr => true
  | FieldPtr v =>
      exported f
      && match ftype f with PtrTo k => in_range v k | _ => false end
  | FieldNonPtr => false
  end.

Fixpoint all_fit (vs : gostruct) (obj : gostructptr) : bool :=
  match vs, obj with
  | [], [] => true
  | x :: vs', f :: obj' => fits x f && all_fit vs' obj'
  | _, _ => false
  end.

(** The struct [obj] with the non-nil fields of [vs] stored in it. *)
Fixpoint store (vs : gostruct) (obj : gostructptr) : gostructptr :=
  match vs, obj with
  | x :: vs', f :: obj' =>
      match x with
      | FieldPtr v => mkField (ftype f) (exported f) (FieldPtr v)
      | _ => f
      end :: store vs' obj'
  | _, _ => []
  end.

(** The payload records of the non-nil fields, numbered from [i]. *)
Fixpoint caveat_records (i : Z) (vs : gostruct) : bytes :=
  match vs with
  | [] => []
  | FieldPtr v :: rest =>
      match valToBytes v with
      | Ok d => [byte_of_Z i] ++ [byte_of_Z (len d)] ++ d
      | _ => []
      end ++ caveat_records (i + 1) rest
  | _ :: rest => caveat_records (i + 1) rest
  end.

(** A struct all of whose fields are nil pointers. *)
Definition all_nil (obj : gostructptr) : bool :=
  forallb (fun f => match fvalue f with FieldNilPtr => true | _ => false end)
    obj.

Module CaveatExample.
Import Strings.String.

(** [struct{ C *string }], zero; the type of [Example.record]. *)
Definition target : gostructptr := [mkField (PtrTo KString) true FieldNilPtr].

(** A payload of two bytes followed, within the capacity, by three more. *)
Definition overlong : buffer :=
  mkBuffer [x00; x03] (Example.text "sig").

End CaveatExample.

(** ** The sibling marshalling code (marshal.go)

    [appendBinary] and [MarshalBinary] of marshal.go, over the macaroon of
    that file. *)

Section LegacyMarshal.

Variable growslice : Z -> Z -> nat.

Definition Legacy_appendBinary (m : Legacy.Macaroon) (d : buffer)
  : result buffer :=
  let d := append growslice d (elems (Legacy.data m)) in
  let '(d, _, ok) := rawAppendPacket growslice d fieldSignature (Legacy.sig m) in
  if negb ok then Err ErrAppendSignature else Ok d.

Definition Legacy_MarshalBinary (m : Legacy.Macaroon) : result bytes :=
  d <- Legacy_appendBinary m (make0 (Legacy.marshalBinaryLen m)) ;;
  Ok (elems d).

End LegacyMarshal.

Module BinaryExample.

(** [Example.attenuated.MarshalBinary()] *)
Definition wire : bytes :=
  Eval vm_compute in
    match MarshalBinary exact_fit Example.attenuated with
    | Ok b => b
    | _ => []
    end.

(** What [appendPacket] returns for the caveat payload of the example. *)
Definition appended : Macaroon * packet * bool :=
  Eval vm_compute in
    appendPacket exact_fit Example.fresh fieldCaveat Example.cavData.

(** The same for a payload of one byte. *)
Definition appended_short : Macaroon * packet * bool :=
  Eval vm_compute in appendPacket exact_fit Example.fresh fieldCaveat [x00].

(** [wire] unmarshalled by the code of part_000 and by that of marshal.go. *)
Definition unmarshalled : Macaroon :=
  Eval vm_compute in fst (UnmarshalBinary exact_fit zero_Macaroon wire).

Definition legacy_unmarshalled : Legacy.Macaroon :=
  Eval vm_compute in
    match Legacy.UnmarshalBinary exact_fit Legacy.zero_Macaroon wire with
    | Some (m, _) => m
    | None => Legacy.zero_Macaroon
    end.

End BinaryExample.

(** The number of bytes a field value of variable length holds. *)
Definition value_len (v : govalue) : Z :=
  match v with
  | VByteSlice b | VString b => len b
  | _ => 0
  end.

Module FailedCall.



End FailedCall.

(** ** The JSON text between [MarshalJSON] and [UnmarshalJSON]

    [MarshalJSON] hands its record of four strings to [json.Marshal], and
    [UnmarshalJSON] starts from the record [json.Unmarshal] filled.
    [json.Marshal] does not fail on such a record, but it writes every
    string coerced to valid UTF-8: a byte that does not begin a valid
    encoding is replaced by U+FFFD, one replacement per byte; escapes and
    valid encodings are read back by [json.Unmarshal] as they were.
    [json_string s] is the string that arrives when [s] was sent.  Text that
    is not the output of [json.Marshal] (for which [UnmarshalJSON] returns
    "cannot unmarshal json data") is outside this model. *)

Definition in_range_Z (lo hi : Z) (b : byte) : bool :=
  (lo <=? byte_to_Z b) && (byte_to_Z b <=? hi).

(** The encodings [utf8.DecodeRuneInString] accepts, by their first byte. *)
Definition utf8_two (b0 b1 : byte) : bool :=
  in_range_Z 194 223 b0 && in_range_Z 128 191 b1.

Definition utf8_three (b0 b1 b2 : byte) : bool :=
  ((in_range_Z 224 224 b0 && in_range_Z 160 191 b1)
   || ((in_range_Z 225 236 b0 || in_range_Z 238 239 b0)
       && in_range_Z 128 191 b1)
   || (in_range_Z 237 237 b0 && in_range_Z 128 159 b1))
  && in_range_Z 128 191 b2.

Definition utf8_four (b0 b1 b2 b3 : byte) : bool :=
  ((in_range_Z 240 240 b0 && in_range_Z 144 191 b1)
   || (in_range_Z 241 243 b0 && in_range_Z 128 191 b1)
   || (in_range_Z 244 244 b0 && in_range_Z 128 143 b1))
  && in_range_Z 128 191 b2 && in_range_Z 128 191 b3.

(** U+FFFD in UTF-8. *)
Definition replacement : bytes := [xef; xbf; xbd].

Fixpoint json_string (s : bytes) : bytes :=
  match s with
  | [] => []
  | b0 :: r0 =>
      if byte_to_Z b0 <? 128 then b0 :: json_string r0
      else
        match r0 with
        | [] => replacement ++ json_string r0
        | b1 :: r1 =>
            if utf8_two b0 b1 then b0 :: b1 :: json_string r1
            else
              match r1 with
              | [] => replacement ++ json_string r0
              | b2 :: r2 =>
                  if utf8_three b0 b1 b2
                  then b0 :: b1 :: b2 :: json_string r2
                  else
                    match r2 with
                    | [] => replacement ++ json_string r0
                    | b3 :: r3 =>
                        if utf8_four b0 b1 b2 b3
                        then b0 :: b1 :: b2 :: b3 :: json_string r3
                        else replacement ++ json_string r0
                    end
              end
        end
  end.

(** [json.Unmarshal] of [json.Marshal] of a record. *)
Definition json_transport (j : macaroonJSON) : macaroonJSON :=
  mkJSON (json_string (Caveats j)) (json_string (JLocation j))
         (json_string (Identifier j)) (json_string (JSignature j)).

(** * Properties *)

Unset Implicit Arguments.

(** ** The hash functions on known answers *)

Lemma sum256_known_answer :
  hex_EncodeToString (Sha256.sum256 Example.abc) = Example.abc_sha256.
Proof. vm_compute. reflexivity. Qed.

Lemma hmac_known_answer :
  hex_EncodeToString (keyedHash Example.jefe Example.jefe_msg) = Example.jefe_hmac.
Proof. vm_compute. reflexivity. Qed.

(** ** Bytes and integer conversions *)

Lemma to_N_byte_of_N (n : N) : Byte.to_N (byte_of_N n) = (n mod 256)%N.
Proof.
  unfold byte_of_N.
  destruct (Byte.of_N (n mod 256)) as [b|] eqn:E.
  - now apply Byte.to_of_N.
  - apply Byte.of_N_None_iff in E.
    assert (n mod 256 < 256)%N by (apply N.mod_lt; discriminate).
    lia.
Qed.

Lemma to_N_lt_256 (b : byte) : (Byte.to_N b < 256)%N.
Proof. pose proof (Byte.to_N_bounded b). lia. Qed.

Lemma to_N_inj (a b : byte) : Byte.to_N a = Byte.to_N b -> a = b.
Proof.
  intros H.
  assert (E : Some a = Some b)
    by (rewrite <- (Byte.of_to_N a), <- (Byte.of_to_N b); now rewrite H).
  now inversion E.
Qed.

Lemma mod_256_ones (n : N) : (n mod 256 = N.land n (N.ones 8))%N.
Proof. now rewrite N.land_ones. Qed.

Lemma land_lxor_distr (a b c : N) :
  N.land (N.lxor a b) c = N.lxor (N.land a c) (N.land b c).
Proof.
  apply N.bits_inj; intros n.
  rewrite N.land_spec, !N.lxor_spec, !N.land_spec.
  now destruct (N.testbit a n), (N.testbit b n), (N.testbit c n).
Qed.

Lemma byte_xor_x00 (a b : byte) : byte_xor a b = x00 <-> a = b.
Proof.
  unfold byte_xor. split.
  - intros H. apply (f_equal Byte.to_N) in H.
    rewrite to_N_byte_of_N, mod_256_ones, land_lxor_distr in H.
    rewrite <- !mod_256_ones in H.
    rewrite !N.mod_small in H by apply to_N_lt_256.
    apply to_N_inj. now apply N.lxor_eq.
  - intros ->. now rewrite N.lxor_nilpotent.
Qed.

Lemma byte_or_x00 (a b : byte) : byte_or a b = x00 <-> a = x00 /\ b = x00.
Proof.
  unfold byte_or. split.
  - intros H. apply (f_equal Byte.to_N) in H.
    rewrite to_N_byte_of_N, mod_256_ones, N.land_lor_distr_l in H.
    rewrite <- !mod_256_ones in H.
    rewrite !N.mod_small in H by apply to_N_lt_256.
    change (Byte.to_N x00) with 0%N in H.
    apply N.lor_eq_0_iff in H. destruct H as [Ha Hb].
    split; apply to_N_inj; assumption.
  - now intros [-> ->].
Qed.

Lemma byte_to_Z_of_Z (z : Z) : byte_to_Z (byte_of_Z z) = z mod 256.
Proof.
  unfold byte_to_Z, byte_of_Z.
  rewrite to_N_byte_of_N.
  assert (0 <= z mod 256 < 256) by (apply Z.mod_pos_bound; lia).
  rewrite N2Z.inj_mod, Z2N.id by lia.
  change (Z.of_N 256) with 256.
  apply Z.mod_small. lia.
Qed.

Lemma byte_to_Z_range (b : byte) : 0 <= byte_to_Z b < 256.
Proof. unfold byte_to_Z. pose proof (to_N_lt_256 b). lia. Qed.

Lemma byte_eqb_eq (a b : byte) : Byte.eqb a b = true <-> a = b.
Proof.
  split.
  - apply Byte.byte_dec_bl.
  - apply Byte.byte_dec_lb.
Qed.

Lemma byte_eqb_refl (a : byte) : Byte.eqb a a = true.
Proof. now apply byte_eqb_eq. Qed.

(** Little-endian 16-bit encoding and decoding are inverse on [uint16]
    values. *)
Lemma Uint16_PutUint16 (v : Z) (rest : bytes) :
  0 <= v <= 65535 -> Uint16 (PutUint16 v ++ rest) = Ok v.
Proof.
  intros Hv. unfold PutUint16, Uint16. cbn [app].
  f_equal. rewrite !byte_to_Z_of_Z.
  rewrite Z.shiftr_div_pow2, Z.shiftl_mul_pow2 by lia.
  change (2 ^ 8) with 256.
  assert (Hq : 0 <= v / 256 < 256)
    by (split; [apply Z.div_pos; lia | apply Z.div_lt_upper_bound; lia]).
  rewrite (Z.mod_small (v / 256)) by lia.
  assert (Hland : Z.land (v mod 256) (v / 256 * 256) = 0).
  { apply Z.bits_inj'; intros n Hn.
    rewrite Z.land_spec, Z.bits_0.
    destruct (Z.ltb_spec n 8).
    - replace (v / 256 * 256) with (Z.shiftl (v / 256) 8)
        by (rewrite Z.shiftl_mul_pow2 by lia; reflexivity).
      rewrite Z.shiftl_spec_low by lia. apply andb_false_r.
    - change 256 with (2 ^ 8) at 1.
      rewrite Z.mod_pow2_bits_high by lia. reflexivity. }
  rewrite <- (Z.lxor_lor _ _ Hland), <- (Z.add_nocarry_lxor _ _ Hland).
  pose proof (Z.div_mod v 256). lia.
Qed.

(** ** Comparisons *)

Lemma bytes_Equal_eq (a b : bytes) : bytes_Equal a b = true <-> a = b.
Proof.
  revert b; induction a as [|x a IH]; intros [|y b]; cbn; try easy.
  rewrite andb_true_iff, byte_eqb_eq, IH.
  split; [intros [-> ->] | intros E; inversion E]; auto.
Qed.

Lemma ct_fold_x00 (x y : bytes) (v : byte) :
  length x = length y ->
  ct_fold v x y = x00 <-> v = x00 /\ x = y.
Proof.
  revert y v; induction x as [|a x IH]; intros [|b y] v Hl;
    cbn in Hl; try discriminate; cbn [ct_fold].
  - intuition.
  - rewrite IH by lia. rewrite byte_or_x00, byte_xor_x00.
    split.
    + intros [[-> ->] ->]. auto.
    + intros [-> E]. inversion E. auto.
Qed.

Lemma ConstantTimeCompare_1 (x y : bytes) :
  ConstantTimeCompare x y = 1 <-> x = y.
Proof.
  unfold ConstantTimeCompare, len.
  destruct (Z.eqb_spec (Z.of_nat (length x)) (Z.of_nat (length y))) as [E|E];
    cbn [negb].
  - apply Nat2Z.inj in E.
    destruct (Byte.eqb (ct_fold x00 x y) x00) eqn:F.
    + apply byte_eqb_eq, ct_fold_x00 in F; [|assumption]. tauto.
    + split; [discriminate|]. intros ->.
      assert (G : ct_fold x00 y y = x00) by (apply ct_fold_x00; auto).
      rewrite G in F. discriminate.
  - split; [discriminate|]. intros ->. contradiction.
Qed.

(** [hmac.Equal] decides equality of the two byte strings. *)
Lemma hmac_Equal_eq (x y : bytes) : hmac_Equal x y = true <-> x = y.
Proof.
  unfold hmac_Equal. rewrite Z.eqb_eq. apply ConstantTimeCompare_1.
Qed.

Lemma hmac_Equal_refl (x : bytes) : hmac_Equal x x = true.
Proof. now apply hmac_Equal_eq. Qed.

(** ** Digest sizes *)

Lemma sum256_length (msg : bytes) : length (Sha256.sum256 msg) = 32%nat.
Proof. reflexivity. Qed.

Lemma hmac_sum_length (key msg : bytes) : length (Hmac.sum key msg) = 32%nat.
Proof. apply sum256_length. Qed.

Lemma keyedHash_eq (key text : bytes) : keyedHash key text = Hmac.sum key text.
Proof. reflexivity. Qed.

Lemma keyedHash_length (key text : bytes) : length (keyedHash key text) = 32%nat.
Proof. apply hmac_sum_length. Qed.

#[global] Opaque Sha256.sum256.

(** Deciding the tests of the code from linear arithmetic. *)
Ltac test_true c :=
  replace c with true
    by (symmetry; rewrite ?andb_true_iff, ?Z.ltb_lt, ?Z.leb_le; lia).

Ltac test_false c :=
  replace c with false
    by (symmetry; rewrite ?andb_false_iff, ?Z.ltb_ge, ?Z.leb_gt, ?Z.eqb_neq;
        lia).

(** ** Sequences and buffers *)

Lemma skipn_length_app {A} (a b : list A) : skipn (length a) (a ++ b) = b.
Proof. induction a; cbn; auto. Qed.

Lemma firstn_length_app {A} (a b : list A) : firstn (length a) (a ++ b) = a.
Proof. induction a; cbn; congruence. Qed.

Lemma len_app {A} (a b : list A) : len (a ++ b) = len a + len b.
Proof. unfold len. rewrite length_app. lia. Qed.

Lemma len_nonneg {A} (a : list A) : 0 <= len a.
Proof. unfold len. lia. Qed.

Lemma sub_app_mid {A} (a b c : list A) :
  sub (a ++ b ++ c) (len a) (len a + len b) = b.
Proof.
  unfold sub, len.
  replace (Z.of_nat (length a) + Z.of_nat (length b) - Z.of_nat (length a))
    with (Z.of_nat (length b)) by lia.
  rewrite !Nat2Z.id, skipn_length_app. apply firstn_length_app.
Qed.

Lemma int32_small (z : Z) : -2147483648 <= z <= 2147483647 -> int32 z = z.
Proof. intros H. unfold int32. rewrite Z.mod_small; lia. Qed.

Lemma uint16_small (z : Z) : 0 <= z <= 65535 -> uint16 z = z.
Proof. intros H. unfold uint16. apply Z.mod_small. lia. Qed.

Section CodecProperties.

Variable growslice : Z -> Z -> nat.

Lemma elems_append (b : buffer) (xs : bytes) :
  elems (append growslice b xs) = elems b ++ xs.
Proof. unfold append. now destruct (_ <=? _)%nat. Qed.

Lemma blen_le_bcap (b : buffer) : blen b <= bcap b.
Proof. unfold blen, bcap. pose proof (len_nonneg (spare b)). lia. Qed.

(** What a slice expression within the visible part of a buffer reads. *)
Lemma slice2_within (b : buffer) (lo hi : Z) :
  0 <= lo <= hi -> hi <= blen b ->
  exists b', slice2 b lo hi = Ok b' /\ elems b' = sub (elems b) lo hi.
Proof.
  intros Hlo Hhi. unfold slice2.
  pose proof (blen_le_bcap b).
  test_true ((0 <=? lo) && (lo <=? hi) && (hi <=? bcap b)).
  eexists; split; [reflexivity|]. cbn [elems].
  unfold sub, backing, blen, len in *.
  rewrite skipn_app, firstn_app.
  replace (Z.to_nat (hi - lo) - length (skipn (Z.to_nat lo) (elems b)))%nat
    with 0%nat by (rewrite length_skipn; lia).
  cbn [firstn]. now rewrite app_nil_r.
Qed.

Lemma rawAppendPacket_too_big (buf : buffer) (f : field) (payload : bytes) :
  65535 < 3 + len payload ->
  rawAppendPacket growslice buf f payload = (nil_buffer, zero_packet, false).
Proof.
  intros H. unfold rawAppendPacket, maxPacketLen.
  test_true (65535 <? 2 + 1 + len payload).
  reflexivity.
Qed.

Lemma rawAppendPacket_fits (buf : buffer) (f : field) (payload : bytes) :
  3 + len payload <= 65535 ->
  exists buf',
    rawAppendPacket growslice buf f payload
    = (buf', mkPacket (int32 (blen buf)) (3 + len payload) 0, true)
    /\ elems buf'
       = elems buf ++ PutUint16 (3 + len payload) ++ [f] ++ payload.
Proof.
  intros H. unfold rawAppendPacket, maxPacketLen, appendSize.
  pose proof (len_nonneg payload).
  test_false (65535 <? 2 + 1 + len payload).
  replace (2 + 1 + len payload) with (3 + len payload) by lia.
  rewrite !uint16_small by lia.
  eexists; split; [reflexivity|].
  rewrite !elems_append, <- !app_assoc. reflexivity.
Qed.

Lemma appendPacket_too_big (m : Macaroon) (f : field) (payload : bytes) :
  65535 < 3 + len payload ->
  appendPacket growslice m f payload = (m, zero_packet, false).
Proof.
  intros H. unfold appendPacket.
  now rewrite rawAppendPacket_too_big.
Qed.

Lemma appendPacket_fits (m : Macaroon) (f : field) (payload : bytes) :
  3 + len payload <= 65535 ->
  exists d',
    appendPacket growslice m f payload
    = (set_data m d', mkPacket (int32 (blen (data m))) (3 + len payload) 0, true)
    /\ elems d'
       = elems (data m) ++ PutUint16 (3 + len payload) ++ [f] ++ payload.
Proof.
  intros H. unfold appendPacket.
  destruct (rawAppendPacket_fits (data m) f payload H) as (d' & -> & E).
  cbn [negb]. eauto.
Qed.

(** The bytes of a packet that lies within the visible part of the buffer. *)
Lemma packetBytes_at (m : Macaroon) (pre body post : bytes) (s n : Z) :
  elems (data m) = pre ++ body ++ post ->
  len pre + len body <= 2147483647 ->
  s = len pre -> n = len body ->
  packetBytes m (mkPacket s n 0) = Ok body.
Proof.
  intros E Hmax -> ->. unfold packetBytes. cbn [start totalLen].
  pose proof (len_nonneg pre). pose proof (len_nonneg body).
  pose proof (len_nonneg post).
  rewrite (int32_small (len body)) by lia.
  rewrite (int32_small (len pre + len body)) by lia.
  destruct (slice2_within (data m) (len pre) (len pre + len body))
    as (b' & -> & Eb).
  - lia.
  - unfold blen. rewrite E, !len_app. lia.
  - cbn [rbind]. now rewrite Eb, E, sub_app_mid.
Qed.

(** The payload of such a packet: the bytes after its 3-byte header. *)
Lemma dataBytes_at (m : Macaroon) (pre hdr body post : bytes) (s n : Z) :
  elems (data m) = pre ++ (hdr ++ body) ++ post ->
  len hdr = 3 ->
  len pre + 3 + len body <= 2147483647 ->
  s = len pre -> n = 3 + len body ->
  dataBytes m (mkPacket s n 0) = Ok body.
Proof.
  intros E Hh Hmax -> ->. unfold dataBytes, headerLen. cbn [start totalLen].
  pose proof (len_nonneg pre). pose proof (len_nonneg body).
  pose proof (len_nonneg post).
  test_false (3 + len body =? 0).
  rewrite (int32_small (3 + len body)) by lia.
  rewrite (int32_small (len pre + 3)) by lia.
  rewrite (int32_small (len pre + (3 + len body))) by lia.
  destruct (slice2_within (data m) (len pre + 3) (len pre + (3 + len body)))
    as (b' & -> & Eb).
  - lia.
  - unfold blen. rewrite E, !len_app. lia.
  - cbn [rbind]. rewrite Eb, E. f_equal.
    rewrite <- !app_assoc, (app_assoc pre hdr).
    replace (len pre + 3) with (len (pre ++ hdr)) by (rewrite len_app; lia).
    replace (len pre + (3 + len body)) with (len (pre ++ hdr) + len body)
      by (rewrite len_app; lia).
    apply sub_app_mid.
Qed.

Lemma len_PutUint16 (v : Z) : len (PutUint16 v) = 2.
Proof. reflexivity. Qed.

Lemma len_packet_bytes (f : field) (payload : bytes) :
  len (packet_bytes f payload) = 3 + len payload.
Proof.
  unfold packet_bytes. rewrite !len_app, len_PutUint16.
  change (len [f]) with 1. lia.
Qed.

(** The payload of a packet written by [appendPacket], wherever it lies in
    the buffer. *)
Lemma dataBytes_packet
  (m : Macaroon) (pre post body : bytes) (f : field) (s : Z) :
  elems (data m) = pre ++ packet_bytes f body ++ post ->
  len pre + 3 + len body <= 2147483647 ->
  s = len pre ->
  dataBytes m (mkPacket s (3 + len body) 0) = Ok body.
Proof.
  intros E Hmax Hs.
  apply dataBytes_at with (pre := pre) (post := post)
    (hdr := PutUint16 (3 + len body) ++ [f]); auto.
Qed.

End CodecProperties.

#[global] Opaque Hmac.sum.

(** ** Construction and verification *)

Section MacaroonProperties.

Variable growslice : Z -> Z -> nat.

(** [New] succeeds exactly when both fields fit in a packet, and then the
    buffer holds the location and identifier packets and the signature is
    the keyed hash of the identifier. *)
Lemma New_cases (rootKey id' loc : bytes) :
  (65535 < 3 + len loc /\
   New growslice rootKey id' loc = Err ErrLocationTooBig)
  \/ (3 + len loc <= 65535 /\ 65535 < 3 + len id' /\
      New growslice rootKey id' loc = Err ErrIdentifierTooBig)
  \/ (3 + len loc <= 65535 /\ 3 + len id' <= 65535 /\
      exists d,
        New growslice rootKey id' loc
        = Ok (mkMacaroon d (mkPacket 0 (3 + len loc) 0)
                (mkPacket (3 + len loc) (3 + len id') 0)
                zero_packet (Hmac.sum rootKey id'))
        /\ elems d = packet_bytes fieldLocation loc
                     ++ packet_bytes fieldIdentifier id').
Proof.
  pose proof (len_nonneg loc) as Hl. pose proof (len_nonneg id') as Hi.
  unfold New, init.
  destruct (Z.ltb_spec 65535 (3 + len loc)) as [Hloc|Hloc].
  { left. split; [assumption|].
    now rewrite appendPacket_too_big. }
  right.
  destruct (appendPacket_fits growslice zero_Macaroon fieldLocation loc Hloc)
    as (d1 & -> & E1).
  cbn [negb]. cbn [elems data zero_Macaroon nil_buffer app] in E1.
  destruct (Z.ltb_spec 65535 (3 + len id')) as [Hid|Hid].
  { left. split; [assumption|]. split; [assumption|].
    now rewrite appendPacket_too_big. }
  right. split; [assumption|]. split; [assumption|].
  match goal with |- context [appendPacket _ ?m _ _] =>
    destruct (appendPacket_fits growslice m fieldIdentifier id' Hid)
      as (d2 & -> & E2)
  end.
  cbn [negb]. cbn [data set_location set_data] in E2 |- *.
  change (elems d1 = packet_bytes fieldLocation loc) in E1.
  fold (packet_bytes fieldIdentifier id') in E2.
  rewrite E1 in E2.
  assert (Hb : blen d1 = 3 + len loc)
    by (unfold blen; rewrite E1; apply len_packet_bytes).
  cbn [blen zero_Macaroon nil_buffer elems data len length Z.of_nat].
  rewrite Hb. change (int32 0) with 0.
  rewrite (int32_small (3 + len loc)) by lia.
  exists d2. split; [|assumption].
  unfold set_id, set_data, set_location, set_sig.
  cbn [data location id caveats sig zero_Macaroon].
  erewrite dataBytes_packet with (pre := packet_bytes fieldLocation loc)
    (f := fieldIdentifier) (post := []).
  - cbn [rbind]. reflexivity.
  - cbn [data]. now rewrite E2, app_nil_r.
  - rewrite len_packet_bytes. lia.
  - now rewrite len_packet_bytes.
Qed.

(** A successful [SetCaveats] appends one caveats packet and chains the
    signature over its payload. *)
Lemma SetCaveats_ok_inv (m m' : Macaroon) (v : gostruct) :
  SetCaveats growslice m v = (m', Ok tt) ->
  exists cavData d',
    MarshalCaveats v = Ok cavData
    /\ 3 + len cavData <= 65535
    /\ m' = mkMacaroon d' (location m) (id m)
              (mkPacket (int32 (blen (data m))) (3 + len cavData) 0)
              (Hmac.sum (sig m) cavData)
    /\ elems d' = elems (data m) ++ packet_bytes fieldCaveat cavData.
Proof.
  unfold SetCaveats.
  destruct (MarshalCaveats v) as [cavData| |]; try discriminate.
  destruct (Z.ltb_spec 65535 (3 + len cavData)) as [Hbig|Hfit].
  - rewrite appendPacket_too_big by assumption. discriminate.
  - destruct (appendPacket_fits growslice m fieldCaveat cavData Hfit)
      as (d' & -> & E).
    intros H. inversion H; subst; clear H.
    exists cavData, d'. repeat split; assumption.
Qed.

Lemma verify_unfold (m : Macaroon) (rootSig rootKey idb cav : bytes) :
  dataBytes m (id m) = Ok idb ->
  dataBytes m (caveats m) = Ok cav ->
  verify m rootSig rootKey
  = if hmac_Equal
         (bindForRequest (if len rootSig =? 0 then sig m else rootSig)
                         (chain rootKey idb cav))
         (sig m)
    then Ok tt else Err ErrSignatureMismatch.
Proof.
  intros Hid Hcav. unfold verify. rewrite Hid, Hcav. cbn [rbind].
  unfold chain, keyedHash, keyedHasher, hmac_New_sha256, Sum, Write.
  cbn [hfun written firstn app].
  now destruct (hmac_Equal _ _).
Qed.

Lemma Verify_unfold (m : Macaroon) (rootKey idb cav : bytes) :
  dataBytes m (id m) = Ok idb ->
  dataBytes m (caveats m) = Ok cav ->
  Verify m rootKey
  = if hmac_Equal (bindForRequest (sig m) (chain rootKey idb cav)) (sig m)
    then Ok tt else Err ErrSignatureMismatch.
Proof.
  intros Hid Hcav. unfold Verify.
  rewrite (verify_unfold m (sig m) rootKey idb cav Hid Hcav).
  destruct (len (sig m) =? 0); now destruct (hmac_Equal _ _).
Qed.

Lemma bindForRequest_cases (rootSig dischargeSig : bytes) :
  bindForRequest rootSig dischargeSig
  = if list_eq_dec Byte.byte_eq_dec rootSig dischargeSig
    then rootSig
    else Sha256.sum256 (rootSig ++ dischargeSig).
Proof.
  unfold bindForRequest.
  destruct (list_eq_dec Byte.byte_eq_dec rootSig dischargeSig) as [E|E].
  - apply bytes_Equal_eq in E. now rewrite E.
  - destruct (bytes_Equal rootSig dischargeSig) eqn:F.
    + apply bytes_Equal_eq in F. contradiction.
    + reflexivity.
Qed.

Lemma bindForRequest_same (s : bytes) : bindForRequest s s = s.
Proof.
  rewrite bindForRequest_cases.
  now destruct (list_eq_dec Byte.byte_eq_dec s s).
Qed.

(** A macaroon made by [New]: its identifier payload and its (absent)
    caveats payload as [verify] reads them. *)
Lemma New_dataBytes (rootKey id' loc : bytes) (m : Macaroon) :
  New growslice rootKey id' loc = Ok m ->
  dataBytes m (id m) = Ok id' /\ dataBytes m (caveats m) = Ok []
  /\ dataBytes m (location m) = Ok loc
  /\ sig m = Hmac.sum rootKey id'.
Proof.
  intros H.
  destruct (New_cases rootKey id' loc)
    as [[_ E]|[(_ & _ & E)|(Hloc & Hid & d & E & Ed)]];
    rewrite E in H; try discriminate.
  inversion H; subst; clear H. cbn [id caveats location sig].
  pose proof (len_nonneg loc). pose proof (len_nonneg id').
  repeat split.
  - apply dataBytes_packet with (pre := packet_bytes fieldLocation loc)
      (f := fieldIdentifier) (post := []).
    + cbn [data]. now rewrite Ed, app_nil_r.
    + rewrite len_packet_bytes. lia.
    + now rewrite len_packet_bytes.
  - apply dataBytes_packet with (pre := []) (f := fieldLocation)
      (post := packet_bytes fieldIdentifier id').
    + cbn [data]. now rewrite Ed.
    + change (len []) with 0. lia.
    + reflexivity.
Qed.

(** *** Claims about the packet codec and the binder *)

(** C9. [appendPacket] reports "too big" (a false flag and a zero packet,
    the macaroon untouched) exactly when [3 + len(payload) > 65535];
    otherwise it succeeds, the returned packet has total length
    [3 + len(payload)], and the bytes appended to the buffer (the bytes of
    that packet) are the total length as two little-endian bytes, the tag,
    then the payload. *)
Theorem appendPacket_too_big_or_appended
  (m : Macaroon) (f : field) (payload : bytes) :
  (65535 < 3 + len payload /\
   appendPacket growslice m f payload = (m, zero_packet, false))
  \/
  (3 + len payload <= 65535 /\
   exists d' b0 b1,
     let p := mkPacket (int32 (blen (data m))) (3 + len payload) 0 in
     appendPacket growslice m f payload = (set_data m d', p, true)
     /\ packet_len p = 3 + len payload
     /\ Uint16 [b0; b1] = Ok (3 + len payload)
     /\ elems d' = elems (data m) ++ [b0; b1; f] ++ payload
     /\ (blen (data m) + 3 + len payload <= 2147483647 ->
         packetBytes (set_data m d') p = Ok ([b0; b1; f] ++ payload))).
Proof.
  pose proof (len_nonneg payload) as Hp.
  destruct (Z.ltb_spec 65535 (3 + len payload)) as [Hbig|Hfit].
  - left. split; [assumption|]. now apply appendPacket_too_big.
  - right. split; [assumption|].
    destruct (appendPacket_fits growslice m f payload Hfit) as (d' & E & Ed).
    exists d', (byte_of_Z (3 + len payload)),
      (byte_of_Z (Z.shiftr (3 + len payload) 8)).
    cbv zeta. split; [exact E|]. split; [reflexivity|].
    split; [apply (Uint16_PutUint16 (3 + len payload) []); lia|].
    split; [exact Ed|].
    intros Hmax.
    pose proof (len_nonneg (elems (data m))) as Hd. unfold blen in *.
    eapply packetBytes_at with (pre := elems (data m)) (post := []).
    + cbn [data set_data]. rewrite Ed, app_nil_r. reflexivity.
    + unfold len in *. cbn [length app]. lia.
    + apply int32_small. lia.
    + unfold len. cbn [length app]. lia.
Qed.

(** C4. [bindForRequest] returns the root signature unchanged when the two
    signatures are byte-equal and SHA-256 of their concatenation otherwise;
    [Bind] replaces the stored signature by
    [bindForRequest(sig, storedSignature)] and nothing else. *)
Theorem bindForRequest_and_Bind
  (rootSig dischargeSig : bytes) (m : Macaroon) (s : bytes) :
  bindForRequest rootSig dischargeSig
  = (if list_eq_dec Byte.byte_eq_dec rootSig dischargeSig
     then rootSig
     else Sha256.sum256 (rootSig ++ dischargeSig))
  /\ Bind m s
     = mkMacaroon (data m) (location m) (id m) (caveats m)
         (if list_eq_dec Byte.byte_eq_dec s (sig m)
          then s
          else Sha256.sum256 (s ++ sig m)).
Proof.
  split.
  - apply bindForRequest_cases.
  - unfold Bind, set_sig. now rewrite bindForRequest_cases.
Qed.

(** *** Claims about construction followed by verification *)

(** After [New] and one successful [SetCaveats], [Verify] with the same
    root key returns nil: the signature stored by [SetCaveats],
    HMAC(previous signature, caveat bytes), is the chain
    HMAC(HMAC(rootKey, id), caveats payload) that [verify] recomputes. *)
Lemma New_SetCaveats_Verify
  (rootKey id' loc : bytes) (v : gostruct) (m m' : Macaroon) :
  New growslice rootKey id' loc = Ok m ->
  SetCaveats growslice m v = (m', Ok tt) ->
  Verify m' rootKey = Ok tt
  /\ exists cavData,
       MarshalCaveats v = Ok cavData
       /\ caveatsRaw m' = Ok cavData
       /\ sig m' = Hmac.sum (sig m) cavData
       /\ sig m' = chain rootKey id' cavData.
Proof.
  intros HN HS.
  destruct (New_cases rootKey id' loc)
    as [[_ E]|[(_ & _ & E)|(Hloc & Hid & d & E & Ed)]];
    rewrite E in HN; try discriminate.
  inversion HN; subst m; clear HN E.
  apply SetCaveats_ok_inv in HS.
  destruct HS as (cav & d' & HM & Hcav & -> & Ed').
  cbn [data location id caveats sig] in *.
  pose proof (len_nonneg loc). pose proof (len_nonneg id').
  pose proof (len_nonneg cav).
  assert (Hblen : blen d = 3 + len loc + (3 + len id'))
    by (unfold blen; rewrite Ed, len_app, !len_packet_bytes; reflexivity).
  rewrite Ed in Ed'.
  assert (Hcavs :
    dataBytes (mkMacaroon d' (mkPacket 0 (3 + len loc) 0)
                 (mkPacket (3 + len loc) (3 + len id') 0)
                 (mkPacket (int32 (blen d)) (3 + len cav) 0)
                 (Hmac.sum (Hmac.sum rootKey id') cav))
              (mkPacket (int32 (blen d)) (3 + len cav) 0) = Ok cav).
  { apply dataBytes_packet with
      (pre := packet_bytes fieldLocation loc ++ packet_bytes fieldIdentifier id')
      (f := fieldCaveat) (post := []).
    - cbn [data]. now rewrite Ed', app_nil_r.
    - rewrite len_app, !len_packet_bytes. lia.
    - rewrite len_app, !len_packet_bytes, Hblen. apply int32_small. lia. }
  split.
  - erewrite Verify_unfold with (idb := id') (cav := cav).
    + cbn [sig]. unfold chain.
      now rewrite bindForRequest_same, hmac_Equal_refl.
    + cbn [id].
      apply dataBytes_packet with (pre := packet_bytes fieldLocation loc)
        (f := fieldIdentifier) (post := packet_bytes fieldCaveat cav).
      * cbn [data]. now rewrite Ed', <- app_assoc.
      * rewrite len_packet_bytes. lia.
      * now rewrite len_packet_bytes.
    + exact Hcavs.
  - exists cav. split; [exact HM|]. split; [exact Hcavs|].
    split; reflexivity.
Qed.


(** How [Verify] answers for a macaroon just made by [New]: the caveats
    packet is absent, and [verify] still chains once, over its empty
    payload. *)
Lemma New_Verify (rootKey id' loc : bytes) (m : Macaroon) :
  New growslice rootKey id' loc = Ok m ->
  Verify m rootKey
  = if hmac_Equal
         (bindForRequest (Hmac.sum rootKey id') (chain rootKey id' []))
         (Hmac.sum rootKey id')
    then Ok tt else Err ErrSignatureMismatch.
Proof.
  intros H. apply New_dataBytes in H. destruct H as (Hid & Hcav & _ & Hsig).
  rewrite (Verify_unfold m rootKey id' [] Hid Hcav). now rewrite Hsig.
Qed.

Lemma dataBytes_not_Err (m : Macaroon) (p : packet) (e : error) :
  dataBytes m p <> Err e.
Proof.
  unfold dataBytes, slice2.
  destruct (totalLen p =? 0); [discriminate|].
  now destruct (_ && _).
Qed.

(** The only error [verify] returns. *)
Lemma verify_error_is_mismatch
  (m : Macaroon) (rootSig rootKey : bytes) (e : error) :
  verify m rootSig rootKey = Err e -> e = ErrSignatureMismatch.
Proof.
  destruct (dataBytes m (id m)) as [idb| |] eqn:Hid;
    [destruct (dataBytes m (caveats m)) as [cav| |] eqn:Hcav|..].
  - rewrite (verify_unfold m rootSig rootKey idb cav Hid Hcav).
    destruct (hmac_Equal _ _); [discriminate|]. now intros [= <-].
  - now apply dataBytes_not_Err in Hcav.
  - unfold verify. rewrite Hid, Hcav. discriminate.
  - now apply dataBytes_not_Err in Hid.
  - unfold verify. rewrite Hid. discriminate.
Qed.

(** C3, as the code has it. [verify] returns the error "signature mismatch
    after caveat verification" if and only if
    [bindForRequest(r, recomputedCaveatSig)] differs from the stored
    signature, where [r] is the root-signature parameter, or the macaroon's
    own stored signature when that parameter is empty; it accepts exactly
    when the constant-time comparison of the two reports equality, and it
    returns no other error. *)
Theorem verify_mismatch_iff (m : Macaroon) (rootSig rootKey : bytes) :
  let r := if len rootSig =? 0 then sig m else rootSig in
  (verify m rootSig rootKey = Err ErrSignatureMismatch <->
   exists idb cav,
     dataBytes m (id m) = Ok idb /\ dataBytes m (caveats m) = Ok cav
     /\ bindForRequest r (chain rootKey idb cav) <> sig m)
  /\ (verify m rootSig rootKey = Ok tt <->
      exists idb cav,
        dataBytes m (id m) = Ok idb /\ dataBytes m (caveats m) = Ok cav
        /\ ConstantTimeCompare (bindForRequest r (chain rootKey idb cav))
                               (sig m) = 1)
  /\ (forall e, verify m rootSig rootKey = Err e -> e = ErrSignatureMismatch).
Proof.
  cbv zeta.
  destruct (dataBytes m (id m)) as [idb| |] eqn:Hid;
    [destruct (dataBytes m (caveats m)) as [cav| |] eqn:Hcav|..].
  - rewrite (verify_unfold m rootSig rootKey idb cav Hid Hcav).
    destruct (hmac_Equal _ _) eqn:Heq.
    + pose proof Heq as Heq'. apply hmac_Equal_eq in Heq'.
      pose proof Heq as Hct. unfold hmac_Equal in Hct. apply Z.eqb_eq in Hct.
      repeat split; try discriminate.
      * intros (idb' & cav' & [= <-] & [= <-] & Hne). contradiction.
      * intros _. eauto.
    + assert (Hne : bindForRequest (if len rootSig =? 0 then sig m else rootSig)
                      (chain rootKey idb cav) <> sig m).
      { intros E. apply hmac_Equal_eq in E. congruence. }
      repeat split; try discriminate.
      * intros _. eauto.
      * intros (idb' & cav' & [= <-] & [= <-] & Hct).
        apply ConstantTimeCompare_1 in Hct. contradiction.
      * now intros e [= <-].
  - now apply dataBytes_not_Err in Hcav.
  - unfold verify. rewrite Hid, Hcav. cbn [rbind].
    repeat split; try discriminate;
      intros (idb' & cav' & _ & [=] & _).
  - now apply dataBytes_not_Err in Hid.
  - unfold verify. rewrite Hid. cbn [rbind].
    repeat split; try discriminate;
      intros (idb' & cav' & [=] & _).
Qed.

(** [Verify] of macaroon.go takes the root key only: there is no
    discharge set and no used-marker, and whatever macaroons the caller
    holds besides the receiver, the call either accepts, panics on a
    malformed receiver, or fails with "signature mismatch after caveat
    verification"; no discharge error exists. *)
Lemma Verify_only_signature_mismatch (m : Macaroon) (rootKey : bytes) :
  Verify m rootKey = Ok tt
  \/ Verify m rootKey = Err ErrSignatureMismatch
  \/ Verify m rootKey = Panic.
Proof.
  unfold Verify.
  pose proof (verify_error_is_mismatch m (sig m) rootKey) as Herr.
  destruct (verify m (sig m) rootKey) as [[]|e|]; auto.
  right; left. now rewrite (Herr e eq_refl).
Qed.

(** ** Discharge accounting of the verifier with discharges *)

Section DischargeAccounting.

Import SpecVerifier.

Variable E : Type.
Variable conditionChecker : bytes -> option E.
Variable authenticated_decrypt : bytes -> bytes -> option bytes.
Variable fixed_context_constant : bytes.
Variable discharges : list SpecMacaroon.

Local Abbreviation node :=
  (verify_node conditionChecker authenticated_decrypt
     fixed_context_constant discharges).
Local Abbreviation caveat_loop :=
  (verify_caveats conditionChecker authenticated_decrypt
     fixed_context_constant discharges).
Local Abbreviation one_caveat :=
  (verify_caveat conditionChecker authenticated_decrypt
     fixed_context_constant discharges).
Local Abbreviation top :=
  (verify_top conditionChecker authenticated_decrypt
     fixed_context_constant discharges).
Local Abbreviation spec_verify :=
  (verify conditionChecker authenticated_decrypt
     fixed_context_constant discharges).
Local Abbreviation unused u := (count_occ Bool.bool_dec u false).














End DischargeAccounting.




(** *** The signature length *)

Lemma SetCaveats_sig (m m' : Macaroon) (v : gostruct) (r : result unit) :
  SetCaveats growslice m v = (m', r) ->
  sig m' = sig m \/ length (sig m') = 32%nat.
Proof.
  unfold SetCaveats.
  destruct (MarshalCaveats v) as [cavData| |];
    [|intros [= <- _]; auto..].
  destruct (Z.ltb_spec 65535 (3 + len cavData)) as [Hbig|Hfit].
  - rewrite appendPacket_too_big by assumption. intros [= <- _]. auto.
  - destruct (appendPacket_fits growslice m fieldCaveat cavData Hfit)
      as (d' & -> & _).
    intros [= <- _]. right. apply hmac_sum_length.
Qed.

(** C7, as the code has it. In every state reached from [New] by
    [SetCaveats] and [Bind] the stored signature has the length of the
    keyed-hash output, 32 bytes. *)
Theorem signature_length_invariant (m : Macaroon) :
  reachable growslice m -> length (sig m) = 32%nat.
Proof.
  induction 1 as [rootKey id' loc m HN|m m' v r _ IH HS|m s _ IH].
  - apply New_dataBytes in HN. destruct HN as (_ & _ & _ & ->).
    apply hmac_sum_length.
  - destruct (SetCaveats_sig m m' v r HS) as [E|E]; congruence.
  - unfold Bind, set_sig. cbn [sig]. rewrite bindForRequest_cases.
    destruct (list_eq_dec Byte.byte_eq_dec s (sig m)) as [->|_].
    + exact IH.
    + apply sum256_length.
Qed.


(** ** Decoding *)

Lemma Uint16_range (b0 b1 : byte) (rest : bytes) :
  exists v, Uint16 (b0 :: b1 :: rest) = Ok v /\ 0 <= v <= 65535.
Proof.
  eexists; split; [reflexivity|].
  pose proof (byte_to_Z_range b0). pose proof (byte_to_Z_range b1).
  rewrite Z.shiftl_mul_pow2 by lia. change (2 ^ 8) with 256.
  split.
  - apply Z.lor_nonneg. lia.
  - pose proof (Z.add_lor_land (byte_to_Z b0) (byte_to_Z b1 * 256)).
    assert (0 <= Z.land (byte_to_Z b0) (byte_to_Z b1 * 256))
      by (apply Z.land_nonneg; lia).
    lia.
Qed.

(** What [parsePacket] does at an offset inside the buffer, by the number
    of bytes that remain and the length the first two declare. *)
Lemma parsePacket_outcomes (m : Macaroon) (start : Z) :
  0 <= start <= blen (data m) ->
  let rest := skipn (Z.to_nat start) (elems (data m)) in
  (len rest < 6 -> parsePacket m start = Err ErrPacketTooShort)
  /\ (6 <= len rest ->
      exists plen,
        Uint16 rest = Ok plen /\ 0 <= plen <= 65535
        /\ (len rest < plen -> parsePacket m start = Err ErrPacketSizeTooBig)
        /\ (2 <= plen <= len rest ->
            parsePacket m start = Ok (mkPacket (int32 start) plen 0))
        /\ (plen < 2 -> parsePacket m start = Panic)).
Proof.
  intros Hs rest. unfold parsePacket, slice_from.
  test_true ((0 <=? start) && (start <=? blen (data m))).
  cbn [rbind]. unfold blen. cbn [elems]. fold rest.
  split.
  - intros Hshort.
    now test_true (len rest <? 6).
  - intros Hlong.
    test_false (len rest <? 6).
    destruct rest as [|b0 [|b1 rest']] eqn:Hrest;
      [unfold len in Hlong; cbn in Hlong; lia..|].
    destruct (Uint16_range b0 b1 rest') as (plen & HU & Hrange).
    exists plen. unfold parseSize. rewrite HU. cbn [rbind].
    split; [reflexivity|]. split; [assumption|].
    repeat split.
    + intros Hbig.
      now test_true (len (b0 :: b1 :: rest') <? plen).
    + intros Hfit.
      test_false (len (b0 :: b1 :: rest') <? plen).
      unfold slice2, bcap. cbn [elems spare].
      pose proof (len_nonneg (spare (data m))).
      replace ((0 <=? 2) && (2 <=? plen)
               && (plen <=? len (b0 :: b1 :: rest') + len (spare (data m))))
        with true
        by (symmetry; rewrite !andb_true_iff, !Z.leb_le; lia).
      cbn [rbind]. now rewrite uint16_small by lia.
    + intros Hlow.
      test_false (len (b0 :: b1 :: rest') <? plen).
      unfold slice2.
      test_false (2 <=? plen).
      reflexivity.
Qed.

Lemma parsePacket_out_of_range (m : Macaroon) (start : Z) :
  start < 0 \/ blen (data m) < start -> parsePacket m start = Panic.
Proof.
  intros H. unfold parsePacket, slice_from.
  test_false ((0 <=? start) && (start <=? blen (data m))).
  reflexivity.
Qed.

Lemma expectPacket_wrong_tag (m : Macaroon) (start : Z) (kind f : field)
  (p : packet) :
  parsePacket m start = Ok p -> fieldNum m p = Ok f -> f <> kind ->
  expectPacket m start kind = Err (ErrUnexpectedField f kind).
Proof.
  intros Hp Hf Hne. unfold expectPacket. rewrite Hp. cbn [rbind].
  rewrite Hf. cbn [rbind].
  destruct (Byte.eqb f kind) eqn:E; [|reflexivity].
  apply byte_eqb_eq in E. contradiction.
Qed.

Lemma expectPacket_error (m : Macaroon) (start : Z) (kind : field) (e : error) :
  parsePacket m start = Err e -> expectPacket m start kind = Err e.
Proof. intros Hp. unfold expectPacket. now rewrite Hp. Qed.

(** ** Binary unmarshalling *)

(** [unmarshalBinaryNoCopy] keeps the whole input as the macaroon's buffer
    and never assigns the signature. *)
Lemma unmarshalBinaryNoCopy_sig_data
  (m m' : Macaroon) (d : buffer) (r : result unit) :
  unmarshalBinaryNoCopy m d = (m', r) -> sig m' = sig m /\ data m' = d.
Proof.
  unfold unmarshalBinaryNoCopy.
  destruct (expectPacket _ 0 fieldLocation) as [[s1 p1]|e1|];
    [|intros [= <- _]; auto..].
  destruct (expectPacket _ s1 fieldIdentifier) as [[s2 p2]|e2|];
    [|intros [= <- _]; auto..].
  destruct (expectPacket _ s2 fieldCaveat) as [[s3 p3]|e3|];
    intros [= <- _]; auto.
Qed.

Lemma UnmarshalBinary_sig (m m' : Macaroon) (d : bytes) (r : result unit) :
  UnmarshalBinary growslice m d = (m', r) -> sig m' = sig m.
Proof.
  unfold UnmarshalBinary. intros H.
  now apply unmarshalBinaryNoCopy_sig_data in H.
Qed.

Lemma slice3_blen (b md : buffer) (mx : Z) :
  slice3 b 0 (blen b) mx = Ok md -> blen md = blen b.
Proof.
  unfold slice3. destruct (_ && _); [|discriminate].
  intros [= <-]. unfold blen, sub, backing, len. cbn [elems].
  rewrite Z.sub_0_r, Nat2Z.id. cbn [Z.to_nat skipn].
  now rewrite firstn_length_app.
Qed.

(** On a non-empty input a round of the loop in [Slice.UnmarshalBinary] ends
    in an error or a panic: after a successful parse the signature is still
    empty, so [marshalBinaryLen] is the whole remaining input plus three,
    and [data[m.marshalBinaryLen():]] is out of range. *)
Lemma Slice_UnmarshalBinary_loop_not_Ok
  (fuel : nat) (s s' : Slice) (d : buffer) :
  0 < blen d -> Slice_UnmarshalBinary_loop (S fuel) s d <> Ok s'.
Proof.
  intros Hd. cbn [Slice_UnmarshalBinary_loop].
  test_true (0 <? blen d).
  destruct (unmarshalBinaryNoCopy zero_Macaroon d) as [m r] eqn:E.
  apply unmarshalBinaryNoCopy_sig_data in E. destruct E as [Hsig Hdata].
  destruct r as [u|e|]; try discriminate.
  rewrite Hdata.
  destruct (slice3 d 0 (blen d) (marshalBinaryLen m)) as [md| |] eqn:E3;
    try discriminate.
  cbn [rbind]. apply slice3_blen in E3.
  unfold marshalBinaryLen, packetSize, set_data, headerLen.
  cbn [data sig]. rewrite Hsig, E3. cbn [sig zero_Macaroon].
  unfold slice_from. change (len []) with 0.
  test_false ((0 <=? blen d + (3 + 0)) && (blen d + (3 + 0) <=? blen d)).
  discriminate.
Qed.

Lemma Slice_UnmarshalBinary_not_Ok (s s' : Slice) (d : bytes) :
  d <> [] -> Slice_UnmarshalBinary growslice s d <> Ok s'.
Proof.
  intros Hd. unfold Slice_UnmarshalBinary.
  apply Slice_UnmarshalBinary_loop_not_Ok.
  unfold blen. rewrite elems_append. cbn [elems nil_buffer app].
  destruct d; [contradiction|]. unfold len. cbn [length]. lia.
Qed.

Lemma Slice_UnmarshalBinary_empty (s : Slice) :
  Slice_UnmarshalBinary growslice s [] = Ok [].
Proof. reflexivity. Qed.

End MacaroonProperties.

Lemma fresh_is_New :
  New exact_fit Example.rootKey Example.ident Example.loc = Ok Example.fresh.
Proof. vm_compute. reflexivity. Qed.

Lemma attenuated_is_SetCaveats :
  SetCaveats exact_fit Example.fresh Example.record
  = (Example.attenuated, Ok tt).
Proof. vm_compute. reflexivity. Qed.

Lemma attenuated_payloads :
  dataBytes Example.attenuated (id Example.attenuated) = Ok Example.ident
  /\ dataBytes Example.attenuated (caveats Example.attenuated)
     = Ok Example.cavData.
Proof. split; vm_compute; reflexivity. Qed.

(** ** Verification of a macaroon without caveats *)

(** C1 on the code. [New("secret", "some id", "a location")] succeeds, and
    [Verify] with the same root key returns "signature mismatch after
    caveat verification", whatever capacities [append] chooses: [verify]
    chains once over the empty payload of the absent caveats packet, which
    [New] did not do. *)
Theorem New_then_Verify_signature_mismatch (growslice : Z -> Z -> nat) :
  exists m,
    New growslice Example.rootKey Example.ident Example.loc = Ok m
    /\ caveats m = zero_packet
    /\ Verify m Example.rootKey = Err ErrSignatureMismatch.
Proof.
  destruct (New_cases growslice Example.rootKey Example.ident Example.loc)
    as [[H _]|[(_ & H & _)|(_ & _ & d & E & _)]];
    [vm_compute in H; discriminate..|].
  eexists. split; [exact E|]. split; [reflexivity|].
  rewrite (New_Verify growslice _ _ _ _ E).
  vm_compute. reflexivity.
Qed.

(** A second [SetCaveats] moves the caveats packet to the new payload while
    the signature chains over both, and [Verify] rejects the result. *)
Lemma SetCaveats_twice_Verify_mismatch :
  SetCaveats exact_fit Example.attenuated Example.record
  = (Example.twice, Ok tt)
  /\ Verify Example.twice Example.rootKey = Err ErrSignatureMismatch.
Proof. split; vm_compute; reflexivity. Qed.

(** ** Witnesses and counterexamples *)

(** C3 as stated fails for an empty root-signature parameter: [verify]
    accepts the attenuated macaroon, although [bindForRequest] of the empty
    parameter and the recomputed signature differs from the stored one. *)
Lemma verify_empty_rootSig_accepts :
  dataBytes Example.attenuated (id Example.attenuated) = Ok Example.ident
  /\ dataBytes Example.attenuated (caveats Example.attenuated)
     = Ok Example.cavData
  /\ bindForRequest [] (chain Example.rootKey Example.ident Example.cavData)
     <> sig Example.attenuated
  /\ verify Example.attenuated [] Example.rootKey = Ok tt.
Proof.
  split; [vm_compute; reflexivity|].
  split; [vm_compute; reflexivity|].
  split; [vm_compute; discriminate|].
  vm_compute. reflexivity.
Qed.

(** C7 as stated fails for JSON unmarshalling: the signature is whatever the
    hex text decodes to, here one byte. *)
Lemma UnmarshalJSON_one_byte_signature :
  exists m,
    UnmarshalJSON exact_fit zero_Macaroon Example.json = (m, Ok tt)
    /\ sig m = [x00] /\ length (sig m) <> 32%nat.
Proof.
  eexists. split; [vm_compute; reflexivity|].
  split; [reflexivity|]. cbn. discriminate.
Qed.

Lemma signature_length_invariant_witness :
  reachable exact_fit
    (Bind Example.attenuated (sig Example.other))
  /\ length (sig (Bind Example.attenuated (sig Example.other))) = 32%nat.
Proof.
  assert (R : reachable exact_fit
                (Bind Example.attenuated (sig Example.other))).
  { apply reach_Bind.
    apply (@reach_SetCaveats exact_fit Example.fresh Example.attenuated
             Example.record (Ok tt)).
    - apply (@reach_New exact_fit Example.rootKey Example.ident Example.loc).
      vm_compute. reflexivity.
    - vm_compute. reflexivity. }
  split; [exact R|].
  exact (signature_length_invariant exact_fit _ R).
Defined.

(** ** Binary round trip *)

(** C5 on the code. The attenuated macaroon marshals to [b]; unmarshalling
    [b] succeeds and gives back the location, identifier and caveats, but
    the signature is empty instead of the 32 stored bytes, the buffer still
    holds the signature packet, and marshalling the result yields [b]
    followed by an empty signature packet.  For every input the signature
    after [UnmarshalBinary] is the one the receiver had before. *)
Theorem binary_round_trip_loses_signature :
  (exists b m2,
     MarshalBinary exact_fit Example.attenuated = Ok b
     /\ UnmarshalBinary exact_fit zero_Macaroon b = (m2, Ok tt)
     /\ Location m2 = Location Example.attenuated
     /\ Id m2 = Id Example.attenuated
     /\ caveatsRaw m2 = caveatsRaw Example.attenuated
     /\ length (sig Example.attenuated) = 32%nat
     /\ sig m2 = []
     /\ elems (data m2) = b
     /\ MarshalBinary exact_fit m2 = Ok (b ++ [x03; x00; x03]))
  /\ (forall growslice m d m' r,
        UnmarshalBinary growslice m d = (m', r) -> sig m' = sig m).
Proof.
  split.
  - eexists. eexists.
    split; [vm_compute; reflexivity|].
    split; [vm_compute; reflexivity|].
    repeat split; vm_compute; reflexivity.
  - intros growslice m d m' r. apply UnmarshalBinary_sig.
Qed.

(** The sibling unmarshalling code of marshal.go, on the same bytes: it
    reads the signature packet, cuts it off the buffer and stores its
    payload as the signature. *)
Lemma Legacy_UnmarshalBinary_recovers_signature :
  exists b m2,
    MarshalBinary exact_fit Example.attenuated = Ok b
    /\ Legacy.UnmarshalBinary exact_fit Legacy.zero_Macaroon b
       = Some (m2, Ok tt)
    /\ Legacy.sig m2 = sig Example.attenuated
    /\ elems (Legacy.data m2) = elems (data Example.attenuated).
Proof.
  eexists. eexists.
  split; [vm_compute; reflexivity|].
  split; [vm_compute; reflexivity|].
  split; reflexivity.
Qed.

(** On the marshalled slice it returns both macaroons, each with its
    signature and with the capacity of its buffer ending where its own
    marshalled form ends. *)
Lemma Legacy_Slice_UnmarshalBinary_pins_capacity :
  exists b m0 m1,
    Slice_MarshalBinary exact_fit [Example.attenuated; Example.other] = Ok b
    /\ Legacy.Slice_UnmarshalBinary exact_fit [] b = Some (Ok [m0; m1])
    /\ Legacy.sig m0 = sig Example.attenuated
    /\ Legacy.sig m1 = sig Example.other
    /\ elems (Legacy.data m0) = elems (data Example.attenuated)
    /\ elems (Legacy.data m1) = elems (data Example.other)
    /\ bcap (Legacy.data m0) = Legacy.marshalBinaryLen m0
    /\ bcap (Legacy.data m1) = Legacy.marshalBinaryLen m1.
Proof.
  eexists. eexists. eexists.
  split; [vm_compute; reflexivity|].
  split; [vm_compute; reflexivity|].
  repeat split.
Qed.

(** C6 on the code. The slice of the two example macaroons marshals to [b];
    [Slice.UnmarshalBinary] of [b] panics, so there is no element 1 to
    compare; and for every capacity policy and every non-empty input the
    call does not return a slice. *)
Theorem Slice_UnmarshalBinary_panics :
  (exists b,
     Slice_MarshalBinary exact_fit [Example.attenuated; Example.other] = Ok b
     /\ Slice_UnmarshalBinary exact_fit [] b = Panic)
  /\ (forall growslice s d s',
        d <> [] -> Slice_UnmarshalBinary growslice s d <> Ok s').
Proof.
  split.
  - eexists. split; [vm_compute; reflexivity|].
    vm_compute. reflexivity.
  - intros growslice s d s'. apply Slice_UnmarshalBinary_not_Ok.
Qed.

(** C8 on the code. On six bytes that declare a packet of total length 0,
    [parsePacket] at offset 0 panics ([data[2:plen]] with [plen < 2]), and
    so does [UnmarshalBinary] of those bytes; the same holds at every
    offset of every buffer where at least six bytes remain and the first
    two declare a length below 2. *)
Theorem parsePacket_panics_on_short_declared_length :
  parsePacket
    (set_data zero_Macaroon (mkBuffer Example.short_length [])) 0 = Panic
  /\ (forall growslice,
        snd (UnmarshalBinary growslice zero_Macaroon Example.short_length)
        = Panic)
  /\ (forall m start plen,
        0 <= start <= blen (data m) ->
        6 <= len (skipn (Z.to_nat start) (elems (data m))) ->
        Uint16 (skipn (Z.to_nat start) (elems (data m))) = Ok plen ->
        plen < 2 ->
        parsePacket m start = Panic).
Proof.
  split; [|split].
  - vm_compute. reflexivity.
  - intros growslice. vm_compute. reflexivity.
  - intros m start plen Hs Hrest HU Hlow.
    destruct (parsePacket_outcomes m start Hs) as [_ H].
    destruct (H Hrest) as (plen' & HU' & _ & _ & _ & Hpanic).
    rewrite HU in HU'. injection HU' as <-. now apply Hpanic.
Qed.

(** * Coverage of the rest of the code *)

(** ** The packet codec, continued *)

Lemma sub_app_inside {A} (a b : list A) (lo hi : Z) :
  0 <= lo <= hi -> hi <= len a -> sub (a ++ b) lo hi = sub a lo hi.
Proof.
  intros Hlo Hhi. unfold sub, len in *.
  rewrite skipn_app, firstn_app.
  replace (Z.to_nat (hi - lo) - length (skipn (Z.to_nat lo) a))%nat
    with 0%nat by (rewrite length_skipn; lia).
  cbn [firstn]. now rewrite app_nil_r.
Qed.

Lemma len_sub {A} (a : list A) (lo hi : Z) :
  0 <= lo <= hi -> hi <= len a -> len (sub a lo hi) = hi - lo.
Proof.
  intros Hlo Hhi. unfold sub, len in *.
  rewrite length_firstn, length_skipn. lia.
Qed.

(** What [dataBytes] returns for a packet inside the visible buffer. *)
Lemma dataBytes_within (m : Macaroon) (p : packet) :
  within (data m) p ->
  dataBytes m p
  = Ok (if totalLen p =? 0 then []
        else sub (elems (data m)) (int32 (start p + headerLen))
                 (int32 (start p + int32 (totalLen p)))).
Proof.
  intros W. unfold dataBytes.
  destruct (Z.eqb_spec (totalLen p) 0) as [E|E]; [reflexivity|].
  destruct W as [W|(H0 & H1 & H2)]; [contradiction|].
  destruct (slice2_within (data m) _ _ (conj H0 H1) H2) as (b' & -> & Eb).
  cbn [rbind]. now rewrite Eb.
Qed.

Lemma within_app (b b' : buffer) (xs : bytes) (p : packet) :
  elems b' = elems b ++ xs -> within b p -> within b' p.
Proof.
  intros E [W|(H0 & H1 & H2)]; [now left|right].
  repeat split; try assumption.
  unfold blen in *. rewrite E, len_app. pose proof (len_nonneg xs). lia.
Qed.

Section Coverage.

Variable growslice : Z -> Z -> nat.

(** X1. Appending a packet never disturbs what is already there: the old
    buffer is a prefix of the new one, and every packet that lay inside the
    old buffer still has the same payload. *)
Theorem appendPacket_keeps_packets
  (m m' : Macaroon) (f : field) (payload : bytes) (p q : packet) (ok : bool) :
  appendPacket growslice m f payload = (m', p, ok) ->
  within (data m) q ->
  (exists added, elems (data m') = elems (data m) ++ added)
  /\ within (data m') q
  /\ dataBytes m' q = dataBytes m q.
Proof.
  intros HA W.
  assert (Hpre : exists added, elems (data m') = elems (data m) ++ added).
  { destruct (Z.ltb_spec 65535 (3 + len payload)) as [Hbig|Hfit].
    - rewrite appendPacket_too_big in HA by assumption.
      injection HA as <- _ _. exists []. now rewrite app_nil_r.
    - destruct (appendPacket_fits growslice m f payload Hfit) as (d' & E & Ed).
      rewrite E in HA. injection HA as <- _ _.
      eexists. cbn [data set_data]. exact Ed. }
  destruct Hpre as (added & E).
  assert (W' : within (data m') q) by (eapply within_app; eauto).
  split; [eauto|]. split; [exact W'|].
  rewrite !dataBytes_within by assumption.
  destruct (totalLen q =? 0) eqn:Z0; [reflexivity|].
  destruct W as [W|(H0 & H1 & H2)];
    [apply Z.eqb_neq in Z0; contradiction|].
  rewrite E. f_equal. apply sub_app_inside; [lia|exact H2].
Qed.

(** X2. What [appendPacket] writes, [parsePacket] reads back: when the
    payload has at least three bytes (so that six bytes remain at the
    packet's offset) and the offsets fit an [int32], parsing at the old
    end of the buffer returns the very packet that was appended, with its
    tag and its payload. *)
Theorem appendPacket_parsePacket
  (m m' : Macaroon) (f : field) (payload : bytes) (p : packet) :
  3 <= len payload ->
  3 + len payload <= 65535 ->
  blen (data m) + 3 + len payload <= 2147483647 ->
  appendPacket growslice m f payload = (m', p, true) ->
  parsePacket m' (blen (data m)) = Ok p
  /\ fieldNum m' p = Ok f
  /\ dataBytes m' p = Ok payload.
Proof.
  intros Hmin Hfit Hmax HA.
  destruct (appendPacket_fits growslice m f payload Hfit) as (d' & E & Ed).
  rewrite E in HA.
  assert (Em : m' = set_data m d') by congruence.
  assert (Ep : p = mkPacket (int32 (blen (data m))) (3 + len payload) 0)
    by congruence.
  subst m' p. clear HA.
  pose proof (len_nonneg (elems (data m))) as Hd.
  pose proof (len_nonneg payload) as Hp.
  unfold blen in *.
  fold (packet_bytes f payload) in Ed.
  assert (Hskip : skipn (Z.to_nat (len (elems (data m)))) (elems d')
                  = packet_bytes f payload).
  { rewrite Ed. unfold len. rewrite Nat2Z.id. apply skipn_length_app. }
  assert (Hlen' : len (elems d') = len (elems (data m)) + (3 + len payload)).
  { now rewrite Ed, len_app, len_packet_bytes. }
  split; [|split].
  - destruct (parsePacket_outcomes (set_data m d') (len (elems (data m))))
      as [_ H].
    { cbn [data set_data]. unfold blen. lia. }
    cbn [data set_data] in H. rewrite Hskip, len_packet_bytes in H.
    destruct H as (plen & HU & _ & _ & Hok & _); [lia|].
    unfold packet_bytes in HU.
    rewrite Uint16_PutUint16 in HU by lia.
    assert (Epl : plen = 3 + len payload) by congruence. subst plen.
    rewrite Hok by lia. reflexivity.
  - unfold fieldNum, index. cbn [totalLen start data set_data].
    test_false (3 + len payload =? 0).
    rewrite (int32_small (len (elems (data m)))) by lia.
    rewrite (int32_small (len (elems (data m)) + 2)) by lia.
    unfold blen.
    test_true ((0 <=? len (elems (data m)) + 2)
               && (len (elems (data m)) + 2 <? len (elems d'))).
    f_equal. rewrite Ed. unfold packet_bytes, len.
    replace (Z.to_nat (Z.of_nat (length (elems (data m))) + 2))
      with (length (elems (data m)) + 2)%nat by lia.
    rewrite app_nth2_plus. reflexivity.
  - apply dataBytes_packet with (pre := elems (data m)) (f := f) (post := []).
    + cbn [data set_data]. now rewrite Ed, app_nil_r.
    + lia.
    + apply int32_small. lia.
Qed.

(** X3. A packet whose payload is shorter than three bytes cannot be read
    back while it is the last thing in the buffer: fewer than six bytes
    remain at its offset, and [parsePacket] answers "packet too short". *)
Theorem appendPacket_short_payload_not_parsed
  (m m' : Macaroon) (f : field) (payload : bytes) (p : packet) :
  len payload < 3 ->
  appendPacket growslice m f payload = (m', p, true) ->
  parsePacket m' (blen (data m)) = Err ErrPacketTooShort.
Proof.
  intros Hshort HA.
  pose proof (len_nonneg payload) as Hp.
  assert (Hfit : 3 + len payload <= 65535) by lia.
  destruct (appendPacket_fits growslice m f payload Hfit) as (d' & E & Ed).
  rewrite E in HA.
  assert (Em : m' = set_data m d') by congruence.
  assert (Ep : p = mkPacket (int32 (blen (data m))) (3 + len payload) 0)
    by congruence.
  subst m' p. clear HA.
  pose proof (len_nonneg (elems (data m))) as Hd.
  fold (packet_bytes f payload) in Ed.
  destruct (parsePacket_outcomes (set_data m d') (blen (data m))) as [H _].
  { cbn [data set_data]. unfold blen. rewrite Ed, len_app, len_packet_bytes.
    lia. }
  apply H. cbn [data set_data]. rewrite Ed. unfold blen, len at 2.
  rewrite Nat2Z.id, skipn_length_app, len_packet_bytes. lia.
Qed.


(** A packet that [parsePacket] returns, and where it lies. *)
Lemma parsePacket_ok_inv (m : Macaroon) (pos : Z) (p : packet) :
  parsePacket m pos = Ok p ->
  0 <= pos
  /\ 6 <= blen (data m) - pos
  /\ p = mkPacket (int32 pos) (totalLen p) 0
  /\ 2 <= totalLen p <= 65535
  /\ pos + totalLen p <= blen (data m)
  /\ (3 <= totalLen p -> pos + totalLen p <= 2147483647 ->
      within (data m) p
      /\ fieldNum m p = Ok (nth (Z.to_nat (pos + 2)) (elems (data m)) x00)
      /\ exists payload,
           dataBytes m p = Ok payload /\ len payload = totalLen p - 3).
Proof.
  intros HP.
  destruct (Z.ltb_spec pos 0) as [Hneg|Hnn];
    [rewrite parsePacket_out_of_range in HP by lia; discriminate|].
  destruct (Z.ltb_spec (blen (data m)) pos) as [Hout|Hin];
    [rewrite parsePacket_out_of_range in HP by lia; discriminate|].
  destruct (parsePacket_outcomes m pos (conj Hnn Hin)) as [Hshort Hlong].
  assert (Hrest : len (skipn (Z.to_nat pos) (elems (data m)))
                  = blen (data m) - pos).
  { unfold blen, len in *. rewrite length_skipn. lia. }
  rewrite Hrest in Hshort, Hlong.
  destruct (Z.ltb_spec (blen (data m) - pos) 6) as [H6|H6];
    [rewrite Hshort in HP by assumption; discriminate|].
  destruct (Hlong H6) as (plen & _ & Hrange & Hbig & Hok & Hlow).
  destruct (Z.ltb_spec (blen (data m) - pos) plen) as [Hb|Hb];
    [rewrite Hbig in HP by assumption; discriminate|].
  destruct (Z.ltb_spec plen 2) as [Hl|Hl];
    [rewrite Hlow in HP by assumption; discriminate|].
  rewrite Hok in HP by lia.
  assert (Ep : p = mkPacket (int32 pos) plen 0) by congruence.
  subst p. clear HP. cbn [start totalLen].
  split; [lia|]. split; [lia|]. split; [reflexivity|].
  split; [lia|]. split; [lia|].
  intros H3 Hmax.
  assert (W : within (data m) (mkPacket (int32 pos) plen 0)).
  { right. unfold headerLen. cbn [start totalLen].
    rewrite (int32_small pos), (int32_small plen) by lia.
    rewrite (int32_small (pos + 3)), (int32_small (pos + plen)) by lia.
    lia. }
  split; [exact W|]. split.
  - unfold fieldNum, index. cbn [start totalLen].
    test_false (plen =? 0).
    rewrite (int32_small pos) by lia.
    rewrite (int32_small (pos + 2)) by lia.
    test_true ((0 <=? pos + 2) && (pos + 2 <? blen (data m))).
    reflexivity.
  - rewrite (dataBytes_within m _ W). cbn [start totalLen].
    test_false (plen =? 0). eexists. split; [reflexivity|].
    unfold headerLen.
    rewrite (int32_small pos), (int32_small plen) by lia.
    rewrite (int32_small (pos + 3)), (int32_small (pos + plen)) by lia.
    rewrite len_sub; unfold blen in *; lia.
Qed.

(** X4. A packet that [parsePacket] returns lies inside the buffer: at least
    six bytes remained at the offset, the declared length is between 2 and
    what remains, and the packet ends within the buffer.  When moreover the
    declared length covers the 3-byte header and the offsets fit an
    [int32], its tag and payload can be read without a panic, the payload
    having the declared length minus three bytes. *)
Theorem parsePacket_ok_inside (m : Macaroon) (pos : Z) (p : packet) :
  parsePacket m pos = Ok p ->
  0 <= pos
  /\ 6 <= blen (data m) - pos
  /\ start p = int32 pos
  /\ 2 <= totalLen p <= 65535
  /\ pos + totalLen p <= blen (data m)
  /\ (3 <= totalLen p -> pos + totalLen p <= 2147483647 ->
      within (data m) p
      /\ fieldNum m p = Ok (nth (Z.to_nat (pos + 2)) (elems (data m)) x00)
      /\ exists payload,
           dataBytes m p = Ok payload /\ len payload = totalLen p - 3).
Proof.
  intros HP. apply parsePacket_ok_inv in HP.
  destruct HP as (H0 & H6 & Ep & Hr & Hin & Hrest).
  repeat (split; [first [assumption | now rewrite Ep]|]).
  exact Hrest.
Qed.

(** ** Construction, continued *)

(** X5. [New] reports the location before the identifier: a location that
    does not fit a packet gives "macaroon location too big" whatever the
    identifier is, and an identifier that does not fit gives "macaroon
    identifier too big" only when the location fits. *)
Theorem New_too_big (rootKey id' loc : bytes) :
  (65535 < 3 + len loc ->
   New growslice rootKey id' loc = Err ErrLocationTooBig)
  /\ (3 + len loc <= 65535 -> 65535 < 3 + len id' ->
      New growslice rootKey id' loc = Err ErrIdentifierTooBig)
  /\ (forall m, New growslice rootKey id' loc = Ok m ->
      len loc <= 65532 /\ len id' <= 65532).
Proof.
  destruct (New_cases growslice rootKey id' loc)
    as [[H E]|[(H1 & H2 & E)|(H1 & H2 & d & E & _)]]; rewrite E.
  - split; [reflexivity|]. split; [lia|]. discriminate.
  - split; [lia|]. split; [reflexivity|]. discriminate.
  - split; [lia|]. split; [lia|]. intros m _. lia.
Qed.

(** X6. When both fields fit, [New] succeeds, and what it stored comes
    back: [Location] and [Id] return the arguments, there is no caveats
    payload, the signature is the keyed hash of the identifier under the
    root key, and the buffer is the location packet followed by the
    identifier packet. *)
Theorem New_stores_fields (rootKey id' loc : bytes) :
  len loc <= 65532 -> len id' <= 65532 ->
  exists m,
    New growslice rootKey id' loc = Ok m
    /\ Location m = Ok loc
    /\ Id m = Ok id'
    /\ caveatsRaw m = Ok []
    /\ Signature m = keyedHash rootKey id'
    /\ elems (data m)
       = packet_bytes fieldLocation loc ++ packet_bytes fieldIdentifier id'.
Proof.
  intros Hloc Hid.
  destruct (New_cases growslice rootKey id' loc)
    as [[H _]|[(_ & H & _)|(_ & _ & d & E & Ed)]]; try lia.
  eexists. split; [exact E|].
  destruct (New_dataBytes growslice rootKey id' loc _ E)
    as (Hi & Hc & Hl & Hs).
  unfold Location, Id, caveatsRaw, dataStr, Signature.
  repeat split; try assumption.
Qed.

(** ** Binary marshalling, continued *)

Lemma appendBinary_cases (m : Macaroon) (d : buffer) :
  (65535 < 3 + len (sig m)
   /\ appendBinary growslice m d = Err ErrAppendSignature)
  \/ (3 + len (sig m) <= 65535
      /\ exists d',
           appendBinary growslice m d = Ok d'
           /\ elems d' = elems d ++ elems (data m)
                         ++ packet_bytes fieldSignature (sig m)).
Proof.
  unfold appendBinary.
  destruct (Z.ltb_spec 65535 (3 + len (sig m))) as [Hbig|Hfit].
  - left. split; [assumption|].
    now rewrite rawAppendPacket_too_big.
  - right. split; [assumption|].
    destruct (rawAppendPacket_fits growslice
                (append growslice d (elems (data m))) fieldSignature
                (sig m) Hfit) as (d' & -> & Ed).
    cbn [negb]. exists d'. split; [reflexivity|].
    rewrite Ed, elems_append, <- app_assoc. reflexivity.
Qed.

(** The two outcomes of [MarshalBinary]. *)
Lemma MarshalBinary_cases (m : Macaroon) :
  (65532 < len (sig m)
   /\ MarshalBinary growslice m = Err ErrAppendSignature)
  \/ (len (sig m) <= 65532
      /\ MarshalBinary growslice m
         = Ok (elems (data m) ++ packet_bytes fieldSignature (sig m))
      /\ len (elems (data m) ++ packet_bytes fieldSignature (sig m))
         = marshalBinaryLen m).
Proof.
  unfold MarshalBinary.
  destruct (appendBinary_cases m (make0 (marshalBinaryLen m)))
    as [[H E]|(H & d' & E & Ed)]; rewrite E; cbn [rbind].
  - left. split; [lia|reflexivity].
  - right. split; [lia|]. split.
    + now rewrite Ed.
    + rewrite len_app, len_packet_bytes.
      unfold marshalBinaryLen, packetSize, blen, headerLen. lia.
Qed.

(** X7. [MarshalBinary] fails only when the signature does not fit a packet
    (more than 65532 bytes); otherwise it returns the macaroon's buffer
    followed by one signature packet, and the length of the result is what
    [marshalBinaryLen] announced. *)
Theorem MarshalBinary_layout (m : Macaroon) :
  (65532 < len (sig m)
   /\ MarshalBinary growslice m = Err ErrAppendSignature)
  \/ (len (sig m) <= 65532
      /\ MarshalBinary growslice m
         = Ok (elems (data m) ++ packet_bytes fieldSignature (sig m))
      /\ len (elems (data m) ++ packet_bytes fieldSignature (sig m))
         = marshalBinaryLen m).
Proof. apply MarshalBinary_cases. Qed.

Lemma Slice_appendAll_concat (s : Slice) (d : buffer) :
  Forall (fun m => len (sig m) <= 65532) s ->
  exists d',
    Slice_appendAll growslice s d = Ok d'
    /\ elems d'
       = elems d
         ++ flat_map (fun m => elems (data m)
                               ++ packet_bytes fieldSignature (sig m)) s.
Proof.
  intros H. revert d.
  induction H as [|m s Hm _ IH]; intros d; cbn [Slice_appendAll flat_map].
  - exists d. now rewrite app_nil_r.
  - destruct (appendBinary_cases m d) as [[Hbig _]|(_ & d1 & -> & E1)];
      [lia|].
    destruct (IH d1) as (d' & -> & E').
    exists d'. split; [reflexivity|].
    now rewrite E', E1, <- !app_assoc.
Qed.

(** X8. A slice marshals to the concatenation of its members' binary forms,
    in order and with no separator, whenever every member's signature fits
    a packet. *)
Theorem Slice_MarshalBinary_concat (s : Slice) :
  Forall (fun m => len (sig m) <= 65532) s ->
  Slice_MarshalBinary growslice s
  = Ok (flat_map (fun m => elems (data m)
                           ++ packet_bytes fieldSignature (sig m)) s)
  /\ forall bs,
       Forall2 (fun m b => MarshalBinary growslice m = Ok b) s bs ->
       Slice_MarshalBinary growslice s = Ok (concat bs).
Proof.
  intros H. unfold Slice_MarshalBinary.
  match goal with |- context [Slice_appendAll _ _ ?d] =>
    destruct (Slice_appendAll_concat s d H) as (d' & E & Ed)
  end.
  rewrite E. cbn [rbind]. rewrite Ed. cbn [elems make0 app].
  split; [reflexivity|].
  intros bs HF. f_equal. clear E Ed d'.
  induction HF as [|m b s bs Hb _ IH]; [reflexivity|].
  inversion H as [|? ? Hm Hs]; subst.
  cbn [flat_map concat]. rewrite (IH Hs). f_equal.
  destruct (MarshalBinary_cases m) as [[Hbig _]|(_ & E & _)]; [lia|].
  congruence.
Qed.

(** ** Binary unmarshalling, continued *)

(** X9. An input of fewer than six bytes, the empty one included, is
    rejected with "packet too short" by [UnmarshalBinary]; and
    [Slice.UnmarshalBinary] wraps that error for an input of one to five
    bytes. *)
Theorem UnmarshalBinary_short_input (m : Macaroon) (s : Slice) (d : bytes) :
  len d < 6 ->
  snd (UnmarshalBinary growslice m d) = Err ErrPacketTooShort
  /\ (d <> [] ->
      Slice_UnmarshalBinary growslice s d
      = Err (ErrCannotUnmarshal ErrPacketTooShort)).
Proof.
  intros Hd.
  assert (HP : forall m0,
             parsePacket (set_data m0 (append growslice nil_buffer d)) 0
             = Err ErrPacketTooShort).
  { intros m0. pose proof (len_nonneg d) as Hnn.
    destruct (parsePacket_outcomes
                (set_data m0 (append growslice nil_buffer d)) 0) as [H _].
    - cbn [data set_data]. unfold blen. rewrite elems_append.
      cbn [elems nil_buffer app]. lia.
    - apply H. cbn [data set_data]. rewrite elems_append.
      cbn [elems nil_buffer app Z.to_nat skipn]. exact Hd. }
  assert (HU : forall m0,
             snd (unmarshalBinaryNoCopy m0 (append growslice nil_buffer d))
             = Err ErrPacketTooShort).
  { intros m0. unfold unmarshalBinaryNoCopy.
    rewrite (expectPacket_error _ 0 fieldLocation _ (HP m0)). reflexivity. }
  split.
  - apply HU.
  - intros Hne. unfold Slice_UnmarshalBinary.
    cbn [Slice_UnmarshalBinary_loop].
    assert (Hpos : 0 < blen (append growslice nil_buffer d)).
    { unfold blen. rewrite elems_append. cbn [elems nil_buffer app].
      destruct d; [contradiction|]. unfold len. cbn [length]. lia. }
    test_true (0 <? blen (append growslice nil_buffer d)).
    { specialize (HU zero_Macaroon).
      destruct (unmarshalBinaryNoCopy zero_Macaroon
                  (append growslice nil_buffer d)) as [m1 r].
      cbn [snd] in HU. now subst r. }
Qed.


Lemma expectPacket_ok_inv (m : Macaroon) (pos next : Z) (kind : field)
  (p : packet) :
  expectPacket m pos kind = Ok (next, p) ->
  parsePacket m pos = Ok p /\ fieldNum m p = Ok kind
  /\ next = pos + totalLen p.
Proof.
  unfold expectPacket.
  destruct (parsePacket m pos) as [p0| |]; try discriminate. cbn [rbind].
  destruct (fieldNum m p0) as [f| |] eqn:F; try discriminate. cbn [rbind].
  destruct (Byte.eqb f kind) eqn:E; [|discriminate]. cbn [negb].
  apply byte_eqb_eq in E. unfold packet_len.
  intros H. injection H as Hn Hp. subst p0 f.
  repeat split; [assumption|now symmetry].
Qed.

(** X10. What a successful [UnmarshalBinary] has established: the buffer is
    the whole input, the receiver's signature is untouched, and the input
    starts with three packets laid end to end and tagged location,
    identifier and caveat; at least six bytes had to remain at the caveat
    packet, and bytes after it are accepted unread. *)
Theorem UnmarshalBinary_ok_layout (m m' : Macaroon) (d : bytes) :
  UnmarshalBinary growslice m d = (m', Ok tt) ->
  elems (data m') = d
  /\ sig m' = sig m
  /\ exists l1 l2 l3,
       location m' = mkPacket 0 l1 0
       /\ id m' = mkPacket (int32 l1) l2 0
       /\ caveats m' = mkPacket (int32 (l1 + l2)) l3 0
       /\ 2 <= l1 /\ 2 <= l2 /\ 2 <= l3
       /\ l1 + l2 + 6 <= len d
       /\ l1 + l2 + l3 <= len d
       /\ fieldNum m' (location m') = Ok fieldLocation
       /\ fieldNum m' (id m') = Ok fieldIdentifier
       /\ fieldNum m' (caveats m') = Ok fieldCaveat.
Proof.
  unfold UnmarshalBinary, unmarshalBinaryNoCopy.
  set (b := append growslice nil_buffer d).
  assert (Eb : elems b = d)
    by (unfold b; rewrite elems_append; reflexivity).
  destruct (expectPacket (set_data m b) 0 fieldLocation)
    as [[s1 p1]| |] eqn:E1; try (intros [=]; fail).
  destruct (expectPacket (set_location (set_data m b) p1) s1 fieldIdentifier)
    as [[s2 p2]| |] eqn:E2; try (intros [=]; fail).
  destruct (expectPacket (set_id (set_location (set_data m b) p1) p2) s2
              fieldCaveat) as [[s3 p3]| |] eqn:E3; try (intros [=]; fail).
  intros H. assert (Em : m' = set_caveats
                            (set_id (set_location (set_data m b) p1) p2) p3)
    by congruence. subst m'. clear H.
  apply expectPacket_ok_inv in E1, E2, E3.
  destruct E1 as (P1 & F1 & ->), E2 as (P2 & F2 & ->), E3 as (P3 & F3 & ->).
  apply parsePacket_ok_inv in P1, P2, P3.
  cbn [data set_data set_location set_id set_caveats] in *.
  destruct P1 as (_ & _ & S1 & R1 & In1 & _).
  destruct P2 as (_ & _ & S2 & R2 & In2 & _).
  destruct P3 as (_ & Six & S3 & R3 & In3 & _).
  unfold blen in *. rewrite Eb in In1, In2, In3, Six.
  split; [exact Eb|]. split; [reflexivity|].
  exists (totalLen p1), (totalLen p2), (totalLen p3).
  cbn [location id caveats set_caveats set_id set_location set_data].
  rewrite !Z.add_0_l in *. change (int32 0) with 0 in S1.
  unfold fieldNum in *.
  cbn [data set_caveats set_id set_location set_data] in *.
  repeat split; try lia; assumption.
Qed.


(** ** Caveats *)

Lemma valToBytes_not_Err (val : govalue) (e : error) : valToBytes val <> Err e.
Proof. destruct val as [| | | | | | | | | | | | |[|]|]; discriminate. Qed.

Lemma MarshalCaveats_from_not_Err
  (fields : gostruct) (i : Z) (out : bytes) (e : error) :
  MarshalCaveats_from i fields out <> Err e.
Proof.
  revert i out. induction fields as [|f rest IH]; intros i out;
    cbn [MarshalCaveats_from]; [discriminate|].
  destruct f as [|val|]; [apply IH| |discriminate].
  destruct (valToBytes val) as [b|e'|] eqn:E; cbn [rbind].
  - apply IH.
  - now apply valToBytes_not_Err in E.
  - discriminate.
Qed.

(** The three outcomes of [SetCaveats]. *)
Lemma SetCaveats_cases (m : Macaroon) (v : gostruct) :
  (MarshalCaveats v = Panic /\ SetCaveats growslice m v = (m, Panic))
  \/ (exists cavData,
        MarshalCaveats v = Ok cavData /\ 65532 < len cavData
        /\ SetCaveats growslice m v
           = (mkMacaroon (data m) (location m) (id m) zero_packet (sig m),
              Err ErrCaveatTooBig))
  \/ (exists cavData d',
        MarshalCaveats v = Ok cavData /\ len cavData <= 65532
        /\ SetCaveats growslice m v
           = (mkMacaroon d' (location m) (id m)
                (mkPacket (int32 (blen (data m))) (3 + len cavData) 0)
                (keyedHash (sig m) cavData),
              Ok tt)
        /\ elems d' = elems (data m) ++ packet_bytes fieldCaveat cavData).
Proof.
  unfold SetCaveats.
  destruct (MarshalCaveats v) as [cavData|e|] eqn:EM.
  - right.
    destruct (Z.ltb_spec 65535 (3 + len cavData)) as [Hbig|Hfit].
    + left. exists cavData. split; [reflexivity|]. split; [lia|].
      rewrite appendPacket_too_big by assumption. reflexivity.
    + right.
      destruct (appendPacket_fits growslice m fieldCaveat cavData Hfit)
        as (d' & -> & Ed).
      exists cavData, d'. split; [reflexivity|]. split; [lia|].
      split; [reflexivity|exact Ed].
  - now apply MarshalCaveats_from_not_Err in EM.
  - left. split; reflexivity.
Qed.

(** X11. The three outcomes of [SetCaveats].  If the serialiser panics the
    macaroon is untouched.  If the payload does not fit a packet the call
    returns "caveat identifier too big", its only error: buffer and
    signature are as before, but the caveats reference has been reset to
    the absent packet.  Otherwise one caveat packet is appended, the
    caveats reference points at it, and the signature becomes the keyed
    hash of the payload under the previous signature. *)
Theorem SetCaveats_outcomes (m : Macaroon) (v : gostruct) :
  (MarshalCaveats v = Panic /\ SetCaveats growslice m v = (m, Panic))
  \/ (exists cavData,
        MarshalCaveats v = Ok cavData /\ 65532 < len cavData
        /\ SetCaveats growslice m v
           = (mkMacaroon (data m) (location m) (id m) zero_packet (sig m),
              Err ErrCaveatTooBig))
  \/ (exists cavData d',
        MarshalCaveats v = Ok cavData /\ len cavData <= 65532
        /\ SetCaveats growslice m v
           = (mkMacaroon d' (location m) (id m)
                (mkPacket (int32 (blen (data m))) (3 + len cavData) 0)
                (keyedHash (sig m) cavData),
              Ok tt)
        /\ elems d' = elems (data m) ++ packet_bytes fieldCaveat cavData).
Proof. apply SetCaveats_cases. Qed.


(** ** Macaroons that the package builds *)

Lemma within_zero_packet (b : buffer) : within b zero_packet.
Proof. now left. Qed.

Lemma inside_within (b : buffer) (p : packet) :
  blen b <= 2147483647 -> inside b p -> within b p.
Proof.
  intros Hmax [Z0|(H0 & Ht & He)]; [now left|right].
  unfold headerLen.
  rewrite (int32_small (totalLen p)) by lia.
  rewrite (int32_small (start p + 3)) by lia.
  rewrite (int32_small (start p + totalLen p)) by lia.
  lia.
Qed.

Lemma inside_app (b b' : buffer) (xs : bytes) (p : packet) :
  elems b' = elems b ++ xs -> inside b p -> inside b' p.
Proof.
  intros E [Z0|(H0 & Ht & He)]; [now left|right].
  repeat split; try lia.
  unfold blen in *. rewrite E, len_app. pose proof (len_nonneg xs). lia.
Qed.

(** The payload of a packet inside the buffer: it can be read, and it has
    the packet's length less the header. *)
Lemma dataBytes_inside (m : Macaroon) (p : packet) :
  blen (data m) <= 2147483647 -> inside (data m) p ->
  exists payload,
    dataBytes m p = Ok payload /\ len payload <= 65532
    /\ (totalLen p <> 0 ->
        3 + len payload = totalLen p
        /\ payload = sub (elems (data m)) (start p + 3)
                        (start p + totalLen p)).
Proof.
  intros Hmax I.
  rewrite (dataBytes_within m p (inside_within _ _ Hmax I)).
  destruct I as [Z0|(H0 & Ht & He)].
  - rewrite Z0. cbn. exists []. split; [reflexivity|].
    split; [unfold len; cbn; lia|]. intros H. now contradiction H.
  - test_false (totalLen p =? 0). unfold headerLen.
    rewrite (int32_small (totalLen p)) by lia.
    rewrite (int32_small (start p + 3)) by lia.
    rewrite (int32_small (start p + totalLen p)) by lia.
    eexists. split; [reflexivity|].
    rewrite len_sub by (unfold blen in *; lia).
    split; [lia|]. intros _. split; [lia|reflexivity].
Qed.

(** The packets of a macaroon built by [New], [SetCaveats] and [Bind] lie
    inside its buffer, as long as the buffer has fewer than 2^31 bytes. *)
Lemma reachable_inside (m : Macaroon) :
  reachable growslice m ->
  blen (data m) <= 2147483647 ->
  inside (data m) (location m) /\ inside (data m) (id m)
  /\ inside (data m) (caveats m).
Proof.
  induction 1 as [rootKey id' loc m HN|m m' v r _ IH HS|m s _ IH];
    intros Hmax.
  - destruct (New_cases growslice rootKey id' loc)
      as [[_ E]|[(_ & _ & E)|(Hloc & Hid & d & E & Ed)]];
      rewrite E in HN; try discriminate.
    assert (Em : m = mkMacaroon d (mkPacket 0 (3 + len loc) 0)
                       (mkPacket (3 + len loc) (3 + len id') 0)
                       zero_packet (Hmac.sum rootKey id')) by congruence.
    subst m. clear HN E. cbn [data location id caveats] in *.
    pose proof (len_nonneg loc). pose proof (len_nonneg id').
    assert (Hb : blen d = 3 + len loc + (3 + len id'))
      by (unfold blen; rewrite Ed, len_app, !len_packet_bytes; reflexivity).
    split; [|split]; [right|right|now left]; cbn [start totalLen]; lia.
  - destruct (SetCaveats_cases m v)
      as [[_ E]|[(cav & _ & _ & E)|(cav & d' & _ & Hc & E & Ed)]];
      rewrite E in HS.
    + assert (m' = m) by congruence. subst m'. now apply IH.
    + assert (Em : m' = mkMacaroon (data m) (location m) (id m) zero_packet
                          (sig m)) by congruence.
      subst m'. cbn [data location id caveats] in *.
      destruct (IH Hmax) as (Wl & Wi & _).
      repeat split; try assumption. now left.
    + assert (Em : m' = mkMacaroon d' (location m) (id m)
                          (mkPacket (int32 (blen (data m))) (3 + len cav) 0)
                          (keyedHash (sig m) cav)) by congruence.
      subst m'. cbn [data location id caveats] in *.
      pose proof (len_nonneg cav). pose proof (len_nonneg (elems (data m))).
      assert (Hb : blen d' = blen (data m) + (3 + len cav))
        by (unfold blen; now rewrite Ed, len_app, len_packet_bytes).
      destruct IH as (Wl & Wi & _); [lia|].
      split; [eapply inside_app; eauto|].
      split; [eapply inside_app; eauto|].
      right. unfold blen in *. cbn [start totalLen].
      rewrite (int32_small (len (elems (data m)))) by lia.
      lia.
  - unfold Bind, set_sig. cbn [data location id caveats] in *.
    now apply IH.
Qed.

Lemma reachable_within (m : Macaroon) :
  reachable growslice m ->
  blen (data m) <= 2147483647 ->
  within (data m) (location m) /\ within (data m) (id m)
  /\ within (data m) (caveats m).
Proof.
  intros R Hmax.
  destruct (reachable_inside m R Hmax) as (Il & Ii & Ic).
  repeat split; now apply inside_within.
Qed.

(** X12. On a macaroon built by [New], [SetCaveats] and [Bind] whose buffer
    has fewer than 2^31 bytes, nothing panics: [Location], [Id] and the
    caveats payload can always be read, and [Verify] returns nil or the
    signature-mismatch error. *)
Theorem reachable_never_panics (m : Macaroon) (rootKey : bytes) :
  reachable growslice m ->
  blen (data m) <= 2147483647 ->
  (exists l i c,
     Location m = Ok l /\ Id m = Ok i /\ caveatsRaw m = Ok c)
  /\ (Verify m rootKey = Ok tt
      \/ Verify m rootKey = Err ErrSignatureMismatch).
Proof.
  intros R Hmax.
  destruct (reachable_within m R Hmax) as (Wl & Wi & Wc).
  pose proof (dataBytes_within m _ Wl) as El.
  pose proof (dataBytes_within m _ Wi) as Ei.
  pose proof (dataBytes_within m _ Wc) as Ec.
  split.
  - unfold Location, Id, caveatsRaw, dataStr.
    do 3 eexists. repeat split; eassumption.
  - rewrite (Verify_unfold m rootKey _ _ Ei Ec).
    destruct (hmac_Equal _ _); auto.
Qed.


(** ** JSON *)

Lemma hex_byte_round_trip (b : byte) :
  let hi := N.shiftr (Byte.to_N b) 4 in
  let lo := N.land (Byte.to_N b) 15 in
  fromHexChar (hex_digit hi) = Some hi
  /\ fromHexChar (hex_digit lo) = Some lo
  /\ byte_of_N (N.lor (N.shiftl hi 4) lo) = b.
Proof. destruct b; vm_compute; auto. Qed.

Lemma hex_Decode_Encode (b acc : bytes) :
  hex_Decode (hex_EncodeToString b) acc = (acc ++ b, None).
Proof.
  revert acc. induction b as [|x b IH]; intros acc.
  - cbn. now rewrite app_nil_r.
  - destruct (hex_byte_round_trip x) as (Hhi & Hlo & Hb). cbv zeta in *.
    unfold hex_EncodeToString. cbn [flat_map app hex_Decode].
    rewrite Hhi, Hlo, Hb.
    fold (hex_EncodeToString b). rewrite IH, <- app_assoc. reflexivity.
Qed.

(** [hex.DecodeString] undoes [hex.EncodeToString]. *)
Lemma hex_DecodeString_EncodeToString (b : bytes) :
  hex_DecodeString (hex_EncodeToString b) = (b, None).
Proof. apply hex_Decode_Encode. Qed.

(** [init] on a macaroon just declared, when both fields fit. *)
Lemma init_zero_fits (id' loc : bytes) :
  len loc <= 65532 -> len id' <= 65532 ->
  exists d,
    init growslice zero_Macaroon id' loc
    = (mkMacaroon d (mkPacket 0 (3 + len loc) 0)
         (mkPacket (3 + len loc) (3 + len id') 0) zero_packet [], None)
    /\ elems d = packet_bytes fieldLocation loc
                 ++ packet_bytes fieldIdentifier id'.
Proof.
  intros Hloc Hid. unfold init.
  pose proof (len_nonneg loc). pose proof (len_nonneg id').
  destruct (appendPacket_fits growslice zero_Macaroon fieldLocation loc)
    as (d1 & -> & E1); [lia|].
  cbn [negb]. cbn [elems data zero_Macaroon nil_buffer app] in E1.
  change (elems d1 = packet_bytes fieldLocation loc) in E1.
  match goal with |- context [appendPacket _ ?m _ _] =>
    destruct (appendPacket_fits growslice m fieldIdentifier id')
      as (d2 & -> & E2); [lia|]
  end.
  cbn [negb]. cbn [data set_location set_data] in E2 |- *.
  fold (packet_bytes fieldIdentifier id') in E2. rewrite E1 in E2.
  assert (Hb : blen d1 = 3 + len loc)
    by (unfold blen; rewrite E1; apply len_packet_bytes).
  cbn [blen zero_Macaroon nil_buffer elems data len length Z.of_nat].
  rewrite Hb. change (int32 0) with 0.
  rewrite (int32_small (3 + len loc)) by lia.
  exists d2. split; [reflexivity|assumption].
Qed.

(** The round trip of the record: [UnmarshalJSON] of the record that
    [MarshalJSON] built gives the same location, identifier, caveats
    payload and signature. *)
Lemma JSON_round_trip_record (m : Macaroon) :
  reachable growslice m ->
  blen (data m) <= 2147483647 ->
  exists mjson m',
    MarshalJSON m = Ok mjson
    /\ UnmarshalJSON growslice zero_Macaroon mjson = (m', Ok tt)
    /\ Location m' = Location m
    /\ Id m' = Id m
    /\ caveatsRaw m' = caveatsRaw m
    /\ Signature m' = Signature m
    /\ forall rootKey, Verify m' rootKey = Verify m rootKey.
Proof.
  intros R Hmax.
  destruct (reachable_inside m R Hmax) as (Il & Ii & Ic).
  destruct (dataBytes_inside m _ Hmax Il) as (l & El & Hl & _).
  destruct (dataBytes_inside m _ Hmax Ii) as (i & Ei & Hi & _).
  destruct (dataBytes_inside m _ Hmax Ic) as (c & Ec & Hc & _).
  pose proof (len_nonneg l). pose proof (len_nonneg i).
  pose proof (len_nonneg c).
  unfold MarshalJSON, Location, Id, caveatsRaw, dataStr, Signature.
  rewrite El, Ei, Ec. cbn [rbind app].
  eexists. 
  destruct (init_zero_fits i l Hl Hi) as (d & Einit & Ed).
  assert (Hbd : blen d = 3 + len l + (3 + len i))
    by (unfold blen; rewrite Ed, len_app, !len_packet_bytes; reflexivity).
  destruct (appendPacket_fits growslice
              (mkMacaroon d (mkPacket 0 (3 + len l) 0)
                 (mkPacket (3 + len l) (3 + len i) 0) zero_packet (sig m))
              fieldCaveat c) as (d' & EA & Ed'); [lia|].
  cbn [data] in EA, Ed'. fold (packet_bytes fieldCaveat c) in Ed'.
  rewrite Ed in Ed'.
  exists (mkMacaroon d' (mkPacket 0 (3 + len l) 0)
            (mkPacket (3 + len l) (3 + len i) 0)
            (mkPacket (int32 (blen d)) (3 + len c) 0) (sig m)).
  split; [reflexivity|].
  assert (Di : dataBytes
                 (mkMacaroon d' (mkPacket 0 (3 + len l) 0)
                    (mkPacket (3 + len l) (3 + len i) 0)
                    (mkPacket (int32 (blen d)) (3 + len c) 0) (sig m))
                 (mkPacket (3 + len l) (3 + len i) 0) = Ok i).
  { apply dataBytes_packet with (pre := packet_bytes fieldLocation l)
      (f := fieldIdentifier) (post := packet_bytes fieldCaveat c).
    - cbn [data]. now rewrite Ed', <- app_assoc.
    - rewrite len_packet_bytes. lia.
    - now rewrite len_packet_bytes. }
  assert (Dc : dataBytes
                 (mkMacaroon d' (mkPacket 0 (3 + len l) 0)
                    (mkPacket (3 + len l) (3 + len i) 0)
                    (mkPacket (int32 (blen d)) (3 + len c) 0) (sig m))
                 (mkPacket (int32 (blen d)) (3 + len c) 0) = Ok c).
  { apply dataBytes_packet with
      (pre := packet_bytes fieldLocation l ++ packet_bytes fieldIdentifier i)
      (f := fieldCaveat) (post := []).
    - cbn [data]. now rewrite Ed', app_nil_r.
    - rewrite len_app, !len_packet_bytes. lia.
    - rewrite len_app, !len_packet_bytes, Hbd. apply int32_small. lia. }
  split.
  { unfold UnmarshalJSON.
    cbn [Identifier JLocation JSignature Caveats].
    rewrite Einit, !hex_DecodeString_EncodeToString.
    unfold set_sig at 1. cbn [data location id caveats sig].
    rewrite EA. cbn [negb]. reflexivity. }
  cbn [location id caveats sig].
  split.
  { apply dataBytes_packet with (pre := []) (f := fieldLocation)
      (post := packet_bytes fieldIdentifier i ++ packet_bytes fieldCaveat c).
    - cbn [data]. now rewrite Ed', <- app_assoc.
    - change (len []) with 0. lia.
    - reflexivity. }
  split; [exact Di|]. split; [exact Dc|]. split; [reflexivity|].
  intros rootKey.
  rewrite (Verify_unfold _ rootKey i c Di Dc).
  rewrite (Verify_unfold m rootKey i c Ei Ec).
  reflexivity.
Qed.

Lemma json_string_ascii (s : bytes) :
  Forall (fun b => byte_to_Z b < 128) s -> json_string s = s.
Proof.
  induction 1 as [|b s Hb _ IH]; [reflexivity|].
  cbn [json_string]. test_true (byte_to_Z b <? 128). now rewrite IH.
Qed.

Lemma hex_digit_ascii (n : N) : (n < 16)%N -> byte_to_Z (hex_digit n) < 128.
Proof.
  intros Hn. unfold hex_digit, byte_to_Z. rewrite to_N_byte_of_N.
  destruct (N.ltb_spec n 10); rewrite N.mod_small by lia; lia.
Qed.

Lemma hex_EncodeToString_ascii (l : bytes) :
  Forall (fun b => byte_to_Z b < 128) (hex_EncodeToString l).
Proof.
  unfold hex_EncodeToString.
  induction l as [|b l IH]; cbn [flat_map app]; [constructor|].
  pose proof (to_N_lt_256 b) as Hb.
  constructor; [|constructor; [|exact IH]]; apply hex_digit_ascii.
  - rewrite N.shiftr_div_pow2. change (2 ^ 4)%N with 16%N.
    apply N.Div0.div_lt_upper_bound. lia.
  - change 15%N with (N.ones 4). rewrite N.land_ones.
    apply N.mod_lt. discriminate.
Qed.

(** X13. JSON round trip.  For a macaroon built by [New], [SetCaveats] and
    [Bind] (buffer below 2^31 bytes) whose location and identifier are
    valid UTF-8, so that the JSON text carries them unchanged,
    [MarshalJSON] succeeds, and [UnmarshalJSON] of what arrives succeeds on
    a fresh macaroon and gives the same location, identifier, caveats
    payload and signature, hence the same answer from [Verify] under every
    root key. *)
Theorem JSON_round_trip (m : Macaroon) (loc i : bytes) :
  reachable growslice m ->
  blen (data m) <= 2147483647 ->
  Location m = Ok loc -> Id m = Ok i ->
  json_string loc = loc -> json_string i = i ->
  exists mjson m',
    MarshalJSON m = Ok mjson
    /\ json_transport mjson = mjson
    /\ UnmarshalJSON growslice zero_Macaroon (json_transport mjson)
       = (m', Ok tt)
    /\ Location m' = Ok loc
    /\ Id m' = Ok i
    /\ caveatsRaw m' = caveatsRaw m
    /\ Signature m' = Signature m
    /\ forall rootKey, Verify m' rootKey = Verify m rootKey.
Proof.
  intros R B HL HI UL UI.
  destruct (JSON_round_trip_record m R B)
    as (mjson & m' & HM & HU & EL & EI & EC & ES & EV).
  assert (T : json_transport mjson = mjson).
  { unfold MarshalJSON in HM. rewrite HL in HM. cbn [rbind] in HM.
    unfold Id in HI. rewrite HI in HM. cbn [rbind] in HM.
    destruct (caveatsRaw m) as [cav| |]; try discriminate.
    cbn [rbind] in HM.
    assert (E : mjson = mkJSON (hex_EncodeToString cav) loc i
                          (hex_EncodeToString (sig m))) by congruence.
    subst mjson. unfold json_transport.
    cbn [Caveats JLocation Identifier JSignature].
    rewrite UL, UI.
    now rewrite !(json_string_ascii _ (hex_EncodeToString_ascii _)). }
  exists mjson, m'. rewrite T.
  split; [exact HM|]. split; [reflexivity|]. split; [exact HU|].
  split; [congruence|]. split; [congruence|]. auto.
Qed.

(** A byte that is not valid UTF-8 does not survive the JSON text: it
    arrives as U+FFFD. *)
Lemma json_string_invalid_byte : json_string [xff] = [xef; xbf; xbd].
Proof. reflexivity. Qed.



(** ** Clone *)

(** X14. [Clone] never panics; the copy has the same buffer contents,
    packets and signature, hence the same binary form, the same payload for
    every packet inside the buffer and the same answer from [Verify]; and
    its capacity is capped at its length, so that nothing can be appended
    to it in place. *)
Theorem Clone_same_contents (m : Macaroon) :
  exists m',
    Clone m = Ok m'
    /\ elems (data m') = elems (data m)
    /\ bcap (data m') = blen (data m')
    /\ location m' = location m /\ id m' = id m /\ caveats m' = caveats m
    /\ sig m' = sig m
    /\ MarshalBinary growslice m' = MarshalBinary growslice m
    /\ (forall p, within (data m) p -> dataBytes m' p = dataBytes m p)
    /\ (within (data m) (id m) -> within (data m) (caveats m) ->
        forall rootKey, Verify m' rootKey = Verify m rootKey).
Proof.
  unfold Clone, slice3.
  pose proof (blen_le_bcap (data m)) as Hcap.
  pose proof (len_nonneg (elems (data m))) as Hnn. unfold blen in *.
  test_true ((0 <=? 0) && (0 <=? len (elems (data m)))
             && (len (elems (data m)) <=? len (elems (data m)))
             && (len (elems (data m)) <=? bcap (data m))).
  cbn [rbind]. eexists. split; [reflexivity|].
  cbn [data location id caveats sig elems app].
  assert (E : sub (backing (data m)) 0 (len (elems (data m)))
              = elems (data m)).
  { unfold sub, backing, len. rewrite Z.sub_0_r, Nat2Z.id.
    cbn [Z.to_nat skipn]. apply firstn_length_app. }
  assert (S0 : sub (backing (data m)) (len (elems (data m)))
                   (len (elems (data m))) = []).
  { unfold sub. now rewrite Z.sub_diag. }
  rewrite E, S0.
  assert (W : forall p, within (data m) p ->
              within (mkBuffer (elems (data m)) []) p).
  { intros p [Z0|H]; [now left|right]. exact H. }
  assert (D : forall p, within (data m) p ->
              dataBytes (mkMacaroon (mkBuffer (elems (data m)) [])
                           (location m) (id m) (caveats m) (sig m)) p
              = dataBytes m p).
  { intros p Wp. rewrite (dataBytes_within m p Wp).
    exact (dataBytes_within
             (mkMacaroon (mkBuffer (elems (data m)) [])
                (location m) (id m) (caveats m) (sig m)) p (W p Wp)). }
  split; [reflexivity|].
  split; [unfold bcap, blen; cbn [elems spare]; change (len []) with 0; lia|].
  do 4 (split; [reflexivity|]).
  split.
  { destruct (MarshalBinary_cases m) as [[H0 ->]|(H0 & -> & _)];
      destruct (MarshalBinary_cases
                  (mkMacaroon (mkBuffer (elems (data m)) [])
                     (location m) (id m) (caveats m) (sig m)))
        as [[H1 ->]|(H1 & -> & _)]; cbn [sig data elems] in *;
      try reflexivity; lia. }
  split; [exact D|].
  intros Wi Wc rootKey.
  pose proof (dataBytes_within m _ Wi) as Ei.
  pose proof (dataBytes_within m _ Wc) as Ec.
  rewrite (Verify_unfold m rootKey _ _ Ei Ec).
  erewrite Verify_unfold.
  - cbn [sig]. reflexivity.
  - cbn [id]. rewrite (D _ Wi). exact Ei.
  - cbn [caveats]. rewrite (D _ Wc). exact Ec.
Qed.


(** ** The caveat payload: [MarshalCaveats], [UnMarshalCaveats], [GetCaveats] *)

Lemma length_le_bytes (n : nat) (z : Z) : length (le_bytes n z) = n.
Proof. revert z. induction n; intros z; cbn [le_bytes length]; auto. Qed.

Lemma le_uint_le_bytes (n : nat) (z : Z) :
  le_uint (le_bytes n z) = z mod 2 ^ (8 * Z.of_nat n).
Proof.
  revert z. induction n as [|n IH]; intros z.
  - cbn. now rewrite Z.mod_1_r.
  - cbn [le_bytes le_uint]. rewrite byte_to_Z_of_Z, IH.
    rewrite Z.shiftr_div_pow2 by lia.
    replace (8 * Z.of_nat (S n)) with (8 + 8 * Z.of_nat n) by lia.
    rewrite Z.pow_add_r by lia. change (2 ^ 8) with 256.
    rewrite Z.rem_mul_r by lia. reflexivity.
Qed.

Lemma binary_Read_le_bytes (n : nat) (z : Z) :
  (0 < n)%nat ->
  binary_Read n (le_bytes n z) = Decoded (z mod 2 ^ (8 * Z.of_nat n)).
Proof.
  intros Hn. unfold binary_Read, len. rewrite length_le_bytes.
  test_false (Z.of_nat n =? 0). rewrite Z.ltb_irrefl.
  rewrite <- (length_le_bytes n z) at 1. rewrite firstn_all.
  now rewrite le_uint_le_bytes.
Qed.

Lemma to_signed_mod (bits z : Z) :
  0 < bits -> - 2 ^ (bits - 1) <= z < 2 ^ (bits - 1) ->
  to_signed bits (z mod 2 ^ bits) = z.
Proof.
  intros Hb Hz. unfold to_signed.
  assert (E : 2 ^ bits = 2 * 2 ^ (bits - 1)).
  { rewrite <- Z.pow_succ_r by lia. f_equal. lia. }
  rewrite E.
  assert (Hh : 0 < 2 ^ (bits - 1)) by (apply Z.pow_pos_nonneg; lia).
  set (h := 2 ^ (bits - 1)) in *.
  destruct (Z_lt_le_dec z 0) as [Hneg|Hpos].
  - replace (z mod (2 * h)) with (z + 2 * h).
    + test_false (z + 2 * h <? h). lia.
    + rewrite <- (Z.mod_small (z + 2 * h) (2 * h)) by lia.
      replace (z + 2 * h) with (z + 1 * (2 * h)) by lia.
      now rewrite Z.mod_add by lia.
  - rewrite Z.mod_small by lia. test_true (z <? h). reflexivity.
Qed.

(** A value in the range of its kind is read back from its encoding. *)
Lemma in_range_round_trip (v : govalue) (k : gokind) :
  in_range v k = true ->
  exists d,
    valToBytes v = Ok d /\ len d <= 255
    /\ bytesToVal (PtrTo k) d = Decoded v
    /\ assignable (PtrTo k) = true.
Proof.
  assert (L : forall n z, (n <= 8)%nat -> len (le_bytes n z) <= 255).
  { intros n z Hn. unfold len. rewrite length_le_bytes. lia. }
  destruct v, k; try discriminate; unfold in_range; intros H;
    unfold valToBytes, bytesToVal, read_int; cbn [elem_kind assignable];
    try (apply andb_true_iff in H; destruct H as [H1 H2];
         apply Z.leb_le in H1; apply Z.ltb_lt in H2).
  - apply Z.leb_le in H. eauto.
  - apply Z.leb_le in H. eauto.
  - eexists; split; [reflexivity|]; split; [apply L; lia|];
      split; [|reflexivity].
    rewrite binary_Read_le_bytes by lia.
    change (8 * Z.of_nat 1) with 8. now rewrite to_signed_mod by lia.
  - eexists; split; [reflexivity|]; split; [apply L; lia|];
      split; [|reflexivity].
    rewrite binary_Read_le_bytes by lia.
    change (8 * Z.of_nat 2) with 16. now rewrite to_signed_mod by lia.
  - eexists; split; [reflexivity|]; split; [apply L; lia|];
      split; [|reflexivity].
    rewrite binary_Read_le_bytes by lia.
    change (8 * Z.of_nat 4) with 32. now rewrite to_signed_mod by lia.
  - eexists; split; [reflexivity|]; split; [apply L; lia|];
      split; [|reflexivity].
    rewrite binary_Read_le_bytes by lia.
    change (8 * Z.of_nat 8) with 64. now rewrite to_signed_mod by lia.
  - eexists; split; [reflexivity|]; split; [apply L; lia|];
      split; [|reflexivity].
    rewrite binary_Read_le_bytes by lia.
    change (8 * Z.of_nat 1) with 8. now rewrite Z.mod_small by lia.
  - eexists; split; [reflexivity|]; split; [apply L; lia|];
      split; [|reflexivity].
    rewrite binary_Read_le_bytes by lia.
    change (8 * Z.of_nat 2) with 16. now rewrite Z.mod_small by lia.
  - eexists; split; [reflexivity|]; split; [apply L; lia|];
      split; [|reflexivity].
    rewrite binary_Read_le_bytes by lia.
    change (8 * Z.of_nat 4) with 32. now rewrite Z.mod_small by lia.
  - eexists; split; [reflexivity|]; split; [apply L; lia|];
      split; [|reflexivity].
    rewrite binary_Read_le_bytes by lia.
    change (8 * Z.of_nat 8) with 64. now rewrite Z.mod_small by lia.
  - destruct b; eexists; (split; [reflexivity|]); split;
      try (vm_compute; discriminate); split; reflexivity.
Qed.

Lemma index_app (pre post sp : bytes) (x : byte) :
  index (mkBuffer (pre ++ x :: post) sp) (len pre) = Ok x.
Proof.
  unfold index, blen. cbn [elems]. rewrite len_app.
  pose proof (len_nonneg pre) as Hp.
  assert (Hx : len (x :: post) = 1 + len post)
    by (unfold len; cbn [length]; lia).
  pose proof (len_nonneg post) as Hq.
  test_true ((0 <=? len pre) && (len pre <? len pre + len (x :: post))).
  unfold len. rewrite Nat2Z.id. now rewrite nth_middle.
Qed.

Lemma slice2_app (pre d post sp : bytes) :
  exists b,
    slice2 (mkBuffer (pre ++ d ++ post) sp) (len pre) (len pre + len d)
    = Ok b
    /\ elems b = d.
Proof.
  pose proof (len_nonneg pre) as Hp. pose proof (len_nonneg d) as Hd.
  pose proof (len_nonneg post) as Hq.
  destruct (slice2_within (mkBuffer (pre ++ d ++ post) sp)
              (len pre) (len pre + len d)) as (b & E & Eb).
  - lia.
  - unfold blen. cbn [elems]. rewrite !len_app. lia.
  - exists b. split; [exact E|]. rewrite Eb. cbn [elems].
    apply sub_app_mid.
Qed.

Lemma set_nth_app {A} (done rest : list A) (x y : A) :
  set_nth (length done) y (done ++ x :: rest) = done ++ y :: rest.
Proof. induction done as [|a done IH]; cbn; [reflexivity|now rewrite IH]. Qed.

Lemma nth_error_middle {A} (done rest : list A) (x : A) :
  nth_error (done ++ x :: rest) (length done) = Some x.
Proof. induction done as [|a done IH]; cbn; auto. Qed.

(** What [MarshalCaveats] writes for fields that fit a struct. *)
Lemma MarshalCaveats_from_fit (vs : gostruct) :
  forall (obj : gostructptr) (i : Z) (out : bytes),
    all_fit vs obj = true ->
    MarshalCaveats_from i vs out = Ok (out ++ caveat_records i vs).
Proof.
  induction vs as [|x vs IH]; intros obj i out F.
  - cbn. now rewrite app_nil_r.
  - destruct obj as [|f obj]; [discriminate|].
    cbn [all_fit] in F. apply andb_true_iff in F. destruct F as [Fx F].
    destruct x as [|v|]; cbn [MarshalCaveats_from caveat_records].
    + eauto.
    + unfold fits in Fx. apply andb_true_iff in Fx. destruct Fx as [_ Fx].
      destruct (ftype f) as [k| | |]; try discriminate.
      destruct (in_range_round_trip v k Fx) as (d & -> & _).
      cbn [rbind]. rewrite (IH obj _ _ F). now rewrite <- !app_assoc.
    + discriminate.
Qed.

(** One round of the loop of [UnMarshalCaveats] on a well-formed record. *)
Lemma UnMarshalCaveats_from_record
  (fuel : nat) (obj obj' : gostructptr) (pre d post sp : bytes) (i : Z)
  (f : gofielddecl) (v : govalue) :
  0 <= i < 256 -> len d <= 255 ->
  nth_error obj (Z.to_nat i) = Some f ->
  bytesToVal (ftype f) d = Decoded v ->
  Field_Set obj (Z.to_nat i) v = Some obj' ->
  UnMarshalCaveats_from (S fuel) obj
    (mkBuffer (pre ++ ([byte_of_Z i] ++ [byte_of_Z (len d)] ++ d) ++ post) sp)
    (len pre)
  = UnMarshalCaveats_from fuel obj'
      (mkBuffer (pre ++ ([byte_of_Z i] ++ [byte_of_Z (len d)] ++ d) ++ post)
         sp)
      (len (pre ++ [byte_of_Z i] ++ [byte_of_Z (len d)] ++ d)).
Proof.
  intros Hi Hd En Eb Es.
  pose proof (len_nonneg d) as Hdnn. pose proof (len_nonneg pre) as Hp.
  pose proof (len_nonneg post) as Hq.
  assert (L1 : forall x : byte, len [x] = 1) by reflexivity.
  cbn [UnMarshalCaveats_from].
  unfold blen. cbn [elems]. rewrite !len_app, !L1.
  test_true (len pre <? len pre + (1 + (1 + len d) + len post)).
  cbn [app]. rewrite index_app.
  replace (pre ++ byte_of_Z i :: byte_of_Z (len d) :: d ++ post)
    with ((pre ++ [byte_of_Z i]) ++ byte_of_Z (len d) :: d ++ post)
    by (now rewrite <- app_assoc).
  replace (len pre + 1) with (len (pre ++ [byte_of_Z i]))
    by (rewrite len_app; reflexivity).
  rewrite index_app.
  rewrite !byte_to_Z_of_Z, !Z.mod_small by lia.
  replace ((pre ++ [byte_of_Z i]) ++ byte_of_Z (len d) :: d ++ post)
    with ((pre ++ [byte_of_Z i; byte_of_Z (len d)]) ++ d ++ post)
    by (now rewrite <- !app_assoc).
  destruct (slice2_app (pre ++ [byte_of_Z i; byte_of_Z (len d)]) d post sp)
    as (b & Esl & Ebd).
  assert (E2 : len (pre ++ [byte_of_Z i; byte_of_Z (len d)]) = len pre + 2)
    by (rewrite len_app; reflexivity).
  rewrite E2 in Esl.
  rewrite Esl, En, Ebd, Eb, Es.
  f_equal. lia.
Qed.

(** The loop of [UnMarshalCaveats] over the records of fields that fit. *)
Lemma UnMarshalCaveats_from_fit (vs : gostruct) :
  forall (obj done : gostructptr) (pre sp : bytes) (fuel : nat),
    all_fit vs obj = true ->
    len done + len vs <= 256 ->
    (length (caveat_records (len done) vs) < fuel)%nat ->
    UnMarshalCaveats_from fuel (done ++ obj)
      (mkBuffer (pre ++ caveat_records (len done) vs) sp) (len pre)
    = Some (done ++ store vs obj, Decoded tt).
Proof.
  induction vs as [|x vs IH]; intros obj done pre sp fuel F Hn Hf.
  - destruct obj; [|discriminate]. destruct fuel; [cbn in Hf; lia|].
    cbn [UnMarshalCaveats_from caveat_records store].
    unfold blen. cbn [elems]. rewrite app_nil_r, Z.ltb_irrefl. reflexivity.
  - destruct obj as [|f obj]; [discriminate|].
    cbn [all_fit] in F. apply andb_true_iff in F. destruct F as [Fx F].
    assert (Hl : len (x :: vs) = 1 + len vs)
      by (unfold len; cbn [length]; lia).
    assert (Hd1 : forall g : gofielddecl, len (done ++ [g]) = len done + 1)
      by (intros g; rewrite len_app; reflexivity).
    pose proof (len_nonneg done) as Hdn. pose proof (len_nonneg vs) as Hvs.
    destruct x as [|v|]; cbn [caveat_records store].
    + specialize (IH obj (done ++ [f]) pre sp fuel F).
      rewrite Hd1, <- !app_assoc in IH. cbn [app] in IH.
      apply IH; [lia|]. exact Hf.
    + unfold fits in Fx. apply andb_true_iff in Fx. destruct Fx as [Fe Fx].
      destruct (ftype f) as [k| | |] eqn:Et; try discriminate.
      destruct (in_range_round_trip v k Fx) as (d & Ev & Hd & Eb & Ea).
      cbn [caveat_records] in Hf. rewrite Ev in Hf |- *.
      destruct fuel as [|fuel]; [lia|].
      assert (En : nth_error (done ++ f :: obj) (Z.to_nat (len done))
                   = Some f).
      { unfold len. rewrite Nat2Z.id. apply nth_error_middle. }
      rewrite (UnMarshalCaveats_from_record fuel (done ++ f :: obj)
                 (done ++ mkField (PtrTo k) (exported f) (FieldPtr v) :: obj)
                 pre d (caveat_records (len done + 1) vs) sp (len done) f v).
      * specialize (IH obj
                      (done ++ [mkField (PtrTo k) (exported f) (FieldPtr v)])
                      (pre ++ [byte_of_Z (len done)]
                           ++ [byte_of_Z (len d)] ++ d)
                      sp fuel F).
        rewrite Hd1, <- !app_assoc in IH. cbn [app] in IH.
        rewrite <- !app_assoc. cbn [app].
        apply IH; [lia|].
        rewrite !length_app in Hf. cbn [length] in Hf. lia.
      * lia.
      * exact Hd.
      * exact En.
      * now rewrite Et.
      * unfold Field_Set. rewrite En, Fe, Et, Ea. cbn [andb].
        unfold len. rewrite Nat2Z.id. now rewrite set_nth_app.
    + discriminate.
Qed.



Lemma store_all_nil (vs : gostruct) :
  forall obj : gostructptr,
    all_fit vs obj = true -> all_nil obj = true ->
    fields_of (store vs obj) = vs.
Proof.
  induction vs as [|x vs IH]; intros [|f obj] F N; try discriminate;
    [reflexivity|].
  cbn [all_fit] in F. apply andb_true_iff in F. destruct F as [Fx F].
  unfold all_nil in N. cbn [forallb] in N.
  apply andb_true_iff in N. destruct N as [Nf N].
  cbn [store fields_of map]. fold (fields_of (store vs obj)).
  rewrite (IH obj F N). f_equal.
  destruct x; cbn [fvalue]; [|reflexivity|discriminate].
  now destruct (fvalue f).
Qed.

Lemma MarshalCaveats_UnMarshalCaveats_fit
  (vs : gostruct) (obj : gostructptr) (sp : bytes) :
  all_fit vs obj = true -> len vs <= 256 ->
  MarshalCaveats vs = Ok (caveat_records 0 vs)
  /\ UnMarshalCaveats obj (mkBuffer (caveat_records 0 vs) sp)
     = Some (store vs obj, Decoded tt).
Proof.
  intros F Hn. split.
  - unfold MarshalCaveats. now rewrite (MarshalCaveats_from_fit vs obj 0 [] F).
  - unfold UnMarshalCaveats. cbn [elems].
    apply (UnMarshalCaveats_from_fit vs obj [] [] sp); auto.
Qed.

(** X15. A struct of at most 256 fields, each a nil pointer or a pointer to
    a [[]byte] or string of at most 255 bytes, a bool or a sized integer,
    survives [MarshalCaveats] followed by [UnMarshalCaveats]: decoding into a
    struct of the same type sets exactly the non-nil fields and keeps the
    others as they were, so decoding into a zero struct gives the struct
    back; bytes within the capacity after the payload do not matter. *)
Theorem MarshalCaveats_UnMarshalCaveats
  (vs : gostruct) (obj : gostructptr) (sp : bytes) :
  all_fit vs obj = true -> len vs <= 256 ->
  exists cavData,
    MarshalCaveats vs = Ok cavData
    /\ UnMarshalCaveats obj (mkBuffer cavData sp)
       = Some (store vs obj, Decoded tt)
    /\ (all_nil obj = true -> fields_of (store vs obj) = vs).
Proof.
  intros F Hn.
  destruct (MarshalCaveats_UnMarshalCaveats_fit vs obj sp F Hn) as [E1 E2].
  exists (caveat_records 0 vs). repeat split; auto.
  intros N. now apply store_all_nil.
Qed.

Lemma dataBytes_slice_elems (m : Macaroon) (p : packet) (body : bytes) :
  dataBytes m p = Ok body ->
  exists b, dataBytes_slice m p = Ok b /\ elems b = body.
Proof.
  unfold dataBytes, dataBytes_slice.
  destruct (totalLen p =? 0).
  - intros [= <-]. now exists nil_buffer.
  - destruct (slice2 _ _ _) as [b| |]; cbn [rbind]; try discriminate.
    intros [= <-]. now exists b.
Qed.

(** X16. After a [SetCaveats] that succeeded on such a struct, [GetCaveats]
    into a struct of the same type returns without error and has stored
    the non-nil fields given to [SetCaveats]. *)
Theorem SetCaveats_GetCaveats
  (m m' : Macaroon) (vs : gostruct) (obj : gostructptr) :
  all_fit vs obj = true -> len vs <= 256 ->
  blen (data m) + 65535 <= 2147483647 ->
  SetCaveats growslice m vs = (m', Ok tt) ->
  GetCaveats m' obj = Some (store vs obj, Decoded tt)
  /\ (all_nil obj = true -> fields_of (store vs obj) = vs).
Proof.
  intros F Hn Hmax HS. split; [|intros N; now apply store_all_nil].
  destruct (SetCaveats_ok_inv growslice m m' vs HS)
    as (cavData & d' & EM & Hfit & -> & Ed).
  pose proof (len_nonneg (elems (data m))) as Hnn.
  pose proof (len_nonneg cavData) as Hc.
  unfold blen in Hmax.
  assert (ED : dataBytes
                 (mkMacaroon d' (location m) (id m)
                    (mkPacket (int32 (blen (data m))) (3 + len cavData) 0)
                    (Hmac.sum (sig m) cavData))
                 (mkPacket (int32 (blen (data m))) (3 + len cavData) 0)
               = Ok cavData).
  { apply dataBytes_packet
      with (pre := elems (data m)) (post := []) (f := fieldCaveat).
    - cbn [data]. now rewrite app_nil_r.
    - lia.
    - unfold blen. apply int32_small. lia. }
  unfold GetCaveats. cbn [caveats].
  destruct (dataBytes_slice_elems _ _ _ ED) as (b & -> & Eb).
  destruct b as [be bs]. cbn [elems] in Eb. subst be.
  destruct (MarshalCaveats_UnMarshalCaveats_fit vs obj bs F Hn) as [E1 E2].
  assert (cavData = caveat_records 0 vs) by congruence. subst cavData.
  exact E2.
Qed.

Lemma UnMarshalCaveats_from_returns (fuel : nat) :
  forall (obj : gostructptr) (data : buffer) (cursor : Z),
    Z.max 0 (blen data - cursor) < Z.of_nat fuel ->
    UnMarshalCaveats_from fuel obj data cursor <> None.
Proof.
  induction fuel as [|fuel IH]; intros obj data cursor Hf; [lia|].
  cbn [UnMarshalCaveats_from].
  destruct (Z.ltb_spec cursor (blen data)) as [Hlt|Hge]; [|discriminate].
  destruct (index data cursor) as [n| |]; try discriminate.
  destruct (index data (cursor + 1)) as [s| |]; try discriminate.
  destruct (slice2 _ _ _) as [fd| |]; try discriminate.
  destruct (nth_error _ _) as [f|]; try discriminate.
  destruct (bytesToVal _ _) as [v| |]; try discriminate.
  destruct (Field_Set _ _ _) as [obj'|]; try discriminate.
  apply IH. pose proof (byte_to_Z_range s). lia.
Qed.

(** X17. [UnMarshalCaveats] returns on every struct and every payload: each
    round of its loop moves the cursor on by at least two bytes. *)
Theorem UnMarshalCaveats_returns (obj : gostructptr) (data : buffer) :
  exists obj' r, UnMarshalCaveats obj data = Some (obj', r).
Proof.
  pose proof (UnMarshalCaveats_from_returns (S (length (elems data)))
                obj data 0) as H.
  unfold UnMarshalCaveats.
  destruct (UnMarshalCaveats_from _ _ _ _) as [[obj' r]|].
  - eauto.
  - exfalso. apply H; [|reflexivity]. unfold blen, len. lia.
Qed.

(** X18. [UnMarshalCaveats] does not validate the payload: it panics, with
    the struct untouched, when the payload is a single byte, when the first
    record declares more bytes than the capacity of the payload holds, and
    when it names a field the struct does not have. *)
Theorem UnMarshalCaveats_malformed_panics
  (obj : gostructptr) (data : buffer) :
  (blen data = 1
   \/ exists n s rest,
        elems data = n :: s :: rest
        /\ (bcap data < 2 + byte_to_Z s
            \/ len obj <= byte_to_Z n)) ->
  UnMarshalCaveats obj data = Some (obj, DecodePanic).
Proof.
  unfold UnMarshalCaveats. cbn [UnMarshalCaveats_from].
  intros [H1|(n & s & rest & E & H)].
  - assert (I1 : index data (0 + 1) = Panic).
    { unfold index. rewrite H1. reflexivity. }
    rewrite H1, I1. cbn [Z.ltb Z.compare].
    now destruct (index data 0).
  - assert (Hb : blen data = 2 + len rest).
    { unfold blen. rewrite E. unfold len. cbn [length]. lia. }
    pose proof (len_nonneg rest) as Hr.
    assert (I0 : index data 0 = Ok n).
    { unfold index. test_true ((0 <=? 0) && (0 <? blen data)).
      now rewrite E. }
    assert (I1 : index data (0 + 1) = Ok s).
    { unfold index. test_true ((0 <=? 0 + 1) && (0 + 1 <? blen data)).
      now rewrite E. }
    test_true (0 <? blen data). rewrite I0, I1.
    destruct H as [H|H].
    + unfold slice2.
      pose proof (byte_to_Z_range s) as Hs.
      test_false ((0 <=? 0 + 2) && (0 + 2 <=? 0 + 2 + byte_to_Z s)
                  && (0 + 2 + byte_to_Z s <=? bcap data)).
      reflexivity.
    + destruct (slice2 _ _ _); try reflexivity.
      replace (nth_error obj (Z.to_nat (byte_to_Z n)))
        with (@None gofielddecl); [reflexivity|].
      symmetry. apply nth_error_None. unfold len in H. lia.
Qed.

(** X19. The size byte of a record is checked against the capacity of the
    payload slice, not its length: a record whose declared size runs past
    the end of the payload is filled from the bytes that follow it in the
    backing array, and the call succeeds. *)
Theorem UnMarshalCaveats_reads_past_length
  (f : gofielddecl) (rest : gostructptr) (n : Z) (sp : bytes) :
  ftype f = PtrTo KString -> exported f = true ->
  0 <= n <= 255 -> n <= len sp ->
  UnMarshalCaveats (f :: rest) (mkBuffer [x00; byte_of_Z n] sp)
  = Some (mkField (PtrTo KString) true
            (FieldPtr (VString (firstn (Z.to_nat n) sp))) :: rest,
          Decoded tt).
Proof.
  intros Et Ee Hn Hsp.
  unfold UnMarshalCaveats. cbn [elems length UnMarshalCaveats_from].
  change (blen (mkBuffer [x00; byte_of_Z n] sp)) with 2.
  cbn [Z.ltb Z.compare].
  change (index (mkBuffer [x00; byte_of_Z n] sp) 0) with (Ok x00).
  change (index (mkBuffer [x00; byte_of_Z n] sp) (0 + 1))
    with (Ok (byte_of_Z n)).
  cbn iota. rewrite byte_to_Z_of_Z, Z.mod_small by lia.
  unfold slice2, bcap, backing. cbn [elems spare].
  change (len [x00; byte_of_Z n]) with 2.
  test_true ((0 <=? 0 + 2) && (0 + 2 <=? 0 + 2 + n)
             && (0 + 2 + n <=? 2 + len sp)).
  change (byte_to_Z x00) with 0. cbn [Z.to_nat nth_error].
  rewrite Et. unfold bytesToVal. cbn [elem_kind elems].
  unfold Field_Set. cbn [nth_error]. rewrite Ee, Et. cbn [assignable andb].
  cbn [set_nth].
  assert (Es : sub ([x00; byte_of_Z n] ++ sp) (0 + 2) (0 + 2 + n)
               = firstn (Z.to_nat n) sp).
  { unfold sub. replace (0 + 2 + n - (0 + 2)) with n by lia.
    reflexivity. }
  rewrite Es.
  test_false (0 + 2 + n <? 2).
  destruct (0 + 2 + n <? 2) eqn:C; [apply Z.ltb_lt in C; lia|].
  reflexivity.
Qed.


(** ** Binary unmarshalling of a known layout *)

(** Parsing at the start of a packet written by [appendPacket], when six
    bytes remain there. *)
Lemma packet_at
  (m : Macaroon) (pre body post : bytes) (f : field) :
  elems (data m) = pre ++ packet_bytes f body ++ post ->
  3 + len body <= 65535 ->
  6 <= 3 + len body + len post ->
  len pre + 3 + len body <= 2147483647 ->
  let p := mkPacket (len pre) (3 + len body) 0 in
  parsePacket m (len pre) = Ok p
  /\ fieldNum m p = Ok f
  /\ dataBytes m p = Ok body.
Proof.
  intros E Hfit Hsix Hmax p. subst p.
  pose proof (len_nonneg pre) as Hp. pose proof (len_nonneg body) as Hb.
  pose proof (len_nonneg post) as Hq.
  assert (Hlen : blen (data m) = len pre + (3 + len body) + len post).
  { unfold blen. rewrite E, !len_app, len_packet_bytes. lia. }
  assert (Hskip : skipn (Z.to_nat (len pre)) (elems (data m))
                  = packet_bytes f body ++ post).
  { rewrite E. unfold len. rewrite Nat2Z.id. apply skipn_length_app. }
  split; [|split].
  - destruct (parsePacket_outcomes m (len pre)) as [_ H]; [lia|].
    rewrite Hskip, len_app, len_packet_bytes in H.
    destruct H as (plen & HU & _ & _ & Hok & _); [lia|].
    unfold packet_bytes in HU. rewrite <- app_assoc in HU.
    rewrite Uint16_PutUint16 in HU by lia.
    assert (Epl : plen = 3 + len body) by congruence. subst plen.
    rewrite Hok by lia. now rewrite int32_small by lia.
  - unfold fieldNum, index. cbn [totalLen start].
    test_false (3 + len body =? 0).
    rewrite (int32_small (len pre + 2)) by lia.
    test_true ((0 <=? len pre + 2) && (len pre + 2 <? blen (data m))).
    f_equal. rewrite E. unfold packet_bytes, len.
    replace (Z.to_nat (Z.of_nat (length pre) + 2))
      with (length pre + 2)%nat by lia.
    rewrite app_nth2_plus. reflexivity.
  - apply dataBytes_packet with (pre := pre) (f := f) (post := post); auto.
Qed.

Lemma expectPacket_at
  (m : Macaroon) (pre body post : bytes) (f kind : field) :
  elems (data m) = pre ++ packet_bytes f body ++ post ->
  3 + len body <= 65535 ->
  6 <= 3 + len body + len post ->
  len pre + 3 + len body <= 2147483647 ->
  expectPacket m (len pre) kind
  = if Byte.eqb f kind
    then Ok (len pre + (3 + len body), mkPacket (len pre) (3 + len body) 0)
    else Err (ErrUnexpectedField f kind).
Proof.
  intros E Hfit Hsix Hmax.
  destruct (packet_at m pre body post f E Hfit Hsix Hmax) as (HP & HF & _).
  unfold expectPacket. rewrite HP. cbn [rbind]. rewrite HF. cbn [rbind].
  now destruct (Byte.eqb f kind).
Qed.

(** What [UnmarshalBinary] does with the three leading packets of an input
    whose first two are a location and an identifier packet. *)
Lemma UnmarshalBinary_at
  (z : Macaroon) (loc id' body post : bytes) (f : field) :
  len loc <= 65532 -> len id' <= 65532 -> len body <= 65532 ->
  3 <= len body + len post ->
  let d := packet_bytes fieldLocation loc ++ packet_bytes fieldIdentifier id'
           ++ packet_bytes f body ++ post in
  exists b,
    elems b = d
    /\ UnmarshalBinary growslice z d
       = if Byte.eqb f fieldCaveat
         then (mkMacaroon b (mkPacket 0 (3 + len loc) 0)
                 (mkPacket (3 + len loc) (3 + len id') 0)
                 (mkPacket (3 + len loc + (3 + len id')) (3 + len body) 0)
                 (sig z),
               Ok tt)
         else (mkMacaroon b (mkPacket 0 (3 + len loc) 0)
                 (mkPacket (3 + len loc) (3 + len id') 0)
                 zero_packet (sig z),
               Err (ErrUnexpectedField f fieldCaveat)).
Proof.
  intros Hl Hi Hb Hsix d.
  pose proof (len_nonneg loc) as Hl0. pose proof (len_nonneg id') as Hi0.
  pose proof (len_nonneg body) as Hb0. pose proof (len_nonneg post) as Hq0.
  exists (append growslice nil_buffer d).
  assert (Ed : elems (append growslice nil_buffer d) = d)
    by (rewrite elems_append; reflexivity).
  split; [exact Ed|].
  unfold UnmarshalBinary, unmarshalBinaryNoCopy.
  set (b := append growslice nil_buffer d) in *.
  set (P1 := packet_bytes fieldLocation loc) in *.
  set (P2 := packet_bytes fieldIdentifier id') in *.
  assert (L1 : len P1 = 3 + len loc) by apply len_packet_bytes.
  assert (L2 : len P2 = 3 + len id') by apply len_packet_bytes.
  assert (L3 : len (packet_bytes f body) = 3 + len body)
    by apply len_packet_bytes.
  (* location *)
  assert (E1 : expectPacket (set_data z b) 0 fieldLocation
               = Ok (3 + len loc, mkPacket 0 (3 + len loc) 0)).
  { pose proof (expectPacket_at (set_data z b) [] loc
                  (P2 ++ packet_bytes f body ++ post)
                  fieldLocation fieldLocation) as H.
    change (len (@nil byte)) with 0 in H. cbn [app] in H.
    rewrite H; [reflexivity|exact Ed|lia| |lia].
    rewrite !len_app, L2, L3. lia. }
  rewrite E1.
  (* identifier *)
  assert (E2 : expectPacket
                 (set_location (set_data z b) (mkPacket 0 (3 + len loc) 0))
                 (3 + len loc) fieldIdentifier
               = Ok (3 + len loc + (3 + len id'),
                     mkPacket (3 + len loc) (3 + len id') 0)).
  { pose proof (expectPacket_at
                  (set_location (set_data z b) (mkPacket 0 (3 + len loc) 0))
                  P1 id' (packet_bytes f body ++ post)
                  fieldIdentifier fieldIdentifier) as H.
    rewrite L1 in H.
    rewrite H; [reflexivity|exact Ed|lia| |lia].
    rewrite !len_app, L3. lia. }
  rewrite E2.
  (* the third packet *)
  pose proof (expectPacket_at
                (set_id
                   (set_location (set_data z b) (mkPacket 0 (3 + len loc) 0))
                   (mkPacket (3 + len loc) (3 + len id') 0))
                (P1 ++ P2) body post f fieldCaveat) as H.
  rewrite len_app, L1, L2 in H.
  rewrite H; [| |lia|lia|lia].
  - now destruct (Byte.eqb f fieldCaveat).
  - cbn [data set_id set_location set_data]. rewrite Ed. unfold d.
    now rewrite <- app_assoc.
Qed.

(** The fields read from an input that starts with the three packets. *)
Lemma UnmarshalBinary_reads_fields_aux
  (z : Macaroon) (loc id' cav post : bytes) :
  len loc <= 65532 -> len id' <= 65532 -> len cav <= 65532 ->
  3 <= len cav + len post ->
  exists m',
    UnmarshalBinary growslice z
      (packet_bytes fieldLocation loc ++ packet_bytes fieldIdentifier id'
       ++ packet_bytes fieldCaveat cav ++ post)
    = (m', Ok tt)
    /\ Location m' = Ok loc
    /\ Id m' = Ok id'
    /\ caveatsRaw m' = Ok cav.
Proof.
  intros Hl Hi Hc Hsix.
  pose proof (len_nonneg loc) as Hl0. pose proof (len_nonneg id') as Hi0.
  pose proof (len_nonneg cav) as Hc0. pose proof (len_nonneg post) as Hq0.
  destruct (UnmarshalBinary_at z loc id' cav post fieldCaveat Hl Hi Hc Hsix)
    as (b & Eb & ->).
  change (Byte.eqb fieldCaveat fieldCaveat) with true. cbn iota.
  eexists. split; [reflexivity|].
  assert (L1 : len (packet_bytes fieldLocation loc) = 3 + len loc)
    by apply len_packet_bytes.
  assert (L2 : len (packet_bytes fieldIdentifier id') = 3 + len id')
    by apply len_packet_bytes.
  unfold Location, Id, caveatsRaw, dataStr.
  cbn [location id caveats].
  split; [|split].
  - apply dataBytes_packet
      with (pre := [])
           (post := packet_bytes fieldIdentifier id'
                    ++ packet_bytes fieldCaveat cav ++ post)
           (f := fieldLocation);
      [exact Eb|change (len (@nil byte)) with 0; lia|reflexivity].
  - apply dataBytes_packet
      with (pre := packet_bytes fieldLocation loc)
           (post := packet_bytes fieldCaveat cav ++ post)
           (f := fieldIdentifier); [exact Eb|lia|now rewrite L1].
  - apply dataBytes_packet
      with (pre := packet_bytes fieldLocation loc
                   ++ packet_bytes fieldIdentifier id')
           (post := post) (f := fieldCaveat).
    + cbn [data]. rewrite Eb. now rewrite <- app_assoc.
    + rewrite len_app. lia.
    + rewrite len_app. lia.
Qed.

(** X20. An input that starts with a location, an identifier and a caveat
    packet, with at least six bytes from the start of the caveat packet on,
    is accepted by [UnmarshalBinary] whatever follows, and [Location], [Id]
    and [caveatsRaw] of the result return the three payloads. *)
Theorem UnmarshalBinary_reads_fields
  (z : Macaroon) (loc id' cav post : bytes) :
  len loc <= 65532 -> len id' <= 65532 -> len cav <= 65532 ->
  3 <= len cav + len post ->
  exists m',
    UnmarshalBinary growslice z
      (packet_bytes fieldLocation loc ++ packet_bytes fieldIdentifier id'
       ++ packet_bytes fieldCaveat cav ++ post)
    = (m', Ok tt)
    /\ Location m' = Ok loc
    /\ Id m' = Ok id'
    /\ caveatsRaw m' = Ok cav.
Proof. apply UnmarshalBinary_reads_fields_aux. Qed.

(** X21. The binary form of a macaroon fresh from [New] is not accepted by
    [UnmarshalBinary]: where the caveat packet is expected it meets the
    signature packet and fails with "unexpected field 3; expected 4". *)
Theorem New_MarshalBinary_not_unmarshalled
  (z : Macaroon) (rootKey id' loc : bytes) :
  len loc <= 65532 -> len id' <= 65532 ->
  exists m b,
    New growslice rootKey id' loc = Ok m
    /\ MarshalBinary growslice m = Ok b
    /\ snd (UnmarshalBinary growslice z b)
       = Err (ErrUnexpectedField fieldSignature fieldCaveat).
Proof.
  intros Hl Hi.
  pose proof (len_nonneg loc) as Hl0. pose proof (len_nonneg id') as Hi0.
  destruct (New_cases growslice rootKey id' loc)
    as [[H _]|[(_ & H & _)|(_ & _ & d & EN & Ed)]]; [lia|lia|].
  pose proof (hmac_sum_length rootKey id') as Hs.
  assert (Hsl : len (Hmac.sum rootKey id') = 32)
    by (unfold len; rewrite Hs; reflexivity).
  destruct (MarshalBinary_cases
              (mkMacaroon d (mkPacket 0 (3 + len loc) 0)
                 (mkPacket (3 + len loc) (3 + len id') 0)
                 zero_packet (Hmac.sum rootKey id')))
    as [[Hbig _]|(_ & EM & _)]; [cbn [sig] in Hbig; lia|].
  cbn [sig data] in EM. rewrite Ed, <- app_assoc in EM.
  rewrite <- (app_nil_r (packet_bytes fieldSignature _)) in EM.
  eexists. eexists. split; [exact EN|]. split; [exact EM|].
  destruct (UnmarshalBinary_at z loc id' (Hmac.sum rootKey id') []
              fieldSignature) as (b & _ & ->); try lia.
  - change (len (@nil byte)) with 0. lia.
  - reflexivity.
Qed.

(** X22. After [New] and one [SetCaveats] that succeeded, the binary form
    is accepted by [UnmarshalBinary], and location, identifier and caveats
    payload of the result are those of the macaroon; the signature of the
    result is the one the receiver had before the call. *)
Theorem binary_round_trip_fields
  (z m m1 : Macaroon) (rootKey id' loc : bytes) (v : gostruct) :
  New growslice rootKey id' loc = Ok m ->
  SetCaveats growslice m v = (m1, Ok tt) ->
  exists b m2,
    MarshalBinary growslice m1 = Ok b
    /\ UnmarshalBinary growslice z b = (m2, Ok tt)
    /\ Location m2 = Location m1
    /\ Id m2 = Id m1
    /\ caveatsRaw m2 = caveatsRaw m1
    /\ Signature m2 = Signature z.
Proof.
  intros EN ES.
  pose proof (len_nonneg loc) as Hl0. pose proof (len_nonneg id') as Hi0.
  destruct (New_cases growslice rootKey id' loc)
    as [[_ H]|[(_ & _ & H)|(Hl & Hi & d & EN' & Ed)]]; try congruence.
  assert (Em : m = mkMacaroon d (mkPacket 0 (3 + len loc) 0)
                     (mkPacket (3 + len loc) (3 + len id') 0)
                     zero_packet (Hmac.sum rootKey id')) by congruence.
  subst m. clear EN EN'.
  destruct (SetCaveats_ok_inv growslice _ _ _ ES)
    as (cav & d1 & EM & Hc & -> & Ed1).
  cbn [data location id sig] in *.
  pose proof (len_nonneg cav) as Hc0.
  assert (Hsl : len (Hmac.sum (Hmac.sum rootKey id') cav) = 32).
  { unfold len. now rewrite hmac_sum_length. }
  assert (L1 : len (packet_bytes fieldLocation loc) = 3 + len loc)
    by apply len_packet_bytes.
  assert (L2 : len (packet_bytes fieldIdentifier id') = 3 + len id')
    by apply len_packet_bytes.
  assert (Hb : blen d = 3 + len loc + (3 + len id')).
  { unfold blen. now rewrite Ed, len_app, L1, L2. }
  rewrite Ed, <- app_assoc in Ed1.
  set (m1 := mkMacaroon d1 (mkPacket 0 (3 + len loc) 0)
               (mkPacket (3 + len loc) (3 + len id') 0)
               (mkPacket (int32 (blen d)) (3 + len cav) 0)
               (Hmac.sum (Hmac.sum rootKey id') cav)).
  destruct (MarshalBinary_cases m1) as [[Hbig _]|(_ & EB & _)];
    [cbn [sig m1] in Hbig; lia|].
  cbn [sig data m1] in EB. rewrite Ed1, <- !app_assoc in EB.
  destruct (UnmarshalBinary_reads_fields_aux z loc id' cav
              (packet_bytes fieldSignature
                 (Hmac.sum (Hmac.sum rootKey id') cav)))
    as (m2 & EU & EL & EI & EC); try lia.
  { rewrite len_packet_bytes. lia. }
  eexists. exists m2. split; [exact EB|]. split; [exact EU|].
  unfold Location, Id, caveatsRaw, dataStr in *.
  rewrite EL, EI, EC. cbn [location id caveats m1].
  assert (D1 : dataBytes m1 (mkPacket 0 (3 + len loc) 0) = Ok loc).
  { apply dataBytes_packet
      with (pre := [])
           (post := packet_bytes fieldIdentifier id'
                    ++ packet_bytes fieldCaveat cav)
           (f := fieldLocation);
      [exact Ed1|change (len (@nil byte)) with 0; lia|reflexivity]. }
  assert (D2 : dataBytes m1 (mkPacket (3 + len loc) (3 + len id') 0)
               = Ok id').
  { apply dataBytes_packet
      with (pre := packet_bytes fieldLocation loc)
           (post := packet_bytes fieldCaveat cav)
           (f := fieldIdentifier); [exact Ed1|lia|now rewrite L1]. }
  assert (D3 : dataBytes m1 (mkPacket (int32 (blen d)) (3 + len cav) 0)
               = Ok cav).
  { apply dataBytes_packet
      with (pre := packet_bytes fieldLocation loc
                   ++ packet_bytes fieldIdentifier id')
           (post := []) (f := fieldCaveat).
    - cbn [data m1]. rewrite Ed1. now rewrite <- app_assoc, app_nil_r.
    - rewrite len_app. lia.
    - rewrite len_app, L1, L2, Hb. apply int32_small. lia. }
  rewrite D1, D2, D3. repeat split; try reflexivity.
  unfold Signature. now rewrite (UnmarshalBinary_sig growslice z m2 _ _ EU).
Qed.


(** ** The sibling unmarshalling code *)

Lemma Legacy_unmarshal_packets_returns (fuel : nat) :
  forall (m : Legacy.Macaroon) (pos : Z) (cav : Legacy.caveat),
    Z.max 0 (blen (Legacy.data m) - pos) < Z.of_nat fuel ->
    Legacy.unmarshal_packets fuel m pos cav <> None.
Proof.
  induction fuel as [|fuel IH]; intros m pos cav Hf; [lia|].
  cbn [Legacy.unmarshal_packets].
  destruct (parsePacket (codec_view (Legacy.data m)) pos) as [p| |] eqn:EP;
    try discriminate.
  destruct (parsePacket_ok_inv _ _ _ EP) as (H0 & H6 & _ & H2 & Hin & _).
  cbn [data codec_view] in H6, Hin.
  assert (Hnext : forall m' : Legacy.Macaroon,
            Legacy.data m' = Legacy.data m ->
            Z.max 0 (blen (Legacy.data m') - (pos + packet_len p))
            < Z.of_nat fuel).
  { intros m' ->. unfold packet_len. lia. }
  destruct (fieldNum _ p) as [f| |]; try discriminate.
  destruct (Byte.eqb f fieldSignature).
  { destruct (slice2 _ _ _); try discriminate.
    destruct (dataBytes _ _); discriminate. }
  destruct (Byte.eqb f Legacy.fieldCaveatId).
  { apply IH, Hnext. now destruct (negb _). }
  destruct (Byte.eqb f Legacy.fieldVerificationId).
  { destruct (negb _); [discriminate|]. now apply IH, Hnext. }
  destruct (Byte.eqb f Legacy.fieldCaveatLocation).
  { destruct (negb _); [discriminate|]. now apply IH, Hnext. }
  discriminate.
Qed.

Lemma Legacy_unmarshalBinaryNoCopy_returns
  (m : Legacy.Macaroon) (d : buffer) :
  Legacy.unmarshalBinaryNoCopy m d <> None.
Proof.
  unfold Legacy.unmarshalBinaryNoCopy.
  change (Legacy.data (Legacy.set_data m d)) with d.
  destruct (expectPacket (codec_view d) 0 fieldLocation)
    as [[s1 p1]| |] eqn:E1; try discriminate.
  change (Legacy.data (Legacy.set_location (Legacy.set_data m d) p1)) with d.
  destruct (expectPacket (codec_view d) s1 fieldIdentifier)
    as [[s2 p2]| |] eqn:E2; try discriminate.
  destruct (expectPacket_ok_inv _ _ _ _ _ E1) as (P1 & _ & ->).
  destruct (expectPacket_ok_inv _ _ _ _ _ E2) as (P2 & _ & ->).
  destruct (parsePacket_ok_inv _ _ _ P1) as (_ & _ & _ & H1 & _).
  destruct (parsePacket_ok_inv _ _ _ P2) as (_ & _ & _ & H2 & _).
  apply Legacy_unmarshal_packets_returns.
  cbn [Legacy.data Legacy.set_id Legacy.set_location Legacy.set_data].
  unfold blen, len. lia.
Qed.

Lemma Legacy_Slice_loop_returns (fuel : nat) :
  forall (s : list Legacy.Macaroon) (d : buffer),
    blen d < Z.of_nat fuel ->
    Legacy.Slice_UnmarshalBinary_loop fuel s d <> None.
Proof.
  induction fuel as [|fuel IH]; intros s d Hf.
  { pose proof (len_nonneg (elems d)). unfold blen in Hf. lia. }
  cbn [Legacy.Slice_UnmarshalBinary_loop].
  destruct (Z.ltb_spec 0 (blen d)) as [Hpos|Hz]; [|discriminate].
  pose proof (Legacy_unmarshalBinaryNoCopy_returns Legacy.zero_Macaroon d)
    as Hret.
  destruct (Legacy.unmarshalBinaryNoCopy Legacy.zero_Macaroon d)
    as [[m [u| |]]|]; try discriminate; [|contradiction].
  destruct (slice3 _ _ _ _) as [md| |] eqn:E3; try discriminate.
  cbn [Legacy.data Legacy.set_data].
  destruct (slice_from d _) as [d'| |] eqn:ES; try discriminate.
  apply IH.
  unfold slice_from in ES.
  destruct ((0 <=? _) && (_ <=? blen d)) eqn:C; [|discriminate].
  apply andb_true_iff in C. destruct C as [C0 C1].
  apply Z.leb_le in C0, C1.
  assert (Ed' : d' = mkBuffer (skipn (Z.to_nat
                  (Legacy.marshalBinaryLen (Legacy.set_data m md)))
                  (elems d)) (spare d)) by congruence.
  subst d'. unfold blen, len in *. cbn [elems]. rewrite length_skipn.
  unfold Legacy.marshalBinaryLen, packetSize, headerLen, blen, len in *.
  cbn [Legacy.data Legacy.sig Legacy.set_data] in *. lia.
Qed.

(** X23. The unmarshalling loops of marshal.go return on every input: the
    loop over the packets of a macaroon moves on by at least two bytes a
    round, the loop over the macaroons of a slice by at least three. *)
Theorem Legacy_unmarshalling_returns
  (m : Legacy.Macaroon) (s : list Legacy.Macaroon) (d : bytes) :
  (exists m' r, Legacy.UnmarshalBinary growslice m d = Some (m', r))
  /\ (exists r, Legacy.Slice_UnmarshalBinary growslice s d = Some r).
Proof.
  split.
  - unfold Legacy.UnmarshalBinary.
    pose proof (Legacy_unmarshalBinaryNoCopy_returns m
                  (append growslice nil_buffer d)) as H.
    destruct (Legacy.unmarshalBinaryNoCopy _ _) as [[m' r]|];
      [eauto|contradiction].
  - unfold Legacy.Slice_UnmarshalBinary.
    pose proof (Legacy_Slice_loop_returns
                  (S (length (elems (append growslice nil_buffer d))))
                  (firstn 0 s) (append growslice nil_buffer d)) as H.
    destruct (Legacy.Slice_UnmarshalBinary_loop _ _ _) as [r|]; [eauto|].
    exfalso. apply H; [|reflexivity]. unfold blen, len. lia.
Qed.


Lemma byte_of_Z_to_Z (b : byte) : byte_of_Z (byte_to_Z b) = b.
Proof.
  apply to_N_inj. unfold byte_of_Z, byte_to_Z.
  pose proof (to_N_lt_256 b) as Hb.
  rewrite to_N_byte_of_N.
  rewrite Z.mod_small by lia. rewrite N2Z.id.
  apply N.mod_small. exact Hb.
Qed.

(** The two bytes [Uint16] read are the ones [PutUint16] writes. *)
Lemma PutUint16_Uint16 (b0 b1 : byte) (rest : bytes) (v : Z) :
  Uint16 (b0 :: b1 :: rest) = Ok v -> PutUint16 v = [b0; b1].
Proof.
  unfold Uint16, PutUint16. intros H.
  assert (Hv : v = Z.lor (byte_to_Z b0) (Z.shiftl (byte_to_Z b1) 8))
    by congruence.
  subst v. clear H.
  pose proof (byte_to_Z_range b0) as H0.
  pose proof (byte_to_Z_range b1) as H1.
  set (z0 := byte_to_Z b0) in *. set (z1 := byte_to_Z b1) in *.
  assert (E : Z.lor z0 (Z.shiftl z1 8) = z0 + 256 * z1).
  { rewrite Z.shiftl_mul_pow2 by lia. change (2 ^ 8) with 256.
    assert (Hland : Z.land z0 (z1 * 256) = 0).
    { apply Z.bits_inj'; intros n Hn.
      rewrite Z.land_spec, Z.bits_0.
      destruct (Z.ltb_spec n 8).
      - replace (z1 * 256) with (Z.shiftl z1 8)
          by (rewrite Z.shiftl_mul_pow2 by lia; reflexivity).
        rewrite Z.shiftl_spec_low by lia. apply andb_false_r.
      - rewrite (Z.bits_above_log2 z0 n); [reflexivity|lia|].
        destruct (Z.eq_dec z0 0) as [->|Hz]; [cbn; lia|].
        apply Z.log2_lt_pow2; [lia|].
        apply Z.lt_le_trans with (2 ^ 8); [change (2 ^ 8) with 256; lia|].
        apply Z.pow_le_mono_r; lia. }
    rewrite <- (Z.lxor_lor _ _ Hland), <- (Z.add_nocarry_lxor _ _ Hland).
    lia. }
  rewrite E.
  rewrite Z.shiftr_div_pow2 by lia. change (2 ^ 8) with 256.
  assert (M0 : (z0 + 256 * z1) mod 256 = z0).
  { rewrite (Z.mul_comm 256 z1), Z.mod_add by lia.
    apply Z.mod_small. lia. }
  assert (D0 : (z0 + 256 * z1) / 256 = z1).
  { rewrite (Z.mul_comm 256 z1), Z.div_add by lia.
    rewrite Z.div_small by lia. lia. }
  pose proof (byte_of_Z_to_Z b0) as F0. pose proof (byte_of_Z_to_Z b1) as F1.
  fold z0 in F0. fold z1 in F1.
  rewrite D0, F1. f_equal.
  unfold byte_of_Z in *. rewrite M0. now rewrite Z.mod_small in F0 by lia.
Qed.

(** The length of a packet that [parsePacket] returns is the one its first
    two bytes declare. *)
Lemma parsePacket_ok_bytes (m : Macaroon) (pos : Z) (p : packet) :
  parsePacket m pos = Ok p ->
  exists b0 b1 rest,
    skipn (Z.to_nat pos) (elems (data m)) = b0 :: b1 :: rest
    /\ PutUint16 (totalLen p) = [b0; b1].
Proof.
  intros HP.
  destruct (parsePacket_ok_inv m pos p HP) as (H0 & H6 & _ & H2 & Hin & _).
  destruct (parsePacket_outcomes m pos) as [_ H]; [lia|].
  assert (Hrest : len (skipn (Z.to_nat pos) (elems (data m)))
                  = blen (data m) - pos).
  { unfold blen, len in *. rewrite length_skipn. lia. }
  rewrite Hrest in H.
  destruct H as (plen & HU & Hr & Hbig & Hok & Hpanic); [lia|].
  destruct (skipn (Z.to_nat pos) (elems (data m))) as [|b0 [|b1 rest]];
    try discriminate HU.
  exists b0, b1, rest. split; [reflexivity|].
  destruct (Z_lt_le_dec (blen (data m) - pos) plen) as [C|C];
    [rewrite Hbig in HP by lia; discriminate|].
  destruct (Z_lt_le_dec plen 2) as [C2|C2];
    [rewrite Hpanic in HP by lia; discriminate|].
  rewrite Hok in HP by lia.
  assert (Ep : p = mkPacket (int32 pos) plen 0) by congruence.
  rewrite Ep. cbn [totalLen]. eapply PutUint16_Uint16. exact HU.
Qed.


Ltac test_true_in c H :=
  replace c with true in H
    by (symmetry; rewrite ?andb_true_iff, ?Z.ltb_lt, ?Z.leb_le; lia).

Ltac test_false_in c H :=
  replace c with false in H
    by (symmetry; rewrite ?andb_false_iff, ?Z.ltb_ge, ?Z.leb_gt, ?Z.eqb_neq;
        lia).

Lemma sub_app_skip {A} (a l : list A) (i j : Z) :
  0 <= i -> sub (a ++ l) (len a + i) (len a + j) = sub l i j.
Proof.
  intros Hi. unfold sub, len.
  replace (Z.of_nat (length a) + j - (Z.of_nat (length a) + i)) with (j - i)
    by lia.
  replace (Z.to_nat (Z.of_nat (length a) + i))
    with (Z.to_nat i + length a)%nat by lia.
  now rewrite <- skipn_skipn, skipn_length_app.
Qed.

(** The signature packet that the loop of marshal.go cuts off the buffer:
    the bytes from its start on are the packet [appendPacket] writes for
    the payload taken as the signature. *)
Lemma Legacy_signature_packet
  (b d : buffer) (pos : Z) (p : packet) (s : bytes) :
  blen b <= 2147483647 ->
  parsePacket (codec_view b) pos = Ok p ->
  fieldNum (codec_view b) p = Ok fieldSignature ->
  slice2 b 0 (start p) = Ok d ->
  dataBytes (codec_view d) p = Ok s ->
  len s <= 65532
  /\ exists post,
       elems b = elems d ++ packet_bytes fieldSignature s ++ post.
Proof.
  intros Hmax HP HF HS HD.
  destruct (parsePacket_ok_inv _ _ _ HP) as (H0 & H6 & Ep & H2 & Hin & _).
  destruct (parsePacket_ok_bytes _ _ _ HP) as (b0 & b1 & rest & Esk & EPut).
  cbn [data codec_view] in *.
  destruct p as [st tl hl]. cbn [totalLen start] in *.
  assert (Est : st = pos).
  { assert (st = int32 pos) by congruence. subst st.
    apply int32_small. pose proof (len_nonneg (elems b)). lia. }
  subst st. clear Ep.
  set (pre := firstn (Z.to_nat pos) (elems b)).
  assert (E : elems b = pre ++ b0 :: b1 :: rest).
  { unfold pre. rewrite <- Esk. symmetry. apply firstn_skipn. }
  assert (Lpre : len pre = pos).
  { unfold pre, len. rewrite length_firstn. unfold blen, len in H6. lia. }
  assert (Lb : blen b = pos + (2 + len rest)).
  { unfold blen. rewrite E, len_app, Lpre. unfold len. cbn [length]. lia. }
  pose proof (blen_le_bcap b) as Hcap.
  assert (Hbl : blen b = len (elems b)) by reflexivity.
  (* the buffer cut at the packet *)
  unfold slice2 in HS.
  test_true_in ((0 <=? 0) && (0 <=? pos) && (pos <=? bcap b)) HS.
  assert (Ed : d = mkBuffer (sub (backing b) 0 pos)
                     (skipn (Z.to_nat pos) (backing b))) by congruence.
  clear HS.
  assert (Eback : backing d = backing b).
  { subst d. unfold backing at 1. cbn [elems spare]. unfold sub.
    rewrite Z.sub_0_r. cbn [Z.to_nat skipn]. apply firstn_skipn. }
  assert (Eelems : elems d = pre).
  { subst d. cbn [elems]. unfold backing.
    rewrite sub_app_inside by lia.
    unfold sub, pre. now rewrite Z.sub_0_r. }
  (* the payload *)
  unfold dataBytes, headerLen in HD. cbn [totalLen start data codec_view] in HD.
  test_false_in (tl =? 0) HD.
  rewrite (int32_small tl) in HD by lia.
  rewrite (int32_small (pos + 3)) in HD by lia.
  rewrite (int32_small (pos + tl)) in HD by lia.
  unfold slice2 in HD.
  destruct ((0 <=? pos + 3) && (pos + 3 <=? pos + tl)
            && (pos + tl <=? bcap d)) eqn:C; [|discriminate].
  apply andb_true_iff in C. destruct C as [C _].
  apply andb_true_iff in C. destruct C as [_ C]. apply Z.leb_le in C.
  cbn [rbind elems] in HD.
  assert (Es : s = sub (backing b) (pos + 3) (pos + tl)) by congruence.
  clear HD.
  unfold backing in Es. rewrite sub_app_inside in Es by lia.
  rewrite E, <- Lpre, sub_app_skip in Es by lia.
  (* the tag *)
  unfold fieldNum, index in HF. cbn [totalLen start data codec_view] in HF.
  test_false_in (tl =? 0) HF.
  rewrite (int32_small (pos + 2)) in HF by lia.
  pose proof (len_nonneg rest) as Hr.
  test_true_in ((0 <=? pos + 2) && (pos + 2 <? blen b)) HF.
  rewrite E, <- Lpre in HF.
  replace (Z.to_nat (len pre + 2)) with (length pre + 2)%nat in HF
    by (unfold len; lia).
  rewrite app_nth2_plus in HF. cbn [nth] in HF.
  destruct rest as [|f rest'].
  { unfold len in Lb. cbn [length] in Lb. lia. }
  cbn [nth] in HF.
  assert (Ef : f = fieldSignature) by congruence. subst f.
  change (len (fieldSignature :: rest'))
    with (Z.of_nat (S (length rest'))) in Lb.
  pose proof (len_nonneg rest') as Hr'.
  (* putting the packet together *)
  unfold sub in Es.
  change (skipn (Z.to_nat 3) (b0 :: b1 :: fieldSignature :: rest'))
    with rest' in Es.
  assert (Ls : len s = tl - 3).
  { subst s. unfold len in *. rewrite length_firstn. lia. }
  split; [lia|].
  exists (skipn (Z.to_nat (tl - 3)) rest').
  rewrite Eelems, E. f_equal.
  unfold packet_bytes. replace (3 + len s) with tl by lia.
  rewrite EPut. cbn [app]. do 3 f_equal.
  subst s. symmetry. apply firstn_skipn.
Qed.


Lemma Legacy_unmarshal_packets_ok (fuel : nat) :
  forall (m m' : Legacy.Macaroon) (pos : Z) (cav : Legacy.caveat),
    Legacy.unmarshal_packets fuel m pos cav = Some (m', Ok tt) ->
    blen (Legacy.data m) <= 2147483647 ->
    Legacy.location m' = Legacy.location m
    /\ Legacy.id m' = Legacy.id m
    /\ len (Legacy.sig m') <= 65532
    /\ exists post,
         elems (Legacy.data m)
         = elems (Legacy.data m')
           ++ packet_bytes fieldSignature (Legacy.sig m') ++ post.
Proof.
  induction fuel as [|fuel IH]; intros m m' pos cav H Hmax; [discriminate|].
  cbn [Legacy.unmarshal_packets] in H.
  destruct (parsePacket (codec_view (Legacy.data m)) pos) as [p| |] eqn:EP;
    try discriminate.
  destruct (fieldNum (codec_view (Legacy.data m)) p) as [f| |] eqn:EF;
    try discriminate.
  assert (Hadd : forall c,
            Legacy.data (Legacy.add_caveat m c) = Legacy.data m
            /\ Legacy.location (Legacy.add_caveat m c) = Legacy.location m
            /\ Legacy.id (Legacy.add_caveat m c) = Legacy.id m)
    by (intros c; repeat split).
  destruct (Byte.eqb f fieldSignature) eqn:E3.
  { apply byte_eqb_eq in E3. subst f.
    assert (Hsig : forall m0 : Legacy.Macaroon,
              Legacy.data m0 = Legacy.data m ->
              Legacy.location m0 = Legacy.location m ->
              Legacy.id m0 = Legacy.id m ->
              match slice2 (Legacy.data m0) 0 (start p) with
              | Ok d =>
                  match dataBytes
                          (codec_view (Legacy.data (Legacy.set_data m0 d)))
                          p with
                  | Ok s =>
                      Some (Legacy.set_sig (Legacy.set_data m0 d) ([] ++ s),
                            Ok tt)
                  | Err e => Some (Legacy.set_data m0 d, Err e)
                  | Panic => Some (Legacy.set_data m0 d, Panic)
                  end
              | Err e => Some (m0, Err e)
              | Panic => Some (m0, Panic)
              end = Some (m', Ok tt) ->
              Legacy.location m' = Legacy.location m
              /\ Legacy.id m' = Legacy.id m
              /\ len (Legacy.sig m') <= 65532
              /\ exists post,
                   elems (Legacy.data m)
                   = elems (Legacy.data m')
                     ++ packet_bytes fieldSignature (Legacy.sig m') ++ post).
    { intros m0 Hd Hl Hi H0. rewrite Hd in H0.
      destruct (slice2 (Legacy.data m) 0 (start p)) as [d| |] eqn:ES;
        try discriminate.
      change (Legacy.data (Legacy.set_data m0 d)) with d in H0.
      destruct (dataBytes (codec_view d) p) as [s| |] eqn:ED;
        try discriminate.
      assert (Em : m' = Legacy.set_sig (Legacy.set_data m0 d) ([] ++ s))
        by congruence.
      subst m'. cbn [Legacy.location Legacy.id Legacy.sig Legacy.data
                     Legacy.set_sig Legacy.set_data app].
      destruct (Legacy_signature_packet (Legacy.data m) d pos p s
                  Hmax EP EF ES ED) as (Hs & post & E).
      repeat split; auto. now exists post. }
    destruct (negb (packet_len (Legacy.caveatId cav) =? 0)).
    - apply (Hsig (Legacy.add_caveat m cav)); try reflexivity. exact H.
    - apply (Hsig m); try reflexivity. exact H. }
  destruct (Byte.eqb f Legacy.fieldCaveatId).
  { destruct (negb (packet_len (Legacy.caveatId cav) =? 0)).
    - apply IH in H; [|exact Hmax]. exact H.
    - apply IH in H; [|exact Hmax]. exact H. }
  destruct (Byte.eqb f Legacy.fieldVerificationId).
  { destruct (negb _); [discriminate|]. now apply IH in H. }
  destruct (Byte.eqb f Legacy.fieldCaveatLocation).
  { destruct (negb _); [discriminate|]. now apply IH in H. }
  discriminate.
Qed.

Lemma Legacy_MarshalBinary_fits (m : Legacy.Macaroon) :
  len (Legacy.sig m) <= 65532 ->
  Legacy_MarshalBinary growslice m
  = Ok (elems (Legacy.data m)
        ++ packet_bytes fieldSignature (Legacy.sig m)).
Proof.
  intros Hs. unfold Legacy_MarshalBinary, Legacy_appendBinary.
  destruct (rawAppendPacket_fits growslice
              (append growslice (make0 (Legacy.marshalBinaryLen m))
                 (elems (Legacy.data m)))
              fieldSignature (Legacy.sig m)) as (d' & -> & Ed); [lia|].
  cbn [negb rbind]. rewrite Ed, elems_append. reflexivity.
Qed.

(** X24. Unmarshalling by marshal.go is undone by its marshalling: when
    [UnmarshalBinary] accepts an input, the binary form of the result is
    the part of the input up to the end of the signature packet; bytes
    after the signature packet are dropped. *)
Theorem Legacy_UnmarshalBinary_MarshalBinary
  (m m' : Legacy.Macaroon) (d : bytes) :
  len d <= 2147483647 ->
  Legacy.UnmarshalBinary growslice m d = Some (m', Ok tt) ->
  exists post,
    Legacy_MarshalBinary growslice m'
    = Ok (elems (Legacy.data m')
          ++ packet_bytes fieldSignature (Legacy.sig m'))
    /\ d = (elems (Legacy.data m')
            ++ packet_bytes fieldSignature (Legacy.sig m')) ++ post.
Proof.
  intros Hmax H.
  unfold Legacy.UnmarshalBinary, Legacy.unmarshalBinaryNoCopy in H.
  set (b := append growslice nil_buffer d) in *.
  assert (Eb : elems b = d) by (unfold b; rewrite elems_append; reflexivity).
  change (Legacy.data (Legacy.set_data m b)) with b in H.
  destruct (expectPacket (codec_view b) 0 fieldLocation)
    as [[s1 p1]| |]; try discriminate.
  change (Legacy.data (Legacy.set_location (Legacy.set_data m b) p1))
    with b in H.
  destruct (expectPacket (codec_view b) s1 fieldIdentifier)
    as [[s2 p2]| |]; try discriminate.
  apply Legacy_unmarshal_packets_ok in H.
  - destruct H as (_ & _ & Hs & post & E).
    exists post. split; [now apply Legacy_MarshalBinary_fits|].
    cbn [Legacy.data Legacy.set_id Legacy.set_location Legacy.set_data] in E.
    rewrite <- Eb, E. now rewrite <- app_assoc.
  - cbn [Legacy.data Legacy.set_id Legacy.set_location Legacy.set_data].
    unfold blen. now rewrite Eb.
Qed.


(** ** Fields of more than 255 bytes *)

Lemma slice2_len (b fd : buffer) (lo hi : Z) :
  slice2 b lo hi = Ok fd -> 0 <= lo /\ len (elems fd) = hi - lo.
Proof.
  unfold slice2.
  destruct ((0 <=? lo) && (lo <=? hi) && (hi <=? bcap b)) eqn:C;
    [|discriminate].
  apply andb_true_iff in C. destruct C as [C C2].
  apply andb_true_iff in C. destruct C as [C0 C1].
  apply Z.leb_le in C0, C1, C2.
  intros H. assert (E : fd = mkBuffer (sub (backing b) lo hi)
                              (skipn (Z.to_nat hi) (backing b)))
    by congruence.
  subst fd. cbn [elems]. split; [exact C0|].
  apply len_sub; [lia|]. unfold backing. rewrite len_app.
  unfold bcap in C2. exact C2.
Qed.

Lemma bytesToVal_value_len (t : gotype) (d : bytes) (v : govalue) :
  bytesToVal t d = Decoded v -> value_len v <= len d.
Proof.
  pose proof (len_nonneg d) as Hd.
  unfold bytesToVal, read_int.
  destruct (elem_kind t) as [k|]; [|discriminate].
  destruct k; try discriminate;
    try (destruct (binary_Read _ d); try discriminate;
         intros [= <-]; exact Hd);
    try (intros [= <-]; cbn [value_len]; lia).
  destruct d as [|x d]; [discriminate|].
  destruct (byte_to_Z x =? 1); [intros [= <-]; exact Hd|].
  destruct (byte_to_Z x =? 0); [intros [= <-]; exact Hd|discriminate].
Qed.

Lemma nth_error_set_nth {A} (l : list A) (k i : nat) (x y : A) :
  nth_error (set_nth k x l) i = Some y ->
  y = x \/ nth_error l i = Some y.
Proof.
  revert k i. induction l as [|a l IH]; intros k i H.
  - destruct k; cbn in H; destruct i; discriminate.
  - destruct k as [|k]; cbn [set_nth] in H.
    + destruct i as [|i]; cbn in *; [left; congruence|now right].
    + destruct i as [|i]; cbn in *; [now right|]. now apply IH in H.
Qed.

(** Every field of the struct after the loop of [UnMarshalCaveats] is one
    it had before, or holds at most 255 bytes. *)
Lemma UnMarshalCaveats_from_short (fuel : nat) :
  forall (obj0 obj obj' : gostructptr) (data : buffer) (cursor : Z)
         (r : decoded unit),
    (forall i f, nth_error obj i = Some f ->
       nth_error obj0 i = Some f
       \/ exists v, fvalue f = FieldPtr v /\ value_len v <= 255) ->
    UnMarshalCaveats_from fuel obj data cursor = Some (obj', r) ->
    forall i f, nth_error obj' i = Some f ->
      nth_error obj0 i = Some f
      \/ exists v, fvalue f = FieldPtr v /\ value_len v <= 255.
Proof.
  induction fuel as [|fuel IH]; intros obj0 obj obj' data cursor r Inv H;
    [discriminate|].
  cbn [UnMarshalCaveats_from] in H.
  assert (Done : forall r0, Some (obj, r0) = Some (obj', r) ->
            forall i f, nth_error obj' i = Some f ->
              nth_error obj0 i = Some f
              \/ exists v, fvalue f = FieldPtr v /\ value_len v <= 255).
  { intros r0 E. assert (obj' = obj) by congruence. subst obj'.
    exact Inv. }
  destruct (cursor <? blen data); [|now apply (Done (Decoded tt))].
  destruct (index data cursor) as [n| |];
    [|now apply (Done DecodePanic)..].
  destruct (index data (cursor + 1)) as [s| |];
    [|now apply (Done DecodePanic)..].
  destruct (slice2 data (cursor + 2) (cursor + 2 + byte_to_Z s))
    as [fd| |] eqn:ES; [|now apply (Done DecodePanic)..].
  destruct (nth_error obj (Z.to_nat (byte_to_Z n))) as [f0|] eqn:EN;
    [|now apply (Done DecodePanic)].
  destruct (bytesToVal (ftype f0) (elems fd)) as [v|e|] eqn:EB;
    [|now apply (Done (DecodeErr e))|now apply (Done DecodePanic)].
  destruct (Field_Set obj (Z.to_nat (byte_to_Z n)) v) as [obj1|] eqn:EF;
    [|now apply (Done DecodePanic)].
  apply (IH obj0 obj1 obj' data (cursor + 2 + byte_to_Z s) r); [|exact H].
  unfold Field_Set in EF. rewrite EN in EF.
  destruct (exported f0 && assignable (ftype f0)); [|discriminate].
  assert (E1 : obj1 = set_nth (Z.to_nat (byte_to_Z n))
                        (mkField (ftype f0) (exported f0) (FieldPtr v)) obj)
    by congruence.
  subst obj1. intros i f Hf.
  apply nth_error_set_nth in Hf. destruct Hf as [->|Hf]; [|now apply Inv].
  right. exists v. split; [reflexivity|].
  apply bytesToVal_value_len in EB.
  destruct (slice2_len _ _ _ _ ES) as [_ L].
  pose proof (byte_to_Z_range s). lia.
Qed.

(** X25. Fields of more than 255 bytes are lost without an error.
    [MarshalCaveats] accepts a string or [[]byte] field of any length and
    writes the low byte of its length as the size; [UnMarshalCaveats], on
    whatever payload and however it ends, never stores a string or
    [[]byte] of more than 255 bytes: a field of the struct that holds one
    after the call is a field the struct had before the call. *)
Theorem long_field_not_restored (s : bytes) :
  255 < len s ->
  MarshalCaveats [FieldPtr (VString s)]
  = Ok ([x00] ++ [byte_of_Z (len s)] ++ s)
  /\ MarshalCaveats [FieldPtr (VByteSlice s)]
     = Ok ([x00] ++ [byte_of_Z (len s)] ++ s)
  /\ forall (obj obj' : gostructptr) (data : buffer) (r : decoded unit)
            (f : gofielddecl),
       UnMarshalCaveats obj data = Some (obj', r) ->
       In f obj' ->
       fvalue f = FieldPtr (VString s) \/ fvalue f = FieldPtr (VByteSlice s) ->
       In f obj.
Proof.
  intros Hs. split; [reflexivity|]. split; [reflexivity|].
  intros obj obj' data r f H Hin Hv.
  apply In_nth_error in Hin. destruct Hin as [i Hi].
  destruct (UnMarshalCaveats_from_short _ obj obj obj' data 0 r
              (fun i f H => or_introl H) H i f Hi) as [H0|(v & Ev & Hl)].
  - eapply nth_error_In. exact H0.
  - exfalso. destruct Hv as [Hv|Hv]; rewrite Hv in Ev;
      assert (E : v = VString s \/ v = VByteSlice s)
        by (first [left; congruence | right; congruence]);
      destruct E as [-> | ->]; cbn [value_len] in Hl; lia.
Qed.

End Coverage.

(** ** The coverage theorems on the package's example *)

Ltac by_computation := vm_compute; first [reflexivity | discriminate].

Lemma appendPacket_keeps_packets_witness :
  appendPacket exact_fit Example.fresh fieldCaveat Example.cavData
  = BinaryExample.appended
  /\ within (data Example.fresh) (id Example.fresh)
  /\ dataBytes (fst (fst BinaryExample.appended)) (id Example.fresh)
     = dataBytes Example.fresh (id Example.fresh).
Proof.
  assert (W : within (data Example.fresh) (id Example.fresh))
    by (right; repeat split; by_computation).
  split; [vm_compute; reflexivity|].
  split; [exact W|].
  apply (appendPacket_keeps_packets exact_fit Example.fresh
           (fst (fst BinaryExample.appended)) fieldCaveat Example.cavData
           (snd (fst BinaryExample.appended)) (id Example.fresh)
           (snd BinaryExample.appended)).
  - vm_compute. reflexivity.
  - exact W.
Defined.

Lemma appendPacket_parsePacket_witness :
  3 <= len Example.cavData
  /\ appendPacket exact_fit Example.fresh fieldCaveat Example.cavData
     = BinaryExample.appended
  /\ snd BinaryExample.appended = true
  /\ parsePacket (fst (fst BinaryExample.appended)) (blen (data Example.fresh))
     = Ok (snd (fst BinaryExample.appended)).
Proof.
  split; [by_computation|].
  split; [vm_compute; reflexivity|].
  split; [reflexivity|].
  apply (appendPacket_parsePacket exact_fit Example.fresh
           (fst (fst BinaryExample.appended)) fieldCaveat Example.cavData
           (snd (fst BinaryExample.appended))).
  - by_computation.
  - by_computation.
  - by_computation.
  - vm_compute. reflexivity.
Defined.

Lemma appendPacket_short_payload_not_parsed_witness :
  len [x00] < 3
  /\ appendPacket exact_fit Example.fresh fieldCaveat [x00]
     = BinaryExample.appended_short
  /\ snd BinaryExample.appended_short = true
  /\ parsePacket (fst (fst BinaryExample.appended_short))
       (blen (data Example.fresh))
     = Err ErrPacketTooShort.
Proof.
  split; [by_computation|].
  split; [vm_compute; reflexivity|].
  split; [reflexivity|].
  apply (appendPacket_short_payload_not_parsed exact_fit Example.fresh
           (fst (fst BinaryExample.appended_short)) fieldCaveat [x00]
           (snd (fst BinaryExample.appended_short))).
  - by_computation.
  - vm_compute. reflexivity.
Defined.

Lemma parsePacket_ok_inside_witness :
  parsePacket Example.attenuated 0 = Ok (location Example.attenuated)
  /\ 6 <= blen (data Example.attenuated) - 0
  /\ 0 + totalLen (location Example.attenuated)
     <= blen (data Example.attenuated).
Proof.
  assert (H : parsePacket Example.attenuated 0
              = Ok (location Example.attenuated))
    by (vm_compute; reflexivity).
  split; [exact H|].
  pose proof (parsePacket_ok_inside Example.attenuated 0
                (location Example.attenuated) H) as P.
  split; [exact (proj1 (proj2 P))|].
  exact (proj1 (proj2 (proj2 (proj2 (proj2 P))))).
Defined.

Lemma New_stores_fields_witness :
  len Example.loc <= 65532 /\ len Example.ident <= 65532
  /\ exists m,
       New exact_fit Example.rootKey Example.ident Example.loc = Ok m
       /\ Location m = Ok Example.loc
       /\ Id m = Ok Example.ident
       /\ caveatsRaw m = Ok []
       /\ Signature m = keyedHash Example.rootKey Example.ident
       /\ elems (data m)
          = packet_bytes fieldLocation Example.loc
            ++ packet_bytes fieldIdentifier Example.ident.
Proof.
  split; [by_computation|]. split; [by_computation|].
  apply (New_stores_fields exact_fit Example.rootKey Example.ident
           Example.loc); by_computation.
Defined.

Lemma Slice_MarshalBinary_concat_witness :
  Forall (fun m => len (sig m) <= 65532) [Example.attenuated; Example.other]
  /\ Slice_MarshalBinary exact_fit [Example.attenuated; Example.other]
     = Ok (flat_map (fun m => elems (data m)
                              ++ packet_bytes fieldSignature (sig m))
             [Example.attenuated; Example.other]).
Proof.
  assert (F : Forall (fun m => len (sig m) <= 65532)
                [Example.attenuated; Example.other])
    by (repeat constructor; by_computation).
  split; [exact F|].
  exact (proj1 (Slice_MarshalBinary_concat exact_fit
                  [Example.attenuated; Example.other] F)).
Defined.

Lemma UnmarshalBinary_short_input_witness :
  len [x00] < 6
  /\ snd (UnmarshalBinary exact_fit zero_Macaroon [x00])
     = Err ErrPacketTooShort.
Proof.
  assert (H : len [x00] < 6) by by_computation.
  split; [exact H|].
  exact (proj1 (UnmarshalBinary_short_input exact_fit zero_Macaroon []
                  [x00] H)).
Defined.

Lemma UnmarshalBinary_ok_layout_witness :
  UnmarshalBinary exact_fit zero_Macaroon BinaryExample.wire
  = (BinaryExample.unmarshalled, Ok tt)
  /\ elems (data BinaryExample.unmarshalled) = BinaryExample.wire
  /\ sig BinaryExample.unmarshalled = sig zero_Macaroon.
Proof.
  assert (H : UnmarshalBinary exact_fit zero_Macaroon BinaryExample.wire
              = (BinaryExample.unmarshalled, Ok tt))
    by (vm_compute; reflexivity).
  split; [exact H|].
  pose proof (UnmarshalBinary_ok_layout exact_fit zero_Macaroon
                BinaryExample.unmarshalled BinaryExample.wire H) as P.
  split; [exact (proj1 P)|exact (proj1 (proj2 P))].
Defined.

Lemma reachable_never_panics_witness :
  reachable exact_fit Example.attenuated
  /\ blen (data Example.attenuated) <= 2147483647
  /\ (Verify Example.attenuated Example.rootKey = Ok tt
      \/ Verify Example.attenuated Example.rootKey
         = Err ErrSignatureMismatch).
Proof.
  assert (R : reachable exact_fit Example.attenuated).
  { apply (@reach_SetCaveats exact_fit Example.fresh Example.attenuated
             Example.record (Ok tt)).
    - apply (@reach_New exact_fit Example.rootKey Example.ident Example.loc).
      vm_compute. reflexivity.
    - vm_compute. reflexivity. }
  assert (B : blen (data Example.attenuated) <= 2147483647)
    by by_computation.
  split; [exact R|].
  split; [exact B|].
  exact (proj2 (reachable_never_panics exact_fit Example.attenuated
                  Example.rootKey R B)).
Defined.

Lemma JSON_round_trip_witness :
  reachable exact_fit Example.attenuated
  /\ blen (data Example.attenuated) <= 2147483647
  /\ Location Example.attenuated = Ok Example.loc
  /\ Id Example.attenuated = Ok Example.ident
  /\ json_string Example.loc = Example.loc
  /\ json_string Example.ident = Example.ident
  /\ exists mjson m',
       MarshalJSON Example.attenuated = Ok mjson
       /\ json_transport mjson = mjson
       /\ UnmarshalJSON exact_fit zero_Macaroon (json_transport mjson)
          = (m', Ok tt)
       /\ Location m' = Ok Example.loc
       /\ Id m' = Ok Example.ident
       /\ caveatsRaw m' = caveatsRaw Example.attenuated
       /\ Signature m' = Signature Example.attenuated
       /\ forall rootKey,
            Verify m' rootKey = Verify Example.attenuated rootKey.
Proof.
  assert (R : reachable exact_fit Example.attenuated).
  { apply (@reach_SetCaveats exact_fit Example.fresh Example.attenuated
             Example.record (Ok tt)).
    - apply (@reach_New exact_fit Example.rootKey Example.ident Example.loc).
      vm_compute. reflexivity.
    - vm_compute. reflexivity. }
  assert (B : blen (data Example.attenuated) <= 2147483647)
    by by_computation.
  assert (HL : Location Example.attenuated = Ok Example.loc)
    by (vm_compute; reflexivity).
  assert (HI : Id Example.attenuated = Ok Example.ident)
    by (vm_compute; reflexivity).
  assert (UL : json_string Example.loc = Example.loc)
    by (vm_compute; reflexivity).
  assert (UI : json_string Example.ident = Example.ident)
    by (vm_compute; reflexivity).
  split; [exact R|]. split; [exact B|]. split; [exact HL|].
  split; [exact HI|]. split; [exact UL|]. split; [exact UI|].
  exact (JSON_round_trip exact_fit Example.attenuated Example.loc
           Example.ident R B HL HI UL UI).
Defined.

Lemma MarshalCaveats_UnMarshalCaveats_witness :
  all_fit Example.record CaveatExample.target = true
  /\ len Example.record <= 256
  /\ exists cavData,
       MarshalCaveats Example.record = Ok cavData
       /\ UnMarshalCaveats CaveatExample.target (mkBuffer cavData [])
          = Some (store Example.record CaveatExample.target, Decoded tt)
       /\ (all_nil CaveatExample.target = true ->
           fields_of (store Example.record CaveatExample.target)
           = Example.record).
Proof.
  split; [reflexivity|]. split; [by_computation|].
  apply (MarshalCaveats_UnMarshalCaveats Example.record CaveatExample.target
           []).
  - reflexivity.
  - by_computation.
Defined.

Lemma SetCaveats_GetCaveats_witness :
  all_fit Example.record CaveatExample.target = true
  /\ SetCaveats exact_fit Example.fresh Example.record
     = (Example.attenuated, Ok tt)
  /\ GetCaveats Example.attenuated CaveatExample.target
     = Some (store Example.record CaveatExample.target, Decoded tt).
Proof.
  split; [reflexivity|]. split; [vm_compute; reflexivity|].
  apply (SetCaveats_GetCaveats exact_fit Example.fresh Example.attenuated
           Example.record CaveatExample.target).
  - reflexivity.
  - by_computation.
  - by_computation.
  - vm_compute. reflexivity.
Defined.

Lemma UnMarshalCaveats_malformed_panics_witness :
  blen (mkBuffer [x07] []) = 1
  /\ UnMarshalCaveats CaveatExample.target (mkBuffer [x07] [])
     = Some (CaveatExample.target, DecodePanic).
Proof.
  split; [reflexivity|].
  apply (UnMarshalCaveats_malformed_panics CaveatExample.target
           (mkBuffer [x07] [])).
  left. reflexivity.
Defined.

Lemma UnMarshalCaveats_reads_past_length_witness :
  3 <= len (spare CaveatExample.overlong)
  /\ UnMarshalCaveats CaveatExample.target CaveatExample.overlong
     = Some ([mkField (PtrTo KString) true
                (FieldPtr (VString (spare CaveatExample.overlong)))],
             Decoded tt).
Proof.
  split; [by_computation|].
  apply (UnMarshalCaveats_reads_past_length
           (mkField (PtrTo KString) true FieldNilPtr) [] 3
           (spare CaveatExample.overlong)).
  - reflexivity.
  - reflexivity.
  - split; by_computation.
  - by_computation.
Defined.

Lemma UnmarshalBinary_reads_fields_witness :
  len Example.loc <= 65532 /\ len Example.ident <= 65532
  /\ len Example.cavData <= 65532
  /\ 3 <= len Example.cavData + len (@nil byte)
  /\ exists m',
       UnmarshalBinary exact_fit zero_Macaroon
         (packet_bytes fieldLocation Example.loc
          ++ packet_bytes fieldIdentifier Example.ident
          ++ packet_bytes fieldCaveat Example.cavData ++ [])
       = (m', Ok tt)
       /\ Location m' = Ok Example.loc
       /\ Id m' = Ok Example.ident
       /\ caveatsRaw m' = Ok Example.cavData.
Proof.
  split; [by_computation|]. split; [by_computation|].
  split; [by_computation|]. split; [by_computation|].
  apply (UnmarshalBinary_reads_fields exact_fit zero_Macaroon Example.loc
           Example.ident Example.cavData []); by_computation.
Defined.

Lemma New_MarshalBinary_not_unmarshalled_witness :
  len Example.loc <= 65532 /\ len Example.ident <= 65532
  /\ exists m b,
       New exact_fit Example.rootKey Example.ident Example.loc = Ok m
       /\ MarshalBinary exact_fit m = Ok b
       /\ snd (UnmarshalBinary exact_fit zero_Macaroon b)
          = Err (ErrUnexpectedField fieldSignature fieldCaveat).
Proof.
  split; [by_computation|]. split; [by_computation|].
  apply (New_MarshalBinary_not_unmarshalled exact_fit zero_Macaroon
           Example.rootKey Example.ident Example.loc); by_computation.
Defined.

Lemma binary_round_trip_fields_witness :
  New exact_fit Example.rootKey Example.ident Example.loc = Ok Example.fresh
  /\ SetCaveats exact_fit Example.fresh Example.record
     = (Example.attenuated, Ok tt)
  /\ exists b m2,
       MarshalBinary exact_fit Example.attenuated = Ok b
       /\ UnmarshalBinary exact_fit zero_Macaroon b = (m2, Ok tt)
       /\ Location m2 = Location Example.attenuated
       /\ Id m2 = Id Example.attenuated
       /\ caveatsRaw m2 = caveatsRaw Example.attenuated
       /\ Signature m2 = Signature zero_Macaroon.
Proof.
  split; [vm_compute; reflexivity|]. split; [vm_compute; reflexivity|].
  apply (binary_round_trip_fields exact_fit zero_Macaroon Example.fresh
           Example.attenuated Example.rootKey Example.ident Example.loc
           Example.record).
  - vm_compute. reflexivity.
  - vm_compute. reflexivity.
Defined.

Lemma Legacy_UnmarshalBinary_MarshalBinary_witness :
  len BinaryExample.wire <= 2147483647
  /\ Legacy.UnmarshalBinary exact_fit Legacy.zero_Macaroon BinaryExample.wire
     = Some (BinaryExample.legacy_unmarshalled, Ok tt)
  /\ exists post,
       Legacy_MarshalBinary exact_fit BinaryExample.legacy_unmarshalled
       = Ok (elems (Legacy.data BinaryExample.legacy_unmarshalled)
             ++ packet_bytes fieldSignature
                  (Legacy.sig BinaryExample.legacy_unmarshalled))
       /\ BinaryExample.wire
          = (elems (Legacy.data BinaryExample.legacy_unmarshalled)
             ++ packet_bytes fieldSignature
                  (Legacy.sig BinaryExample.legacy_unmarshalled)) ++ post.
Proof.
  split; [by_computation|]. split; [vm_compute; reflexivity|].
  apply (Legacy_UnmarshalBinary_MarshalBinary exact_fit Legacy.zero_Macaroon
           BinaryExample.legacy_unmarshalled BinaryExample.wire).
  - by_computation.
  - vm_compute. reflexivity.
Defined.

Lemma long_field_not_restored_witness :
  255 < len (repeat x00 256)
  /\ MarshalCaveats [FieldPtr (VString (repeat x00 256))]
     = Ok ([x00] ++ [byte_of_Z (len (repeat x00 256))] ++ repeat x00 256).
Proof.
  assert (H : 255 < len (repeat x00 256)) by by_computation.
  split; [exact H|].
  exact (proj1 (long_field_not_restored (repeat x00 256) H)).
Defined.

(** ** A failed [SetCaveats] after a successful one *)


